(** * Resilient execution core of the Robinhood trading client

    A shallow embedding of the TypeScript sketches of the repository
    (cache manager, token bucket, rate limiters, circuit breaker, API
    client, trading service) and the properties of its design document
    checked against them.

    Conventions of the embedding.
    - [Date.now()] is an integer number of milliseconds ([Z]); a method
      that reads the clock takes the reading as an argument, one argument
      per read when the method awaits between two reads.
    - A JavaScript [number] that holds tokens, rates or waits is a
      rational ([Q]): arithmetic is exact, the rounding of IEEE doubles is
      not modelled.  Division by zero of a positive number is [PosInf].
    - A promise that settles is a [Result]: [Ok v] when it resolves,
      [Throw e] when it rejects.
    - A [Map] read by key is a [gmap]; a [Map] that is iterated in
      insertion order is an association list. *)

From Stdlib Require Import ZArith QArith Qminmax Qround Lqa Lia Bool List Ascii.
From stdpp Require Import base option gmap strings.
Import ListNotations.

Open Scope string_scope.
Open Scope Z_scope.

(** ** Values shared by the components *)

(** A JSON payload (a response body, a cached value).  [JNull] is the
    JavaScript [null]: the cache reports a miss with it. *)
#[local] Unset Elimination Schemes.
Inductive Json : Type :=
| JNull
| JBool (b : bool)
| JNum (n : Z)
| JStr (s : string)
| JArr (items : list Json)
| JObj (fields : list (string * Json)).
#[local] Set Elimination Schemes.

(** JavaScript truthiness, as used by [if (cached)]. *)
Definition truthy (v : Json) : bool :=
  match v with
  | JNull => false
  | JBool b => b
  | JNum n => negb (n =? 0)
  | JStr s => negb (String.eqb s "")
  | JArr _ => true
  | JObj _ => true
  end.

Record Request := {
  method : string;
  url : string;
  body : Json;
}.

Record Response := {
  status : Z;
  data : Json;
  retryAfter : option Z;   (* headers['retry-after'], parsed *)
}.

(** Errors that the code throws: [new Error(msg)], [new ApiError(msg,
    status, data)] and the error axios rejects with (it carries the
    response, when there is one, and the request configuration). *)
Inductive Error : Type :=
| JsError (message : string)
| ApiError (message : string) (statusCode : Z) (responseData : Json)
| AxiosError (response : option Response) (config : Request).

Inductive Result (A : Type) : Type :=
| Ok (a : A)
| Throw (e : Error).
Arguments Ok {A} a.
Arguments Throw {A} e.

(** A JavaScript number that may be [Infinity]. *)
Inductive JsNum : Type :=
| Fin (q : Q)
| PosInf.

Definition Qltb (x y : Q) : bool := negb (Qle_bool y x).

(** ** Circuit breaker ([src/rate-limit/circuit-breaker.ts]) *)

Module CircuitBreaker.

Inductive State := CLOSED | OPEN | HALF_OPEN.

Record t := {
  state : State;
  failureCount : Z;
  lastFailureTime : Z;
  threshold : Z;
  timeout : Z;
}.

(** [constructor(threshold = 5, timeout = 60000)] *)
Definition new (threshold timeout : Z) : t :=
  {| state := CLOSED; failureCount := 0; lastFailureTime := 0;
     threshold := threshold; timeout := timeout |}.

Definition default : t := new 5 60000.

Definition set_state (s : State) (cb : t) : t :=
  {| state := s; failureCount := failureCount cb;
     lastFailureTime := lastFailureTime cb;
     threshold := threshold cb; timeout := timeout cb |}.

Definition onSuccess (cb : t) : t :=
  let cb1 :=
    {| state := state cb; failureCount := 0;
       lastFailureTime := lastFailureTime cb;
       threshold := threshold cb; timeout := timeout cb |} in
  match state cb1 with
  | HALF_OPEN => set_state CLOSED cb1
  | _ => cb1
  end.

Definition onFailure (cb : t) (now : Z) : t :=
  let cb1 :=
    {| state := state cb; failureCount := failureCount cb + 1;
       lastFailureTime := now;
       threshold := threshold cb; timeout := timeout cb |} in
  if threshold cb1 <=? failureCount cb1 then set_state OPEN cb1 else cb1.

Definition breaker_open_error : Error := JsError "Circuit breaker is OPEN".

(** The first statement of [execute]: the test of the state before [fn]
    is called.  [None] is the [throw]. *)
Definition gate (cb : t) (now : Z) : option t :=
  match state cb with
  | OPEN =>
      if timeout cb <? now - lastFailureTime cb
      then Some (set_state HALF_OPEN cb)
      else None
  | _ => Some cb
  end.

Section Execute.
(** [fn] runs in a world [W] that it may change (the network, the
    clock); [clock] reads [Date.now()] from it. *)
Context {W T : Type} (clock : W -> Z).

Definition execute (cb : t) (fn : W -> Result T * W) (w : W)
  : Result T * t * W :=
  match gate cb (clock w) with
  | None => (Throw breaker_open_error, cb, w)
  | Some cb1 =>
      let '(r, w') := fn w in
      match r with
      | Ok v => (Ok v, onSuccess cb1, w')
      | Throw e => (Throw e, onFailure cb1 (clock w'), w')
      end
  end.
End Execute.

(** A sequence of calls through one breaker, each described by the
    clock at the call, whether [fn] succeeds, and the clock when it
    settles. *)
Record Call := { at_ : Z; succeeds : bool; settled : Z }.

Definition call_fn (c : Call) (w : Z) : Result unit * Z :=
  (if succeeds c then Ok tt else Throw (JsError "upstream failure"),
   settled c).

Definition step (cb : t) (c : Call) : Result unit * t :=
  let '(r, cb', _) := execute (fun w : Z => w) cb (call_fn c) (at_ c) in
  (r, cb').

Fixpoint run (cb : t) (cs : list Call) : t :=
  match cs with
  | [] => cb
  | c :: cs' => run (snd (step cb c)) cs'
  end.

(** Whether the call gets as far as invoking [fn]. *)
Definition invoked (cb : t) (c : Call) : bool :=
  match gate cb (at_ c) with Some _ => true | None => false end.

(** The failures of [fn] since its last success, over a sequence of
    calls: a call in which [fn] succeeds brings the count back to zero,
    one in which it fails adds one, and a call that the breaker refuses
    does not run [fn] and leaves the count alone.  [acc] is the count
    before the sequence. *)
Fixpoint consecutiveFailures (cb : t) (cs : list Call) (acc : Z) : Z :=
  match cs with
  | [] => acc
  | c :: cs' =>
      consecutiveFailures (snd (step cb c)) cs'
        (if invoked cb c then (if succeeds c then 0 else acc + 1) else acc)
  end.

End CircuitBreaker.

(** ** Token bucket ([src/rate-limit/token-bucket.ts]) *)

Module TokenBucket.

Record t := {
  tokens : Q;
  lastRefill : Z;
  capacity : Q;
  refillRate : Q;      (* tokens per second *)
}.

(** [constructor(capacity, refillRate)], run when the clock reads [now]. *)
Definition new (capacity refillRate : Q) (now : Z) : t :=
  {| tokens := capacity; lastRefill := now;
     capacity := capacity; refillRate := refillRate |}.

Definition refill (b : t) (now : Z) : t :=
  let timePassed := (inject_Z (now - lastRefill b) / 1000)%Q in
  let tokensToAdd := (timePassed * refillRate b)%Q in
  {| tokens := Qmin (capacity b) (tokens b + tokensToAdd);
     lastRefill := now;
     capacity := capacity b; refillRate := refillRate b |}.

(** [this.tokens -= n] *)
Definition take (n : Q) (b : t) : t :=
  {| tokens := (tokens b - n)%Q; lastRefill := lastRefill b;
     capacity := capacity b; refillRate := refillRate b |}.

(** [((tokens - this.tokens) / this.refillRate) * 1000], computed when
    [this.tokens < tokens]: the numerator is positive, so a zero rate
    gives [Infinity]. *)
Definition waitTime (b : t) (n : Q) : JsNum :=
  if Qeq_bool (refillRate b) 0 then PosInf
  else Fin ((n - tokens b) / refillRate b * 1000)%Q.

(** The bucket just before [this.tokens -= tokens]: refilled at [now]
    and, when that was not enough, once more at [wake], the clock when
    the sleep is over. *)
Definition ready (b : t) (n : Q) (now wake : Z) : t :=
  let b1 := refill b now in
  if Qltb (tokens b1) n then refill b1 wake else b1.

(** The sleep [consume] asks for, if any. *)
Definition slept (b : t) (n : Q) (now : Z) : option JsNum :=
  let b1 := refill b now in
  if Qltb (tokens b1) n then Some (waitTime b1 n) else None.

(** [consume(tokens = 1)]: the promise it returns, the sleep it asked
    for and the bucket it leaves. *)
Definition consume (b : t) (n : Q) (now wake : Z)
  : Result unit * option JsNum * t :=
  (Ok tt, slept b n now, take n (ready b n now wake)).

(** [consume] has one await, its sleep: a caller that shares the bucket
    with others runs in two pieces, and the others may run in between.
    [start] is the piece up to the sleep, or up to the end when there is
    no sleep; [resume] is the piece from the end of the sleep, on the
    bucket as it is then. *)
Definition start (b : t) (n : Q) (now : Z) : option JsNum * t :=
  let b1 := refill b now in
  if Qltb (tokens b1) n then (Some (waitTime b1 n), b1) else (None, take n b1).

Definition resume (b : t) (n : Q) (wake : Z) : t := take n (refill b wake).

Definition getAvailableTokens (b : t) (now : Z) : Z * t :=
  let b1 := refill b now in (Qfloor (tokens b1), b1).

(** What a caller may do with a bucket: every state of a bucket is
    obtained from the constructor by these methods, with a request of
    a non-negative number of tokens. *)
Inductive reachable : t -> Prop :=
| reach_new capacity refillRate now :
    reachable (new capacity refillRate now)
| reach_consume b n now wake :
    reachable b -> (0 <= n)%Q ->
    reachable (snd (consume b n now wake))
| reach_refill b now :
    reachable b -> reachable (refill b now)
| reach_inspect b now :
    reachable b -> reachable (snd (getAvailableTokens b now)).

(** Calls of [consume()] one after the other; each comes with the clock
    at the call and the clock at the end of its sleep. *)
Fixpoint consumeAll (b : t) (clocks : list (Z * Z)) : list (option JsNum) * t :=
  match clocks with
  | [] => ([], b)
  | (now, wake) :: rest =>
      let '(_, w, b') := consume b 1 now wake in
      let '(ws, b'') := consumeAll b' rest in
      (w :: ws, b'')
  end.

End TokenBucket.

(** [String.prototype.includes] *)
Fixpoint includes (s pat : string) : bool :=
  String.prefix pat s ||
  match s with
  | EmptyString => false
  | String _ s' => includes s' pat
  end.

(** [Map.prototype.get] on a map kept in insertion order. *)
Fixpoint assoc_get {A : Type} (m : list (string * A)) (k : string) : option A :=
  match m with
  | [] => None
  | (k', v) :: m' => if String.eqb k' k then Some v else assoc_get m' k
  end.

(** ** Endpoint rate limiter ([src/rate-limit/rate-limiter.ts]) *)

Module RateLimiter.

Record RateLimit := { capacity : Q; refillRate : Q }.

Record t := {
  buckets : gmap string TokenBucket.t;
  limits : list (string * RateLimit);
}.

Definition setupLimits : list (string * RateLimit) :=
  [ ("/quotes/",   {| capacity := 50;  refillRate := 20 |});
    ("/orders/",   {| capacity := 10;  refillRate := 2 |});
    ("/accounts/", {| capacity := 20;  refillRate := 5 |});
    ("*",          {| capacity := 100; refillRate := 30 |}) ].

Definition new : t := {| buckets := ∅; limits := setupLimits |}.

Fixpoint firstPattern (ls : list (string * RateLimit)) (endpoint : string)
  : option string :=
  match ls with
  | [] => None
  | (pattern, _) :: ls' =>
      if negb (String.eqb pattern "*") && includes endpoint pattern
      then Some pattern
      else firstPattern ls' endpoint
  end.

Definition getEndpointPattern (rl : t) (endpoint : string) : string :=
  match firstPattern (limits rl) endpoint with
  | Some pattern => pattern
  | None => "*"
  end.

(** One wait of [consumeToken]: the clock when [bucket.consume()]
    starts and the clock when its sleep, if it sleeps, is over. *)
Record Clock := { now : Z; wake : Z }.

(** The bucket found or created by [consumeToken]; [None] when there is
    neither a bucket nor a limit for the pattern.  No await separates
    the constructor of a new bucket from the first [refill] of
    [consume]: both read the clock at [now c]. *)
Definition bucketFor (rl : t) (pattern : string) (c : Clock)
  : option TokenBucket.t :=
  match buckets rl !! pattern with
  | Some bucket => Some bucket
  | None =>
      match assoc_get (limits rl) pattern with
      | None => None
      | Some limit =>
          Some (TokenBucket.new (capacity limit) (refillRate limit) (now c))
      end
  end.

(** The bucket after one token is taken from it by [consume()]. *)
Definition charged (bucket : TokenBucket.t) (c : Clock) : TokenBucket.t :=
  TokenBucket.take 1 (TokenBucket.ready bucket 1 (now c) (wake c)).

Definition consumeToken (rl : t) (pattern : string) (c : Clock)
  : Result unit * option JsNum * t :=
  match bucketFor rl pattern c with
  | None => (Ok tt, None, rl)
  | Some bucket =>
      let '(r, w, bucket') := TokenBucket.consume bucket 1 (now c) (wake c) in
      (r, w, {| buckets := <[pattern := bucket']> (buckets rl);
                limits := limits rl |})
  end.

(** [checkLimit(endpoint)]: the promise, the sleeps asked for (for the
    endpoint's bucket, then for the global one) and the limiter. *)
Definition checkLimit (rl : t) (endpoint : string) (c1 c2 : Clock)
  : Result unit * list (option JsNum) * t :=
  let endpointPattern := getEndpointPattern rl endpoint in
  let '(r1, w1, rl1) := consumeToken rl endpointPattern c1 in
  match r1 with
  | Throw e => (Throw e, [w1], rl1)
  | Ok _ =>
      let '(r2, w2, rl2) := consumeToken rl1 "*" c2 in
      (r2, [w1; w2], rl2)
  end.

(** A limiter as the constructor and [checkLimit] leave it: the limits
    are those of [setupLimits] and a bucket has the capacity and the
    rate of the limit of its pattern. *)
Definition wf (rl : t) : Prop :=
  limits rl = setupLimits /\
  forall pattern bucket,
    buckets rl !! pattern = Some bucket ->
    exists limit,
      assoc_get setupLimits pattern = Some limit /\
      TokenBucket.capacity bucket = capacity limit /\
      TokenBucket.refillRate bucket = refillRate limit.

End RateLimiter.

(** ** Rate limiter of the client ([src/client/rate-limiter.ts]) *)

Module ClientRateLimiter.

Record RateLimitConfig := { requestsPerSecond : Q; burstSize : Q }.

Record RateLimitBucket := { tokens : Q; lastRefill : Z }.

Record t := {
  buckets : gmap string RateLimitBucket;
  defaultConfig : RateLimitConfig;
  endpointLimits : list (string * RateLimitConfig);
}.

Definition new : t :=
  {| buckets := ∅;
     defaultConfig := {| requestsPerSecond := 10; burstSize := 20 |};
     endpointLimits :=
       [ ("/quotes/",   {| requestsPerSecond := 20; burstSize := 40 |});
         ("/orders/",   {| requestsPerSecond := 5;  burstSize := 10 |});
         ("/accounts/", {| requestsPerSecond := 10; burstSize := 20 |}) ] |}.

Fixpoint firstConfig (ls : list (string * RateLimitConfig)) (endpoint : string)
  : option RateLimitConfig :=
  match ls with
  | [] => None
  | (pattern, config) :: ls' =>
      if includes endpoint pattern then Some config
      else firstConfig ls' endpoint
  end.

Definition getConfigForEndpoint (rl : t) (endpoint : string) : RateLimitConfig :=
  match firstConfig (endpointLimits rl) endpoint with
  | Some config => config
  | None => defaultConfig rl
  end.

(** The bucket is kept under the endpoint string itself.  A bucket that
    is created is stamped with the clock of [checkLimit], [now]. *)
Definition getOrCreateBucket (rl : t) (endpoint : string)
    (config : RateLimitConfig) (now : Z) : RateLimitBucket * t :=
  match buckets rl !! endpoint with
  | Some bucket => (bucket, rl)
  | None =>
      let bucket := {| tokens := burstSize config; lastRefill := now |} in
      (bucket, {| buckets := <[endpoint := bucket]> (buckets rl);
                  defaultConfig := defaultConfig rl;
                  endpointLimits := endpointLimits rl |})
  end.

Definition refillBucket (bucket : RateLimitBucket) (config : RateLimitConfig)
    (now : Z) : RateLimitBucket :=
  let timePassed := (inject_Z (now - lastRefill bucket) / 1000)%Q in
  let tokensToAdd := (timePassed * requestsPerSecond config)%Q in
  {| tokens := Qmin (burstSize config) (tokens bucket + tokensToAdd);
     lastRefill := now |}.

(** [(1 / config.requestsPerSecond) * 1000] *)
Definition calculateWaitTime (config : RateLimitConfig) : JsNum :=
  if Qeq_bool (requestsPerSecond config) 0 then PosInf
  else Fin (1 / requestsPerSecond config * 1000)%Q.

Definition checkLimit (rl : t) (endpoint : string) (now wake : Z)
  : Result unit * option JsNum * t :=
  let config := getConfigForEndpoint rl endpoint in
  let '(bucket, rl1) := getOrCreateBucket rl endpoint config now in
  let b1 := refillBucket bucket config now in
  let w := if Qltb (tokens b1) 1 then Some (calculateWaitTime config) else None in
  let b2 := if Qltb (tokens b1) 1 then refillBucket b1 config wake else b1 in
  let b3 := {| tokens := (tokens b2 - 1)%Q; lastRefill := lastRefill b2 |} in
  (Ok tt, w, {| buckets := <[endpoint := b3]> (buckets rl1);
                defaultConfig := defaultConfig rl1;
                endpointLimits := endpointLimits rl1 |}).

(** [reset()] *)
Definition reset (rl : t) : t :=
  {| buckets := ∅; defaultConfig := defaultConfig rl;
     endpointLimits := endpointLimits rl |}.

(** Calls of [checkLimit] one after the other. *)
Fixpoint checkAll (rl : t) (calls : list (string * Z * Z)) : t :=
  match calls with
  | [] => rl
  | (endpoint, now, wake) :: rest =>
      checkAll (snd (checkLimit rl endpoint now wake)) rest
  end.

End ClientRateLimiter.


(** ** Key patterns *)

(** A pattern is read character by character; [*] is the only character
    that the two matchers below treat specially.  The embedding covers
    patterns whose other characters are plain in both syntaxes (letters,
    digits, [:], [/], [_], [-]), which is the case of every pattern the
    repository uses. *)
Module Pattern.

Inductive Tok := Lit (c : ascii) | Star.

Fixpoint parse (s : string) : list Tok :=
  match s with
  | EmptyString => []
  | String c s' =>
      (if Ascii.eqb c "*"%char then Star else Lit c) :: parse s'
  end.

(** *** Redis glob ([KEYS pattern]): the whole key must match. *)
Fixpoint glob (p : list Tok) : string -> bool :=
  match p with
  | [] => fun s => String.eqb s ""
  | Lit c :: p' =>
      fun s =>
        match s with
        | EmptyString => false
        | String c' s' => Ascii.eqb c c' && glob p' s'
        end
  | Star :: p' =>
      fix star (s : string) : bool :=
        glob p' s ||
        match s with
        | EmptyString => false
        | String _ s' => star s'
        end
  end.

(** *** [new RegExp(pattern.replace('*', '.*')).test(key)] *)

(** [String.prototype.replace] with a string pattern replaces the first
    occurrence only.  The regular expression that results has three kinds
    of item: a character, [.] and an item followed by the quantifier [*]. *)
Inductive Atom := AChar (c : ascii) | AAny.

Record Item := { atom : Atom; starred : bool }.

(** The text after the first [*]: a later [*] is a quantifier on the item
    before it; two quantifiers in a row do not compile. *)
Fixpoint compileRest (prev : option Item) (p : list Tok)
  : option (list Item) :=
  match p with
  | [] =>
      match prev with
      | Some i => Some [i]
      | None => Some []
      end
  | Lit c :: p' =>
      match compileRest (Some {| atom := AChar c; starred := false |}) p' with
      | Some r =>
          Some (match prev with Some i => i :: r | None => r end)
      | None => None
      end
  | Star :: p' =>
      match prev with
      | Some {| atom := a; starred := false |} =>
          compileRest (Some {| atom := a; starred := true |}) p'
      | _ => None
      end
  end.

(** Up to the first [*], which becomes [.*]. *)
Fixpoint compile (p : list Tok) : option (list Item) :=
  match p with
  | [] => Some []
  | Lit c :: p' =>
      match compile p' with
      | Some r => Some ({| atom := AChar c; starred := false |} :: r)
      | None => None
      end
  | Star :: p' => compileRest (Some {| atom := AAny; starred := true |}) p'
  end.

Definition atomOk (a : Atom) (c : ascii) : bool :=
  match a with
  | AChar c' => Ascii.eqb c' c
  | AAny => negb (Ascii.eqb c "010"%char) && negb (Ascii.eqb c "013"%char)
  end.

(** A match of the expression that starts at the head of [s]. *)
Fixpoint matchHere (r : list Item) : string -> bool :=
  match r with
  | [] => fun _ => true
  | {| atom := a; starred := false |} :: r' =>
      fun s =>
        match s with
        | EmptyString => false
        | String c s' => atomOk a c && matchHere r' s'
        end
  | {| atom := a; starred := true |} :: r' =>
      fix star (s : string) : bool :=
        matchHere r' s ||
        match s with
        | EmptyString => false
        | String c s' => atomOk a c && star s'
        end
  end.

(** [RegExp.prototype.test]: a match that starts anywhere in the key. *)
Fixpoint test (r : list Item) (s : string) : bool :=
  matchHere r s ||
  match s with
  | EmptyString => false
  | String _ s' => test r s'
  end.

(** A text without [*]. *)
Fixpoint noStar (s : string) : bool :=
  match s with
  | EmptyString => true
  | String c s' => negb (Ascii.eqb c "*"%char) && noStar s'
  end.

(** The characters that stand for themselves both in a regular
    expression and in a glob of Redis: the ASCII characters other than
    the fourteen that [RegExp] reads as syntax (among them the four,
    [*], [?], [[] and the backslash, that the glob reads as syntax). *)
Definition plainChar (c : ascii) : bool :=
  (nat_of_ascii c <? 128)%nat &&
  negb (existsb (Ascii.eqb c) (String.list_ascii_of_string "\^$.*+?()[]{}|")).

Fixpoint plain (s : string) : bool :=
  match s with
  | EmptyString => true
  | String c s' => plainChar c && plain s'
  end.

End Pattern.

(** ** Redis, as the cache manager uses it

    The commands follow the Redis manual: [GET] of an expired key is
    nil, [SETEX] wants a positive number of seconds, [KEYS] matches the
    whole key against a glob.  The value stored is the JSON text of the
    payload; [JSON.parse (JSON.stringify v)] is [v] for the payloads of
    [Json], so the store is modelled as holding the payload. *)
Module Redis.

Record Entry := { value : Json; expireAt : Z }.

Definition get (db : gmap string Entry) (now : Z) (key : string) : option Json :=
  match db !! key with
  | Some e => if now <? expireAt e then Some (value e) else None
  | None => None
  end.

Definition setex (db : gmap string Entry) (now : Z) (key : string)
    (seconds : Z) (v : Json) : Result (gmap string Entry) :=
  if seconds <=? 0
  then Throw (JsError "ERR invalid expire time in 'setex' command")
  else Ok (<[key := {| value := v; expireAt := now + seconds * 1000 |}]> db).

Definition del (db : gmap string Entry) (ks : list string) : gmap string Entry :=
  foldr delete db ks.

Definition keys (db : gmap string Entry) (now : Z) (pattern : string)
  : list string :=
  List.filter (Pattern.glob (Pattern.parse pattern))
    (List.map fst
       (List.filter (fun kv => now <? expireAt (snd kv)) (map_to_list db))).

Definition flushdb (db : gmap string Entry) : gmap string Entry := ∅.

End Redis.

(** ** Cache manager ([src/cache/cache-manager.ts]) *)

Module CacheManager.

Record CacheConfig := {
  defaultTTL : Z;
  enableL1 : bool;
  enableL2 : bool;
}.

Record CachedValue := { data : Json; expiresAt : Z }.

Record t := {
  config : CacheConfig;
  l1Cache : gmap string CachedValue;
  redis : gmap string Redis.Entry;
}.

Definition new (config : CacheConfig) : t :=
  {| config := config; l1Cache := ∅; redis := ∅ |}.

Definition with_l1 (c : t) (l1 : gmap string CachedValue) : t :=
  {| config := config c; l1Cache := l1; redis := redis c |}.

Definition with_redis (c : t) (db : gmap string Redis.Entry) : t :=
  {| config := config c; l1Cache := l1Cache c; redis := db |}.

(** The first half of [get]: the value of the local tier, if it holds
    one that has not expired at [now]. *)
Definition l1Hit (c : t) (key : string) (now : Z) : option Json :=
  if enableL1 (config c) then
    match l1Cache c !! key with
    | Some l1Value =>
        if now <? expiresAt l1Value then Some (data l1Value) else None
    | None => None
    end
  else None.

(** [get(key)]: [now] is the clock at the test of the local tier, [now2]
    the clock when Redis has answered.  [JNull] is the miss. *)
Definition get (c : t) (key : string) (now now2 : Z) : Json * t :=
  match l1Hit c key now with
  | Some v => (v, c)
  | None =>
      if enableL2 (config c) then
        match Redis.get (redis c) now2 key with
        | Some v =>
            (v, if enableL1 (config c)
                then with_l1 c (<[key := {| data := v; expiresAt := now2 + 60000 |}]>
                                  (l1Cache c))
                else c)
        | None => (JNull, c)
        end
      else (JNull, c)
  end.

(** [ttl || this.config.defaultTTL] *)
Definition actualTTL (c : t) (ttl : option Z) : Z :=
  match ttl with
  | Some n => if n =? 0 then defaultTTL (config c) else n
  | None => defaultTTL (config c)
  end.

(** [set(key, value, ttl)]: [now] is the clock at the write of the local
    tier, [now2] the clock when Redis runs [SETEX]. *)
Definition set (c : t) (key : string) (v : Json) (ttl : option Z)
    (now now2 : Z) : Result unit * t :=
  let n := actualTTL c ttl in
  let c1 :=
    if enableL1 (config c)
    then with_l1 c (<[key := {| data := v; expiresAt := now + Z.min n 60000 |}]>
                      (l1Cache c))
    else c in
  if enableL2 (config c) then
    match Redis.setex (redis c1) now2 key n v with
    | Ok db => (Ok tt, with_redis c1 db)
    | Throw e => (Throw e, c1)
    end
  else (Ok tt, c1).

Definition delete (c : t) (key : string) : t :=
  let c1 := with_l1 c (base.delete key (l1Cache c)) in
  if enableL2 (config c) then with_redis c1 (Redis.del (redis c1) [key])
  else c1.

Definition matchesPattern (key pattern : string) : Result bool :=
  match Pattern.compile (Pattern.parse pattern) with
  | Some regex => Ok (Pattern.test regex key)
  | None => Throw (JsError "Invalid regular expression: Nothing to repeat")
  end.

(** [clear(pattern)]; a pattern that is absent or empty clears all.
    The loop over the keys of the local tier calls [matchesPattern] for
    each key; the expression it builds is the same for every key, so it
    throws at the first key or at none, after Redis has been cleared. *)
Definition clear (c : t) (pattern : option string) (now : Z) : Result unit * t :=
  match pattern with
  | Some (String ch rest as p) =>
      let c1 :=
        if enableL2 (config c)
        then with_redis c (Redis.del (redis c) (Redis.keys (redis c) now p))
        else c in
      match Pattern.compile (Pattern.parse p) with
      | Some regex =>
          (Ok tt,
           with_l1 c1 (filter (fun kv => Pattern.test regex (fst kv) = false)
                         (l1Cache c1)))
      | None =>
          if decide (l1Cache c1 = ∅) then (Ok tt, c1)
          else (Throw (JsError "Invalid regular expression: Nothing to repeat"), c1)
      end
  | _ =>
      let c1 := with_l1 c ∅ in
      (Ok tt, if enableL2 (config c) then with_redis c1 (Redis.flushdb (redis c1))
              else c1)
  end.

Definition cleanupL1 (c : t) (now : Z) : t :=
  with_l1 c (filter (fun kv => now < expiresAt (snd kv)) (l1Cache c)).

End CacheManager.

(** ** Cache invalidation ([src/cache/cache-invalidation.ts]) *)

Module CacheInvalidationManager.

Inductive CacheEvent :=
| order_filled (symbol : string)
| deposit
| withdrawal
| market_close.

Definition invalidateAfterOrder (c : CacheManager.t) (symbol : string)
  : CacheManager.t :=
  CacheManager.delete
    (CacheManager.delete
       (CacheManager.delete
          (CacheManager.delete c "positions:*") "portfolio:*") "orders:*")
    "balance:*".

Definition invalidateAfterTransfer (c : CacheManager.t) : CacheManager.t :=
  CacheManager.delete
    (CacheManager.delete
       (CacheManager.delete c "balance:*") "portfolio:*")
    "account:*".

Definition invalidateOnEvent (c : CacheManager.t) (event : CacheEvent)
  : CacheManager.t :=
  match event with
  | order_filled symbol => invalidateAfterOrder c symbol
  | deposit | withdrawal => invalidateAfterTransfer c
  | market_close => c
  end.

End CacheInvalidationManager.


(** ** Strings and numbers of JavaScript *)

(** [s.replace(pat, rep)] with a string pattern: the first occurrence. *)
Fixpoint replaceFirst (pat rep s : string) : string :=
  if String.prefix pat s
  then rep ++ String.substring (String.length pat) (String.length s) s
  else match s with
       | EmptyString => EmptyString
       | String c s' => String c (replaceFirst pat rep s')
       end.

(** The number [parseFloat] returns. *)
Inductive JsFloat : Type :=
| NaN
| Val (q : Q)
| Infinite (negative : bool).

Definition isDigit (c : ascii) : bool :=
  let n := nat_of_ascii c in (48 <=? n)%nat && (n <=? 57)%nat.

Definition digitVal (c : ascii) : Z := Z.of_nat (nat_of_ascii c) - 48.

Definition isSpace (c : ascii) : bool :=
  let n := nat_of_ascii c in
  ((9 <=? n)%nat && (n <=? 13)%nat) || (n =? 32)%nat.

Fixpoint trimStart (s : string) : string :=
  match s with
  | String c s' => if isSpace c then trimStart s' else s
  | EmptyString => s
  end.

(** The digits at the head of [s]: their value after [acc], how many
    there are, and what follows. *)
Fixpoint takeDigits (s : string) (acc : Z) (n : nat) : Z * nat * string :=
  match s with
  | String c s' =>
      if isDigit c then takeDigits s' (acc * 10 + digitVal c) (S n)
      else (acc, n, s)
  | EmptyString => (acc, n, s)
  end.

(** The exponent part [e[+-]digits] at the head of [s], or 0. *)
Definition takeExponent (s : string) : Z :=
  match s with
  | String c s' =>
      if Ascii.eqb c "e"%char || Ascii.eqb c "E"%char then
        match s' with
        | String sg s'' =>
            if Ascii.eqb sg "-"%char then
              let '(e, n, _) := takeDigits s'' 0 O in
              if (n =? 0)%nat then 0 else - e
            else if Ascii.eqb sg "+"%char then
              let '(e, n, _) := takeDigits s'' 0 O in e
            else
              let '(e, n, _) := takeDigits s' 0 O in e
        | EmptyString => 0
        end
      else 0
  | EmptyString => 0
  end.

(** [StrUnsignedDecimalLiteral]: the longest prefix that is one. *)
Definition parseUnsigned (s : string) : JsFloat :=
  if String.prefix "Infinity" s then Infinite false
  else
    let '(ip, ni, r1) := takeDigits s 0 O in
    match r1 with
    | String c r2 =>
        if Ascii.eqb c "."%char then
          let '(fp, nf, r3) := takeDigits r2 0 O in
          if (ni =? 0)%nat && (nf =? 0)%nat then NaN
          else
            Val ((inject_Z ip + inject_Z fp / inject_Z (10 ^ Z.of_nat nf))
                 * Qpower 10 (takeExponent r3))%Q
        else if (ni =? 0)%nat then NaN
        else Val (inject_Z ip * Qpower 10 (takeExponent r1))%Q
    | EmptyString => if (ni =? 0)%nat then NaN else Val (inject_Z ip)
    end.

Definition negate (x : JsFloat) : JsFloat :=
  match x with
  | NaN => NaN
  | Val q => Val (- q)%Q
  | Infinite b => Infinite (negb b)
  end.

(** [parseFloat(s)]: leading white space is skipped (the ASCII part of
    it), then the longest prefix that is a decimal literal is read;
    the value is exact. *)
Definition parseFloat (s : string) : JsFloat :=
  match trimStart s with
  | String c s' =>
      if Ascii.eqb c "-"%char then negate (parseUnsigned s')
      else if Ascii.eqb c "+"%char then parseUnsigned s'
      else parseUnsigned (String c s')
  | EmptyString => NaN
  end.

(** [x <= 0] *)
Definition leZero (x : JsFloat) : bool :=
  match x with
  | NaN => false
  | Val q => Qle_bool q 0
  | Infinite negative => negative
  end.

(** [!s] for an optional string field. *)
Definition missing (s : option string) : bool :=
  match s with
  | None => true
  | Some s' => String.eqb s' ""
  end.

(** ** Authentication manager ([src/client/auth-manager.ts]) *)

Module AuthManager.

Record AuthToken := {
  access_token : string;
  refresh_token : option string;
  expires_in : Z;
  token_type : string;
  expires_at : option Z;
}.

(** [tokenRefreshPromise], when it is not null, is the promise of a
    refresh in flight: it is kept by the way it settles. *)
Record t := {
  currentToken : option AuthToken;
  tokenRefreshPromise : option (Result AuthToken);
}.

Definition bearer (token : string) (now : Z) : AuthToken :=
  {| access_token := replaceFirst "Bearer " "" token;
     refresh_token := None;
     expires_in := 86400;
     token_type := "Bearer";
     expires_at := Some (now + 86400 * 1000) |}.

Definition new (initialToken : option string) (now : Z) : t :=
  {| currentToken :=
       if missing initialToken then None
       else option_map (fun s => bearer s now) initialToken;
     tokenRefreshPromise := None |}.

Definition performTokenRefresh : Result AuthToken :=
  Throw (JsError "Token refresh not implemented - using manual token from .env").

Definition hasRefreshToken (am : t) : bool :=
  match currentToken am with
  | Some tok => negb (missing (refresh_token tok))
  | None => false
  end.

Definition refreshToken (am : t) : Result string * t :=
  match tokenRefreshPromise am with
  | Some (Ok token) => (Ok (access_token token), am)
  | Some (Throw e) => (Throw e, am)
  | None =>
      if negb (hasRefreshToken am)
      then (Throw (JsError "No refresh token available"), am)
      else
        match performTokenRefresh with
        | Ok newToken =>
            (Ok (access_token newToken),
             {| currentToken := Some newToken; tokenRefreshPromise := None |})
        | Throw e =>
            (Throw e,
             {| currentToken := currentToken am; tokenRefreshPromise := None |})
        end
  end.

Definition isTokenExpired (token : AuthToken) (bufferSeconds now : Z) : bool :=
  match expires_at token with
  | None => false
  | Some at_ =>
      if at_ =? 0 then false else at_ - bufferSeconds * 1000 <=? now
  end.

(** [getToken()]: [Ok None] is the [null] returned without a token. *)
Definition getToken (am : t) (now : Z) : Result (option string) * t :=
  match currentToken am with
  | None => (Ok None, am)
  | Some tok =>
      if isTokenExpired tok 300 now then
        match refreshToken am with
        | (Ok s, am') => (Ok (Some s), am')
        | (Throw e, am') => (Throw e, am')
        end
      else (Ok (Some (access_token tok)), am)
  end.

(** [setToken(token)] with a string, and with a token object. *)
Definition setTokenString (am : t) (token : string) (now : Z) : t :=
  {| currentToken := Some (bearer token now);
     tokenRefreshPromise := tokenRefreshPromise am |}.

Definition setToken (am : t) (token : AuthToken) (now : Z) : t :=
  {| currentToken :=
       Some {| access_token := access_token token;
               refresh_token := refresh_token token;
               expires_in := expires_in token;
               token_type := token_type token;
               expires_at := Some (now + expires_in token * 1000) |};
     tokenRefreshPromise := tokenRefreshPromise am |}.

Definition clearToken (am : t) : t :=
  {| currentToken := None; tokenRefreshPromise := tokenRefreshPromise am |}.

End AuthManager.

(** ** API client ([src/client/api-client.ts]) *)

Module ApiClient.

(** [error.response.data] *)
Definition responseData (resp : Response) : Json := data resp.

Record CachedResponse := { data : Json; expiresAt : Z }.

(** [getFromCache(key)]: the value and the cache, from which an entry
    that is absent or expired is deleted. *)
Definition getFromCache (cache : gmap string CachedResponse) (key : string)
    (now : Z) : Json * gmap string CachedResponse :=
  match cache !! key with
  | Some cached =>
      if now <? expiresAt cached then (data cached, cache)
      else (JNull, delete key cache)
  | None => (JNull, delete key cache)
  end.

Definition setCache (cache : gmap string CachedResponse) (key : string)
    (d : Json) (ttl now : Z) : gmap string CachedResponse :=
  <[key := {| data := d; expiresAt := now + ttl * 1000 |}]> cache.

Section ErrorHandling.
(** [handleError] and [retryWithBackoff] call back into the axios
    instance and sleep: [axios_request config] is
    [this.axios.request(config)], which runs the interceptors again,
    and [sleep ms] is [this.sleep(ms)].  Both act on a world [W]. *)
Context {W : Type}.
Variable axios_request :
  Request -> AuthManager.t -> W -> Result Response * AuthManager.t * W.
Variable sleep : Z -> W -> W.

Definition maxRetriesExceeded : Error := ApiError "Max retries exceeded" 0 JNull.

(** The calls of [retryWithBackoff] that remain, [n] of them, from
    [attempt] on. *)
Fixpoint retryLoop (n : nat) (config : Request) (attempt : Z)
    (am : AuthManager.t) (w : W) : Result Response * AuthManager.t * W :=
  match n with
  | O => (Throw maxRetriesExceeded, am, w)
  | S n' =>
      let delay := 2 ^ attempt * 1000 in
      match axios_request config am (sleep delay w) with
      | (Ok r, am', w') => (Ok r, am', w')
      | (Throw _, am', w') => retryLoop n' config (attempt + 1) am' w'
      end
  end.

Definition retryWithBackoff (config : Request) (attempt maxRetries : Z)
    (am : AuthManager.t) (w : W) : Result Response * AuthManager.t * W :=
  retryLoop (Z.to_nat (maxRetries + 1 - attempt)) config attempt am w.

Definition apiError (resp : Response) : Error :=
  ApiError ("API Error: " ++ pretty.pretty (status resp)) (status resp) (responseData resp).

Definition isServerError (st : Z) : bool :=
  (st =? 500) || (st =? 502) || (st =? 503) || (st =? 504).

(** [retryAfter] is [parseInt(headers['retry-after'] || '60')]; the
    calls of the logger are left out. *)
Definition handleError (error : Error) (am : AuthManager.t) (w : W)
  : Result Response * AuthManager.t * W :=
  match error with
  | AxiosError (Some resp) config =>
      if status resp =? 401 then
        match AuthManager.refreshToken am with
        | (Throw e, am') => (Throw e, am', w)
        | (Ok _, am') => axios_request config am' w
        end
      else if status resp =? 429 then
        let retryAfter := default 60 (retryAfter resp) in
        axios_request config am (sleep (retryAfter * 1000) w)
      else if isServerError (status resp) then
        retryWithBackoff config 1 3 am w
      else (Throw (apiError resp), am, w)
  | _ => (Throw error, am, w)
  end.

End ErrorHandling.

Section Interceptors.
(** [this.axios.request(config)] with its interceptors.  [send config]
    is what comes before the response interceptor: the request
    interceptor (the rate limiter and the token) and the exchange with
    the server; it throws the error that axios rejects with.  The
    response interceptor hands that error to [handleError], which calls
    [this.axios.request] again, so that the two are defined together.
    [fuel] bounds the nesting of these calls; [None] is a call that has
    not settled when the fuel runs out, with the manager and the world
    it has reached. *)
Context {W : Type}.
Variable send :
  Request -> AuthManager.t -> W -> Result Response * AuthManager.t * W.
Variable sleep : Z -> W -> W.

Fixpoint retryLoopIn
    (request : Request -> AuthManager.t -> W
               -> option (Result Response) * AuthManager.t * W)
    (n : nat) (config : Request) (attempt : Z) (am : AuthManager.t) (w : W)
  : option (Result Response) * AuthManager.t * W :=
  match n with
  | O => (Some (Throw maxRetriesExceeded), am, w)
  | S n' =>
      let delay := 2 ^ attempt * 1000 in
      match request config am (sleep delay w) with
      | (Some (Ok r), am', w') => (Some (Ok r), am', w')
      | (Some (Throw _), am', w') =>
          retryLoopIn request n' config (attempt + 1) am' w'
      | (None, am', w') => (None, am', w')
      end
  end.

Definition retryWithBackoffIn
    (request : Request -> AuthManager.t -> W
               -> option (Result Response) * AuthManager.t * W)
    (config : Request) (attempt maxRetries : Z) (am : AuthManager.t) (w : W)
  : option (Result Response) * AuthManager.t * W :=
  retryLoopIn request (Z.to_nat (maxRetries + 1 - attempt)) config attempt am w.

Definition handleErrorIn
    (request : Request -> AuthManager.t -> W
               -> option (Result Response) * AuthManager.t * W)
    (error : Error) (am : AuthManager.t) (w : W)
  : option (Result Response) * AuthManager.t * W :=
  match error with
  | AxiosError (Some resp) config =>
      if status resp =? 401 then
        match AuthManager.refreshToken am with
        | (Throw e, am') => (Some (Throw e), am', w)
        | (Ok _, am') => request config am' w
        end
      else if status resp =? 429 then
        let retryAfter := default 60 (retryAfter resp) in
        request config am (sleep (retryAfter * 1000) w)
      else if isServerError (status resp) then
        retryWithBackoffIn request config 1 3 am w
      else (Some (Throw (apiError resp)), am, w)
  | _ => (Some (Throw error), am, w)
  end.

Fixpoint request (fuel : nat) (config : Request) (am : AuthManager.t) (w : W)
  : option (Result Response) * AuthManager.t * W :=
  match fuel with
  | O => (None, am, w)
  | S fuel' =>
      match send config am w with
      | (Ok r, am', w') => (Some (Ok r), am', w')
      | (Throw error, am', w') => handleErrorIn (request fuel') error am' w'
      end
  end.

End Interceptors.

(** [if (cacheTTL)] for the optional number of seconds. *)
Definition hasTTL (cacheTTL : option Z) : bool :=
  match cacheTTL with
  | Some n => negb (n =? 0)
  | None => false
  end.

Definition clearCache (cache : gmap string CachedResponse)
  : gmap string CachedResponse := ∅.

Section Get.
(** [axios_get url config] is [this.axios.get(url, config)], acting on
    a world [W]; [config] carries the query parameters.  [now] is the
    clock read by [getFromCache], [now2] the one read by [setCache]
    once the response is there. *)
Context {W : Type}.
Variable axios_get : string -> Json -> W -> Result Response * W.

Definition get (cache : gmap string CachedResponse) (url : string)
    (config : Json) (cacheTTL : option Z) (now now2 : Z) (w : W)
  : Result Json * gmap string CachedResponse * W :=
  let '(cached, cache1) :=
    if hasTTL cacheTTL then getFromCache cache url now else (JNull, cache) in
  if hasTTL cacheTTL && truthy cached then (Ok cached, cache1, w)
  else
    match axios_get url config w with
    | (Throw e, w') => (Throw e, cache1, w')
    | (Ok response, w') =>
        (Ok (responseData response),
         if hasTTL cacheTTL
         then setCache cache1 url (responseData response)
                (default 0 cacheTTL) now2
         else cache1,
         w')
    end.
End Get.

(** [PaginatedResponse<T>] *)
Record PaginatedResponse := { results : list Json; next : option string }.

Section Paginated.
(** [get_page url] is [this.get<PaginatedResponse<T>>(url, config)],
    called without a TTL.  [getPaginated] is an asynchronous generator:
    the pages it yields, how it ends ([None] when the loop is still
    running after [fuel] requests), and the world. *)
Context {W : Type}.
Variable get_page : string -> W -> Result PaginatedResponse * W.

Fixpoint getPaginated (fuel : nat) (nextUrl : option string) (w : W)
  : list (list Json) * option (Result unit) * W :=
  if missing nextUrl then ([], Some (Ok tt), w)
  else
    match fuel with
    | O => ([], None, w)
    | S fuel' =>
        match get_page (default "" nextUrl) w with
        | (Throw e, w') => ([], Some (Throw e), w')
        | (Ok response, w') =>
            let '(pages, r, w'') := getPaginated fuel' (next response) w' in
            (results response :: pages, r, w'')
        end
    end.
End Paginated.

End ApiClient.

(** ** Trading service ([src/services/trading.service.ts]) *)

Module TradingService.

Inductive OrderType := market | limit | stop_loss | stop_limit.
Inductive OrderSide := buy | sell.

Record OrderRequest := {
  account : string;
  instrument : string;
  symbol : string;
  type : OrderType;
  time_in_force : string;
  side : OrderSide;
  quantity : string;
  price : option string;
  stop_price : option string;
}.

Definition validateOrder (order : OrderRequest) : Result unit :=
  if String.eqb (symbol order) "" then Throw (JsError "Symbol is required")
  else if String.eqb (quantity order) "" || leZero (parseFloat (quantity order))
  then Throw (JsError "Quantity must be positive")
  else if match type order with limit => missing (price order) | _ => false end
  then Throw (JsError "Limit orders require a price")
  else if match type order with stop_loss => missing (stop_price order) | _ => false end
  then Throw (JsError "Stop loss orders require a stop price")
  else Ok tt.

Definition typeName (t : OrderType) : string :=
  match t with
  | market => "market" | limit => "limit"
  | stop_loss => "stop_loss" | stop_limit => "stop_limit"
  end.

Definition sideName (s : OrderSide) : string :=
  match s with buy => "buy" | sell => "sell" end.

Definition optField (name : string) (v : option string) : list (string * Json) :=
  match v with Some s => [(name, JStr s)] | None => [] end.

(** The request as the JSON body of the POST. *)
Definition toJson (order : OrderRequest) : Json :=
  JObj ([ ("account", JStr (account order));
          ("instrument", JStr (instrument order));
          ("symbol", JStr (symbol order));
          ("type", JStr (typeName (type order)));
          ("time_in_force", JStr (time_in_force order));
          ("side", JStr (sideName (side order)));
          ("quantity", JStr (quantity order)) ]
        ++ optField "price" (price order)
        ++ optField "stop_price" (stop_price order)).

Section WithClient.
(** [post url data] is [this.client.post(url, data)]; it acts on a world
    [W] (the network and the state of the client). *)
Context {W : Type}.
Variable post : string -> Json -> W -> Result Json * W.

Definition placeOrder (request : OrderRequest) (w : W) : Result Json * W :=
  match validateOrder request with
  | Throw e => (Throw e, w)
  | Ok _ => post "/orders/" (toJson request) w
  end.

End WithClient.

Section Orders.
(** The loop of [getOrders]: the pages of [getPaginated(url)] are
    appended to [orders] in turn; an error of the generator is thrown
    out of the loop.  [url] is [/orders/?] followed by the query string
    of the filters. *)
Context {W : Type}.
Variable get_page : string -> W -> Result ApiClient.PaginatedResponse * W.

Definition getOrdersFrom (fuel : nat) (url : string) (w : W)
  : option (Result (list Json) * W) :=
  match ApiClient.getPaginated get_page fuel (Some url) w with
  | (pages, Some (Ok _), w') => Some (Ok (concat pages), w')
  | (_, Some (Throw e), w') => Some (Throw e, w')
  | (_, None, _) => None
  end.
End Orders.

End TradingService.


(** ** API client with cache, rate limiter and circuit breaker
    (the [ApiClient] of the caching and rate-limiting document) *)

Module ResilientApiClient.

Record t := {
  cache : CacheManager.t;
  rateLimiter : RateLimiter.t;
  circuitBreaker : CircuitBreaker.t;
}.

(** [params] is [JSON.stringify(config.params)], or the empty string
    when the configuration has no parameters. *)
Definition getCacheKey (method url params : string) : string :=
  method ++ ":" ++ url ++ ":" ++ params.

(** [if (cacheTTL)] *)
Definition caching (cacheTTL : option Z) : bool :=
  match cacheTTL with
  | Some n => negb (n =? 0)
  | None => false
  end.

(** [get] awaits four times.  Between two awaits it runs without
    interruption; the pieces are the following. *)

(** Up to [if (cached) return cached]: the cached value when it is
    truthy. *)
Definition lookup (cl : t) (url params : string) (cacheTTL : option Z)
    (now now2 : Z) : option Json * t :=
  if caching cacheTTL then
    let '(cached, c') :=
      CacheManager.get (cache cl) (getCacheKey "GET" url params) now now2 in
    (if truthy cached then Some cached else None,
     {| cache := c'; rateLimiter := rateLimiter cl;
        circuitBreaker := circuitBreaker cl |})
  else (None, cl).

(** [await this.rateLimiter.checkLimit(url)] *)
Definition acquire (cl : t) (url : string) (c1 c2 : RateLimiter.Clock)
  : Result unit * t :=
  let '(r, _, rl') := RateLimiter.checkLimit (rateLimiter cl) url c1 c2 in
  (r, {| cache := cache cl; rateLimiter := rl';
         circuitBreaker := circuitBreaker cl |}).

(** The start of [circuitBreaker.execute]: the test of the state, then
    [this.axios.get(url, config)] is issued.  [None] is the breaker-open
    error. *)
Definition call (cl : t) (now : Z) : option t :=
  match CircuitBreaker.gate (circuitBreaker cl) now with
  | Some cb' =>
      Some {| cache := cache cl; rateLimiter := rateLimiter cl;
              circuitBreaker := cb' |}
  | None => None
  end.

(** The response, or the error, of the transport has arrived. *)
Definition settle (cl : t) (url params : string) (cacheTTL : option Z)
    (reply : Result Response) (now now2 : Z) : Result Json * t :=
  match reply with
  | Throw e =>
      (Throw e,
       {| cache := cache cl; rateLimiter := rateLimiter cl;
          circuitBreaker := CircuitBreaker.onFailure (circuitBreaker cl) now |})
  | Ok response =>
      let cb' := CircuitBreaker.onSuccess (circuitBreaker cl) in
      if caching cacheTTL then
        let '(r, c') :=
          CacheManager.set (cache cl) (getCacheKey "GET" url params)
            (data response) cacheTTL now now2 in
        (match r with Ok _ => Ok (data response) | Throw e => Throw e end,
         {| cache := c'; rateLimiter := rateLimiter cl; circuitBreaker := cb' |})
      else
        (Ok (data response),
         {| cache := cache cl; rateLimiter := rateLimiter cl;
            circuitBreaker := cb' |})
  end.

Definition getRequest (url params : string) : Request :=
  {| method := "GET"; url := url; body := JStr params |}.

(** *** Callers that overlap

    Each caller of [get] is a task that is at one of its awaits; the
    client and the transport are shared.  An event resumes one task and
    runs it to its next await, with the clock readings of the piece; the
    event that settles a task carries the answer of the transport. *)

Inductive Pc :=
| AtLookup
| AtAcquire
| AtCall
| InFlight
| Returned (r : Result Json).

Record Task := {
  t_url : string;
  t_params : string;
  t_cacheTTL : option Z;
  pc : Pc;
}.

Definition at_pc (tk : Task) (p : Pc) : Task :=
  {| t_url := t_url tk; t_params := t_params tk;
     t_cacheTTL := t_cacheTTL tk; pc := p |}.

Record System := {
  client : t;
  tasks : list Task;
  upstream : list Request;    (* the calls made to the transport *)
}.

Inductive Event :=
| Lookup (i : nat) (now now2 : Z)
| Acquire (i : nat) (c1 c2 : RateLimiter.Clock)
| Call (i : nat) (now : Z)
| Settle (i : nat) (reply : Result Response) (now now2 : Z).

Definition task_of (ev : Event) : nat :=
  match ev with
  | Lookup i _ _ | Acquire i _ _ | Call i _ | Settle i _ _ _ => i
  end.

Definition resume (s : System) (tk : Task) (ev : Event)
  : t * Pc * list Request :=
  match ev, pc tk with
  | Lookup _ now now2, AtLookup =>
      match lookup (client s) (t_url tk) (t_params tk) (t_cacheTTL tk) now now2 with
      | (Some cached, cl') => (cl', Returned (Ok cached), [])
      | (None, cl') => (cl', AtAcquire, [])
      end
  | Acquire _ c1 c2, AtAcquire =>
      match acquire (client s) (t_url tk) c1 c2 with
      | (Ok _, cl') => (cl', AtCall, [])
      | (Throw e, cl') => (cl', Returned (Throw e), [])
      end
  | Call _ now, AtCall =>
      match call (client s) now with
      | Some cl' => (cl', InFlight, [getRequest (t_url tk) (t_params tk)])
      | None => (client s, Returned (Throw CircuitBreaker.breaker_open_error), [])
      end
  | Settle _ reply now now2, InFlight =>
      let '(r, cl') :=
        settle (client s) (t_url tk) (t_params tk) (t_cacheTTL tk) reply now now2 in
      (cl', Returned r, [])
  | _, p => (client s, p, [])
  end.

Definition step (s : System) (ev : Event) : System :=
  match tasks s !! task_of ev with
  | None => s
  | Some tk =>
      let '(cl', p, sent) := resume s tk ev in
      {| client := cl';
         tasks := <[task_of ev := at_pc tk p]> (tasks s);
         upstream := upstream s ++ sent |}
  end.

Definition run (s : System) (evs : list Event) : System :=
  fold_left step evs s.

(** One caller alone, from the call of [get] to its return: the four
    pieces in a row, with the answer the transport gives if it is
    asked. *)
Record Times := {
  tLookup : Z; tLookup2 : Z;
  tAcquire1 : RateLimiter.Clock; tAcquire2 : RateLimiter.Clock;
  tCall : Z;
  tSettle : Z; tSettle2 : Z;
}.

Definition get (cl : t) (url params : string) (cacheTTL : option Z)
    (reply : Result Response) (tm : Times) : System :=
  run {| client := cl;
         tasks := [ {| t_url := url; t_params := params;
                       t_cacheTTL := cacheTTL; pc := AtLookup |} ];
         upstream := [] |}
      [ Lookup 0 (tLookup tm) (tLookup2 tm);
        Acquire 0 (tAcquire1 tm) (tAcquire2 tm);
        Call 0 (tCall tm);
        Settle 0 reply (tSettle tm) (tSettle2 tm) ].

End ResilientApiClient.


(** ** Sliding-window limiter on Redis
    ([src/rate-limit/distributed-rate-limiter.ts]) *)

Module DistributedRateLimiter.

(** A sorted set of Redis: its members with their scores, in the order
    in which they were added, and the time at which the key expires. *)
Record Key := {
  members : list (string * Z);
  expireAt : option Z;
}.

Definition t := gmap string Key.

Definition expired (k : Key) (at_ : Z) : bool :=
  match expireAt k with
  | Some e => e <=? at_
  | None => false
  end.

(** The key as Redis sees it at time [at_]. *)
Definition live (db : t) (key : string) (at_ : Z) : option Key :=
  match db !! key with
  | Some k => if expired k at_ then None else Some k
  | None => None
  end.

(** [ZREMRANGEBYSCORE key min max]; a set left empty is removed. *)
Definition zremrangebyscore (k : option Key) (min max : Z) : option Key :=
  match k with
  | Some k0 =>
      match List.filter
              (fun m => negb ((min <=? snd m) && (snd m <=? max)))
              (members k0) with
      | [] => None
      | ms => Some {| members := ms; expireAt := expireAt k0 |}
      end
  | None => None
  end.

(** [ZCARD key] *)
Definition zcard (k : option Key) : Z :=
  match k with
  | Some k0 => Z.of_nat (length (members k0))
  | None => 0
  end.

Definition has_member (member : string) (ms : list (string * Z)) : bool :=
  existsb (fun m => String.eqb (fst m) member) ms.

(** [ZADD key score member]: a member already in the set gets the new
    score. *)
Definition zadd (k : option Key) (score : Z) (member : string) : Key :=
  match k with
  | Some k0 =>
      {| members :=
           if has_member member (members k0)
           then map (fun m => if String.eqb (fst m) member
                              then (member, score) else m) (members k0)
           else (members k0 ++ [(member, score)])%list;
         expireAt := expireAt k0 |}
  | None => {| members := [(member, score)]; expireAt := None |}
  end.

(** [EXPIRE key seconds], run at time [at_]. *)
Definition expire (k : Key) (seconds at_ : Z) : option Key :=
  if seconds <=? 0 then None
  else Some {| members := members k; expireAt := Some (at_ + seconds * 1000) |}.

(** The member [`${now}-${Math.random()}`]; [rnd] is the random number
    as it is printed. *)
Definition memberName (now : Z) (rnd : string) : string :=
  pretty.pretty now ++ "-" ++ rnd.

(** [checkLimit(key, maxRequests, windowSeconds)]: [now] is the
    [Date.now()] of the caller and [at_] the time of Redis when it runs
    the transaction. *)
Definition checkLimit (db : t) (key : string) (maxRequests windowSeconds : Z)
    (now : Z) (rnd : string) (at_ : Z) : bool * t :=
  let windowStart := now - windowSeconds * 1000 in
  let k1 := zremrangebyscore (live db key at_) 0 windowStart in
  let count := zcard k1 in
  let k2 := zadd k1 now (memberName now rnd) in
  (count <? maxRequests,
   match expire k2 windowSeconds at_ with
   | Some k3 => <[key := k3]> db
   | None => delete key db
   end).

(** One turn of the loop of [consumeOrWait], or one call of
    [checkLimit]: the clock of the caller, the random number and the
    time of Redis. *)
Record Poll := { p_now : Z; p_rnd : string; p_at : Z }.

Definition poll (db : t) (key : string) (maxRequests windowSeconds : Z)
    (p : Poll) : bool * t :=
  checkLimit db key maxRequests windowSeconds (p_now p) (p_rnd p) (p_at p).

(** [consumeOrWait]: the turns of the loop, one per element of [polls];
    [Some n] when it returns at its [n]-th call of [checkLimit], [None]
    when it is still waiting after all of them. *)
Fixpoint consumeOrWait (db : t) (key : string) (maxRequests windowSeconds : Z)
    (polls : list Poll) (n : nat) : option nat * t :=
  match polls with
  | [] => (None, db)
  | p :: polls' =>
      let '(allowed, db') := poll db key maxRequests windowSeconds p in
      if allowed then (Some (S n), db')
      else consumeOrWait db' key maxRequests windowSeconds polls' (S n)
  end.

(** Calls of [checkLimit] one after the other, whatever they answer. *)
Fixpoint checkAll (db : t) (key : string) (maxRequests windowSeconds : Z)
    (polls : list Poll) : t :=
  match polls with
  | [] => db
  | p :: polls' =>
      checkAll (snd (poll db key maxRequests windowSeconds p))
        key maxRequests windowSeconds polls'
  end.

End DistributedRateLimiter.


(** ** Orders placed with retries
    ([trading-bot-plans/09-examples.md], Example 11) *)

(** [error.message]; the message of an error of axios is written by
    axios, [axios_message]. *)
Definition errorMessage (axios_message : option Response -> Request -> string)
    (e : Error) : string :=
  match e with
  | JsError m => m
  | ApiError m _ _ => m
  | AxiosError response config => axios_message response config
  end.

Module ResilientTrading.

Definition maxRetries : Z := 3.
Definition retryDelay : Z := 1000.

Section WithClient.
(** [placeOrder] is [rhClient.trading.placeOrder], [sleep ms] is
    [this.sleep(ms)]; both act on a world [W]. *)
Context {W : Type}.
Variable placeOrder : TradingService.OrderRequest -> W -> Result Json * W.
Variable sleep : Z -> W -> W.
Variable axios_message : option Response -> Request -> string.

(** The [throw] after the loop; [lastError] is assigned in every turn
    that does not return. *)
Definition failedAfter (lastError : option Error) : Error :=
  match lastError with
  | Some e =>
      JsError ("Failed after " ++ pretty.pretty maxRetries ++ " attempts: "
               ++ errorMessage axios_message e)
  | None =>
      JsError "Cannot read properties of undefined (reading 'message')"
  end.

(** The turns of the loop that remain, [n] of them, from [attempt] on. *)
Fixpoint attemptsFrom (n : nat) (attempt : Z)
    (orderRequest : TradingService.OrderRequest) (lastError : option Error)
    (w : W) : Result Json * W :=
  match n with
  | O => (Throw (failedAfter lastError), w)
  | S n' =>
      match placeOrder orderRequest w with
      | (Ok order, w') => (Ok order, w')
      | (Throw error, w') =>
          attemptsFrom n' (attempt + 1) orderRequest (Some error)
            (if attempt <? maxRetries
             then sleep (retryDelay * attempt) w' else w')
      end
  end.

Definition placeOrderWithRetry (orderRequest : TradingService.OrderRequest)
    (w : W) : Result Json * W :=
  attemptsFrom (Z.to_nat (maxRetries + 1 - 1)) 1 orderRequest None w.

End WithClient.

End ResilientTrading.


(** ** Properties of states, and the inputs of the examples *)

(** The breaker is open only with a count that has reached the
    threshold. *)
Definition open_means_tripped (cb : CircuitBreaker.t) : Prop :=
  CircuitBreaker.state cb = CircuitBreaker.OPEN ->
  CircuitBreaker.threshold cb <= CircuitBreaker.failureCount cb.

Definition tripped_breaker : CircuitBreaker.t :=
  {| CircuitBreaker.state := CircuitBreaker.OPEN;
     CircuitBreaker.failureCount := 5;
     CircuitBreaker.lastFailureTime := 1000;
     CircuitBreaker.threshold := 5;
     CircuitBreaker.timeout := 60000 |}.

(** A probe that would record its call in the world. *)
Definition recording_fn (w : Z * list string) : Result unit * (Z * list string) :=
  (Ok tt, (fst w + 20, (snd w ++ ["called"])%list)).

Definition failing (at_ : Z) : CircuitBreaker.Call :=
  {| CircuitBreaker.at_ := at_; CircuitBreaker.succeeds := false;
     CircuitBreaker.settled := at_ + 10 |}.

Definition succeeding (at_ : Z) : CircuitBreaker.Call :=
  {| CircuitBreaker.at_ := at_; CircuitBreaker.succeeds := true;
     CircuitBreaker.settled := at_ + 10 |}.

Definition orders_bucket : TokenBucket.t :=
  snd (TokenBucket.consume (TokenBucket.new 10 2 0) 1 250 250).

Definition at_zero : RateLimiter.Clock :=
  {| RateLimiter.now := 0; RateLimiter.wake := 0 |}.

Definition both_tiers : CacheManager.CacheConfig :=
  {| CacheManager.defaultTTL := 60;
     CacheManager.enableL1 := true; CacheManager.enableL2 := true |}.

Definition local_tier_only : CacheManager.CacheConfig :=
  {| CacheManager.defaultTTL := 60;
     CacheManager.enableL1 := true; CacheManager.enableL2 := false |}.

Definition shared_tier_only : CacheManager.CacheConfig :=
  {| CacheManager.defaultTTL := 60;
     CacheManager.enableL1 := false; CacheManager.enableL2 := true |}.

Definition aapl_quote : Json := JObj [("last_trade_price", JStr "150.00")].

Definition order_fill_patterns : list string :=
  ["positions:*"; "portfolio:*"; "orders:*"; "balance:*"].

(** No refresh is in flight, or the one in flight is the call of
    [performTokenRefresh] that [refreshToken] has stored. *)
Definition refresh_state_ok (am : AuthManager.t) : Prop :=
  AuthManager.tokenRefreshPromise am = None \/
  AuthManager.tokenRefreshPromise am = Some AuthManager.performTokenRefresh.

(** A transport that records what it is asked to send and answers 200. *)
Definition recording_request (config : Request) (am : AuthManager.t)
    (w : list Request) : Result Response * AuthManager.t * list Request :=
  (Ok {| status := 200; data := JNull; retryAfter := None |}, am,
   (w ++ [config])%list).

Definition no_sleep (ms : Z) (w : list Request) : list Request := w.

Definition get_account : Request :=
  {| method := "GET"; url := "/accounts/"; body := JNull |}.

Definition rejected (st : Z) : Response :=
  {| status := st; data := JObj [("detail", JStr "Invalid token.")];
     retryAfter := None |}.

Definition manual_token : AuthManager.t :=
  AuthManager.new (Some "Bearer abc123") 0.

(** A client that records the posts and answers with an order id. *)
Definition recording_post (url : string) (body : Json)
    (w : list (string * Json)) : Result Json * list (string * Json) :=
  (Ok (JObj [("id", JStr "order-1"); ("state", JStr "queued")]),
   (w ++ [(url, body)])%list).

Definition buy_10_aapl : TradingService.OrderRequest :=
  {| TradingService.account := "account-id";
     TradingService.instrument := "instrument-url";
     TradingService.symbol := "AAPL";
     TradingService.type := TradingService.market;
     TradingService.time_in_force := "gfd";
     TradingService.side := TradingService.buy;
     TradingService.quantity := "10";
     TradingService.price := None;
     TradingService.stop_price := None |}.

Definition quote_task : ResilientApiClient.Task :=
  {| ResilientApiClient.t_url := "/quotes/AAPL/";
     ResilientApiClient.t_params := "";
     ResilientApiClient.t_cacheTTL := Some 10;
     ResilientApiClient.pc := ResilientApiClient.AtLookup |}.

Definition fresh_client : ResilientApiClient.t :=
  {| ResilientApiClient.cache := CacheManager.new both_tiers;
     ResilientApiClient.rateLimiter := RateLimiter.new;
     ResilientApiClient.circuitBreaker := CircuitBreaker.default |}.

(** Three callers ask for the quote of AAPL at the same time. *)
Definition three_callers : ResilientApiClient.System :=
  {| ResilientApiClient.client := fresh_client;
     ResilientApiClient.tasks := [quote_task; quote_task; quote_task];
     ResilientApiClient.upstream := [] |}.

Definition quote_reply : Result Response :=
  Ok {| status := 200; data := aapl_quote; retryAfter := None |}.

Definition lookups_and_admissions : list ResilientApiClient.Event :=
  [ ResilientApiClient.Lookup 0 0 1;
    ResilientApiClient.Lookup 1 0 1;
    ResilientApiClient.Lookup 2 0 1;
    ResilientApiClient.Acquire 0 at_zero at_zero;
    ResilientApiClient.Acquire 1 at_zero at_zero;
    ResilientApiClient.Acquire 2 at_zero at_zero ].

Definition settlements : list ResilientApiClient.Event :=
  [ ResilientApiClient.Settle 0 quote_reply 40 41;
    ResilientApiClient.Settle 1 quote_reply 42 43;
    ResilientApiClient.Settle 2 quote_reply 44 45 ].


(** What [retryWithBackoff] does to the outside, in order: the log kept
    beside the world by a transport and a timer that record their
    calls. *)
Inductive Effect :=
| Slept (ms : Z)
| Requested (config : Request).

Definition logged_request {W : Type}
    (axios_request :
       Request -> AuthManager.t -> W -> Result Response * AuthManager.t * W)
    (config : Request) (am : AuthManager.t) (wl : W * list Effect)
  : Result Response * AuthManager.t * (W * list Effect) :=
  let '(r, am', w') := axios_request config am (fst wl) in
  (r, am', (w', (snd wl ++ [Requested config])%list)).

Definition logged_sleep {W : Type} (sleep : Z -> W -> W) (ms : Z)
    (wl : W * list Effect) : W * list Effect :=
  (sleep ms (fst wl), (snd wl ++ [Slept ms])%list).

(** A transport for pages: it answers from [server] and records the
    urls it is asked for. *)
Definition served (server : string -> Result ApiClient.PaginatedResponse)
    (url : string) (w : list string)
  : Result ApiClient.PaginatedResponse * list string :=
  (server url, (w ++ [url])%list).

(** The pages that follow one another from [url] by their [next] links,
    up to the first page without one. *)
Inductive linked (server : string -> Result ApiClient.PaginatedResponse)
  : string -> list (string * list Json) -> Prop :=
| linked_last url r nxt :
    url <> "" ->
    server url = Ok {| ApiClient.results := r; ApiClient.next := nxt |} ->
    missing nxt = true ->
    linked server url [(url, r)]
| linked_next url r url' rest :
    url <> "" ->
    server url = Ok {| ApiClient.results := r; ApiClient.next := Some url' |} ->
    linked server url' rest ->
    linked server url ((url, r) :: rest).

(** The pages from [url] up to one whose request fails with [e], with
    the urls requested. *)
Inductive broken (server : string -> Result ApiClient.PaginatedResponse)
  : string -> list string -> Error -> Prop :=
| broken_here url e :
    url <> "" ->
    server url = Throw e ->
    broken server url [url] e
| broken_next url r url' urls e :
    url <> "" ->
    server url = Ok {| ApiClient.results := r; ApiClient.next := Some url' |} ->
    broken server url' urls e ->
    broken server url (url :: urls) e.

Definition two_pages (url : string) : Result ApiClient.PaginatedResponse :=
  if String.eqb url "/orders/?"
  then Ok {| ApiClient.results := [JStr "o1"; JStr "o2"];
             ApiClient.next := Some "/orders/?cursor=2" |}
  else if String.eqb url "/orders/?cursor=2"
  then Ok {| ApiClient.results := [JStr "o3"]; ApiClient.next := None |}
  else Throw (ApiError "API Error: 404" 404 JNull).

Definition second_page_fails (url : string)
  : Result ApiClient.PaginatedResponse :=
  if String.eqb url "/orders/?"
  then Ok {| ApiClient.results := [JStr "o1"; JStr "o2"];
             ApiClient.next := Some "/orders/?cursor=2" |}
  else Throw (ApiError "API Error: 404" 404 JNull).

Definition self_linked_page (url : string)
  : Result ApiClient.PaginatedResponse :=
  Ok {| ApiClient.results := [JStr "o1"]; ApiClient.next := Some "/orders/?" |}.

(** A transport for [get] that answers every url with the same body and
    counts its calls. *)
Definition counting_get (body : Json) (url : string) (config : Json) (w : nat)
  : Result Response * nat :=
  (Ok {| status := 200; data := body; retryAfter := None |}, S w).

(** The member and the entry that a call of [checkLimit] adds. *)
Definition pollMember (p : DistributedRateLimiter.Poll) : string :=
  DistributedRateLimiter.memberName
    (DistributedRateLimiter.p_now p) (DistributedRateLimiter.p_rnd p).

Definition pollEntry (p : DistributedRateLimiter.Poll) : string * Z :=
  (pollMember p, DistributedRateLimiter.p_now p).

(** The calls among [polls] made less than [windowSeconds] before
    [now]. *)
Definition inWindow (windowSeconds now : Z)
    (polls : list DistributedRateLimiter.Poll)
  : list DistributedRateLimiter.Poll :=
  List.filter
    (fun q => now - windowSeconds * 1000 <? DistributedRateLimiter.p_now q)
    polls.

(** Calls in the order of the clock, from [from] on, with Redis on the
    clock of the caller. *)
Fixpoint inOrder (from : Z) (polls : list DistributedRateLimiter.Poll) : Prop :=
  match polls with
  | [] => True
  | p :: polls' =>
      from <= DistributedRateLimiter.p_now p /\
      DistributedRateLimiter.p_at p = DistributedRateLimiter.p_now p /\
      inOrder (DistributedRateLimiter.p_now p) polls'
  end.

(** What the key holds after the calls [h], the last of them at [T]. *)
Definition windowKept (key : string) (windowSeconds T : Z)
    (h : list DistributedRateLimiter.Poll) (db : DistributedRateLimiter.t)
  : Prop :=
  Forall (fun q => 0 <= DistributedRateLimiter.p_now q <= T) h /\
  match db !! key with
  | Some k =>
      DistributedRateLimiter.members k
        = map pollEntry (inWindow windowSeconds T h) /\
      DistributedRateLimiter.expireAt k = Some (T + windowSeconds * 1000)
  | None => inWindow windowSeconds T h = []
  end.

(** Turns of the loop of [consumeOrWait] that follow one another, after
    [prev], by less than the window on both clocks. *)
Fixpoint closelySpaced (windowSeconds : Z) (prev : DistributedRateLimiter.Poll)
    (polls : list DistributedRateLimiter.Poll) : Prop :=
  match polls with
  | [] => True
  | p :: polls' =>
      DistributedRateLimiter.p_now p - windowSeconds * 1000
        < DistributedRateLimiter.p_now prev /\
      DistributedRateLimiter.p_at p
        < DistributedRateLimiter.p_at prev + windowSeconds * 1000 /\
      closelySpaced windowSeconds p polls'
  end.

Definition poll_at (now : Z) (rnd : string) : DistributedRateLimiter.Poll :=
  {| DistributedRateLimiter.p_now := now;
     DistributedRateLimiter.p_rnd := rnd;
     DistributedRateLimiter.p_at := now |}.

Definition no_message (response : option Response) (config : Request) : string :=
  "Network Error".

Definition failing_post (url : string) (body : Json) (w : nat)
  : Result Json * nat :=
  (Throw (ApiError "API Error: 400" 400 JNull), S w).

Definition sleep_count (ms : Z) (w : nat) : nat := w.

Definition no_quantity : TradingService.OrderRequest :=
  {| TradingService.account := "account-id";
     TradingService.instrument := "instrument-url";
     TradingService.symbol := "AAPL";
     TradingService.type := TradingService.market;
     TradingService.time_in_force := "gfd";
     TradingService.side := TradingService.buy;
     TradingService.quantity := "";
     TradingService.price := None;
     TradingService.stop_price := None |}.

Definition quantity_in_words : TradingService.OrderRequest :=
  {| TradingService.account := "account-id";
     TradingService.instrument := "instrument-url";
     TradingService.symbol := "AAPL";
     TradingService.type := TradingService.market;
     TradingService.time_in_force := "gfd";
     TradingService.side := TradingService.buy;
     TradingService.quantity := "ten";
     TradingService.price := None;
     TradingService.stop_price := None |}.

(** The keys that the invalidation events pass to [delete]. *)
Definition invalidation_keys : list string :=
  ["positions:*"; "portfolio:*"; "orders:*"; "balance:*"; "account:*"].

(** Clock readings that do not go back, from [from] on. *)
Fixpoint nondecreasing (from : Z) (l : list Z) : Prop :=
  match l with
  | [] => True
  | t :: l' => from <= t /\ nondecreasing t l'
  end.

(** The bucket [checkLimit] works on, and the bucket it leaves. *)
Definition clientBucket (rl : ClientRateLimiter.t) (endpoint : string) (now : Z)
  : ClientRateLimiter.RateLimitBucket :=
  match ClientRateLimiter.buckets rl !! endpoint with
  | Some bucket => bucket
  | None =>
      {| ClientRateLimiter.tokens :=
           ClientRateLimiter.burstSize
             (ClientRateLimiter.getConfigForEndpoint rl endpoint);
         ClientRateLimiter.lastRefill := now |}
  end.

Definition clientServed (bucket : ClientRateLimiter.RateLimitBucket)
    (config : ClientRateLimiter.RateLimitConfig) (now wake : Z)
  : ClientRateLimiter.RateLimitBucket :=
  let b1 := ClientRateLimiter.refillBucket bucket config now in
  let b2 := if Qltb (ClientRateLimiter.tokens b1) 1
            then ClientRateLimiter.refillBucket b1 config wake else b1 in
  {| ClientRateLimiter.tokens := (ClientRateLimiter.tokens b2 - 1)%Q;
     ClientRateLimiter.lastRefill := ClientRateLimiter.lastRefill b2 |}.

(** The limits are those the constructor sets. *)
Definition clientConfigured (rl : ClientRateLimiter.t) : Prop :=
  ClientRateLimiter.defaultConfig rl
    = ClientRateLimiter.defaultConfig ClientRateLimiter.new /\
  ClientRateLimiter.endpointLimits rl
    = ClientRateLimiter.endpointLimits ClientRateLimiter.new.

(** Every bucket holds between zero and one token less than the burst
    size of its endpoint. *)
Definition clientTokensInRange (rl : ClientRateLimiter.t) : Prop :=
  forall endpoint bucket,
    ClientRateLimiter.buckets rl !! endpoint = Some bucket ->
    (0 <= ClientRateLimiter.tokens bucket)%Q /\
    (ClientRateLimiter.tokens bucket
     <= ClientRateLimiter.burstSize
          (ClientRateLimiter.getConfigForEndpoint rl endpoint) - 1)%Q.

(** The clock and the timer behave at a call of [checkLimit]: the clock
    has not gone back since the bucket was last refilled, and the sleep,
    if there is one, lasts at least as long as asked. *)
Definition clientTimely (rl : ClientRateLimiter.t) (endpoint : string)
    (now wake : Z) : Prop :=
  ClientRateLimiter.lastRefill (clientBucket rl endpoint now) <= now /\
  match snd (fst (ClientRateLimiter.checkLimit rl endpoint now wake)) with
  | Some (Fin ms) => (ms <= inject_Z (wake - now))%Q
  | _ => True
  end.

Fixpoint clientAllTimely (rl : ClientRateLimiter.t)
    (calls : list (string * Z * Z)) : Prop :=
  match calls with
  | [] => True
  | (endpoint, now, wake) :: rest =>
      clientTimely rl endpoint now wake /\
      clientAllTimely (snd (ClientRateLimiter.checkLimit rl endpoint now wake)) rest
  end.

(** An error that [handleError] throws on without another request: one
    without a response, or with a status other than 401, 429 and the
    four server errors. *)
Definition rethrown (e : Error) : bool :=
  match e with
  | AxiosError (Some resp) _ =>
      negb ((status resp =? 401) || (status resp =? 429)
            || ApiClient.isServerError (status resp))
  | _ => true
  end.

(** The server answers every request for [config] with a server
    error. *)
Definition keeps_failing {W : Type}
    (send : Request -> AuthManager.t -> W
            -> Result Response * AuthManager.t * W)
    (config : Request) : Prop :=
  forall am w, exists resp am' w',
    send config am w = (Throw (AxiosError (Some resp) config), am', w') /\
    ApiClient.isServerError (status resp) = true.

(** A total [axios.request] as one that always settles. *)
Definition settling {W : Type}
    (axios_request : Request -> AuthManager.t -> W
                     -> Result Response * AuthManager.t * W)
    (config : Request) (am : AuthManager.t) (w : W)
  : option (Result Response) * AuthManager.t * W :=
  let '(r, am', w') := axios_request config am w in (Some r, am', w').

Definition always_503 (config : Request) (am : AuthManager.t) (w : nat)
  : Result Response * AuthManager.t * nat :=
  (Throw (AxiosError (Some (rejected 503)) config), am, S w).

Definition then_404 (config : Request) (am : AuthManager.t) (w : nat)
  : Result Response * AuthManager.t * nat :=
  (Throw (AxiosError (Some (rejected 404)) config), am, S w).

(** * Properties *)


(** ** Circuit breaker *)

Lemma gate_failureCount cb now cb' :
  CircuitBreaker.gate cb now = Some cb' ->
  CircuitBreaker.failureCount cb' = CircuitBreaker.failureCount cb /\
  CircuitBreaker.threshold cb' = CircuitBreaker.threshold cb /\
  CircuitBreaker.state cb' <> CircuitBreaker.OPEN.
Proof.
  unfold CircuitBreaker.gate.
  destruct (CircuitBreaker.state cb) eqn:Hs.
  - intros [= <-]. rewrite Hs. repeat split; discriminate.
  - destruct (_ <? _); [|discriminate].
    intros [= <-]. simpl. repeat split; discriminate.
  - intros [= <-]. rewrite Hs. repeat split; discriminate.
Qed.

Lemma gate_open cb now :
  CircuitBreaker.state cb = CircuitBreaker.OPEN ->
  CircuitBreaker.gate cb now =
    if CircuitBreaker.timeout cb <? now - CircuitBreaker.lastFailureTime cb
    then Some (CircuitBreaker.set_state CircuitBreaker.HALF_OPEN cb)
    else None.
Proof. intros Hs. unfold CircuitBreaker.gate. now rewrite Hs. Qed.

Lemma onSuccess_state cb :
  CircuitBreaker.state cb <> CircuitBreaker.OPEN ->
  CircuitBreaker.state (CircuitBreaker.onSuccess cb) = CircuitBreaker.CLOSED.
Proof.
  unfold CircuitBreaker.onSuccess. simpl.
  destruct (CircuitBreaker.state cb) eqn:Hs; simpl; congruence.
Qed.

Lemma onSuccess_failureCount cb :
  CircuitBreaker.failureCount (CircuitBreaker.onSuccess cb) = 0.
Proof.
  unfold CircuitBreaker.onSuccess. simpl.
  destruct (CircuitBreaker.state cb); reflexivity.
Qed.

Lemma onSuccess_threshold cb :
  CircuitBreaker.threshold (CircuitBreaker.onSuccess cb) = CircuitBreaker.threshold cb.
Proof.
  unfold CircuitBreaker.onSuccess. simpl.
  destruct (CircuitBreaker.state cb); reflexivity.
Qed.

Lemma onFailure_failureCount cb now :
  CircuitBreaker.failureCount (CircuitBreaker.onFailure cb now)
  = CircuitBreaker.failureCount cb + 1.
Proof.
  unfold CircuitBreaker.onFailure. simpl.
  destruct (_ <=? _); reflexivity.
Qed.

Lemma onFailure_threshold cb now :
  CircuitBreaker.threshold (CircuitBreaker.onFailure cb now)
  = CircuitBreaker.threshold cb.
Proof.
  unfold CircuitBreaker.onFailure. simpl.
  destruct (_ <=? _); reflexivity.
Qed.

Lemma onFailure_state cb now :
  CircuitBreaker.state (CircuitBreaker.onFailure cb now) =
    if CircuitBreaker.threshold cb <=? CircuitBreaker.failureCount cb + 1
    then CircuitBreaker.OPEN else CircuitBreaker.state cb.
Proof.
  unfold CircuitBreaker.onFailure. simpl.
  destruct (_ <=? _); reflexivity.
Qed.

(** What one call of a sequence does to the breaker. *)
Lemma step_cases cb c :
  let cb' := snd (CircuitBreaker.step cb c) in
  match CircuitBreaker.gate cb (CircuitBreaker.at_ c) with
  | None => cb' = cb
  | Some cb1 =>
      cb' = if CircuitBreaker.succeeds c
            then CircuitBreaker.onSuccess cb1
            else CircuitBreaker.onFailure cb1 (CircuitBreaker.settled c)
  end.
Proof.
  unfold CircuitBreaker.step, CircuitBreaker.execute, CircuitBreaker.call_fn.
  destruct (CircuitBreaker.gate cb (CircuitBreaker.at_ c)); simpl; [|reflexivity].
  destruct (CircuitBreaker.succeeds c); reflexivity.
Qed.

Lemma step_threshold cb c :
  CircuitBreaker.threshold (snd (CircuitBreaker.step cb c))
  = CircuitBreaker.threshold cb.
Proof.
  pose proof (step_cases cb c) as H. simpl in H.
  destruct (CircuitBreaker.gate cb (CircuitBreaker.at_ c)) as [cb1|] eqn:Hg.
  - apply gate_failureCount in Hg as (_ & Ht & _).
    rewrite H. destruct (CircuitBreaker.succeeds c).
    + now rewrite onSuccess_threshold.
    + now rewrite onFailure_threshold.
  - now rewrite H.
Qed.

Lemma step_failureCount cb c :
  CircuitBreaker.failureCount (snd (CircuitBreaker.step cb c)) =
    if CircuitBreaker.invoked cb c
    then (if CircuitBreaker.succeeds c then 0
          else CircuitBreaker.failureCount cb + 1)
    else CircuitBreaker.failureCount cb.
Proof.
  pose proof (step_cases cb c) as H. simpl in H.
  unfold CircuitBreaker.invoked.
  destruct (CircuitBreaker.gate cb (CircuitBreaker.at_ c)) as [cb1|] eqn:Hg.
  - apply gate_failureCount in Hg as (Hf & _ & _).
    rewrite H. destruct (CircuitBreaker.succeeds c).
    + apply onSuccess_failureCount.
    + now rewrite onFailure_failureCount, Hf.
  - now rewrite H.
Qed.

Lemma step_open_means_tripped cb c :
  open_means_tripped cb -> open_means_tripped (snd (CircuitBreaker.step cb c)).
Proof.
  intros Inv. pose proof (step_cases cb c) as H. simpl in H.
  destruct (CircuitBreaker.gate cb (CircuitBreaker.at_ c)) as [cb1|] eqn:Hg.
  - apply gate_failureCount in Hg as (Hf & Ht & Hs).
    rewrite H. unfold open_means_tripped.
    destruct (CircuitBreaker.succeeds c).
    + rewrite onSuccess_state by assumption. discriminate.
    + rewrite onFailure_state, onFailure_failureCount, onFailure_threshold.
      destruct (Z.leb_spec (CircuitBreaker.threshold cb1)
                  (CircuitBreaker.failureCount cb1 + 1)); [lia|].
      intros Ho. contradiction.
  - now rewrite H.
Qed.

Lemma run_invariants cs : forall cb acc,
  open_means_tripped cb ->
  acc = CircuitBreaker.failureCount cb ->
  let cb' := CircuitBreaker.run cb cs in
  CircuitBreaker.threshold cb' = CircuitBreaker.threshold cb /\
  CircuitBreaker.failureCount cb' = CircuitBreaker.consecutiveFailures cb cs acc /\
  open_means_tripped cb'.
Proof.
  induction cs as [|c cs IH]; intros cb acc Inv Hacc; simpl.
  - auto.
  - destruct (IH (snd (CircuitBreaker.step cb c))
                (CircuitBreaker.failureCount (snd (CircuitBreaker.step cb c))))
      as (Ht & Hf & Ho).
    + now apply step_open_means_tripped.
    + reflexivity.
    + rewrite step_threshold in Ht. rewrite step_failureCount in Hf.
      subst acc. auto.
Qed.

(** C4. While a breaker is OPEN and the time since the last recorded
    failure does not exceed the cool-down, [execute] throws the
    breaker-open error, whatever [fn] is: the world in which [fn] would
    run is the one before the call, so [fn] was not run, and the breaker
    is as it was, hence still OPEN.  The test at the head of [execute]
    turns an OPEN breaker to HALF_OPEN exactly when the call comes after
    the cool-down has elapsed, and neither [onSuccess] nor [onFailure]
    ever enters HALF_OPEN. *)
Theorem C4_open_breaker_waits_for_cooldown :
  forall (W T : Type) (clock : W -> Z) (cb : CircuitBreaker.t)
         (fn : W -> Result T * W) (w : W),
    CircuitBreaker.state cb = CircuitBreaker.OPEN ->
    (clock w - CircuitBreaker.lastFailureTime cb <= CircuitBreaker.timeout cb ->
     CircuitBreaker.execute clock cb fn w
       = (Throw CircuitBreaker.breaker_open_error, cb, w)) /\
    (forall now cb',
       CircuitBreaker.gate cb now = Some cb' ->
       CircuitBreaker.timeout cb < now - CircuitBreaker.lastFailureTime cb /\
       cb' = CircuitBreaker.set_state CircuitBreaker.HALF_OPEN cb) /\
    (forall now,
       CircuitBreaker.timeout cb < now - CircuitBreaker.lastFailureTime cb ->
       CircuitBreaker.gate cb now
         = Some (CircuitBreaker.set_state CircuitBreaker.HALF_OPEN cb)) /\
    CircuitBreaker.state (CircuitBreaker.onSuccess cb) <> CircuitBreaker.HALF_OPEN /\
    (forall now,
       CircuitBreaker.state (CircuitBreaker.onFailure cb now)
         <> CircuitBreaker.HALF_OPEN).
Proof.
  intros W T clock cb fn w Hs. repeat split.
  - intros Hc. unfold CircuitBreaker.execute. rewrite gate_open by assumption.
    destruct (Z.ltb_spec (CircuitBreaker.timeout cb)
                (clock w - CircuitBreaker.lastFailureTime cb)); [lia|reflexivity].
  - rewrite gate_open in H by assumption.
    destruct (Z.ltb_spec (CircuitBreaker.timeout cb)
                (now - CircuitBreaker.lastFailureTime cb)); [assumption|discriminate].
  - rewrite gate_open in H by assumption.
    destruct (_ <? _); congruence.
  - intros now Hn. rewrite gate_open by assumption.
    destruct (Z.ltb_spec (CircuitBreaker.timeout cb)
                (now - CircuitBreaker.lastFailureTime cb)); [reflexivity|lia].
  - unfold CircuitBreaker.onSuccess. simpl. rewrite Hs. simpl. congruence.
  - intros now. rewrite onFailure_state, Hs. destruct (_ <=? _); discriminate.
Qed.

Lemma C4_witness :
  CircuitBreaker.execute fst tripped_breaker recording_fn (61000, [])
    = (Throw CircuitBreaker.breaker_open_error, tripped_breaker, (61000, [])).
Proof.
  apply (C4_open_breaker_waits_for_cooldown _ _ fst tripped_breaker
           recording_fn (61000, [])); [reflexivity | simpl; lia].
Defined.

(** C10. A call in which [fn] succeeds leaves the failure counter at
    zero, in whatever state the breaker was when the call was let
    through.  Over any sequence of calls through a new breaker the
    counter is therefore the number of failures of [fn] since its last
    success, and the breaker is OPEN only when that number has reached
    the threshold; a call that takes the breaker from another state to
    OPEN is a failed call that brings the count to the threshold. *)
Theorem C10_success_resets_failure_count :
  (forall (W T : Type) (clock : W -> Z) (cb cb1 : CircuitBreaker.t)
          (fn : W -> Result T * W) (w w' : W) (v : T),
     CircuitBreaker.gate cb (clock w) = Some cb1 ->
     fn w = (Ok v, w') ->
     CircuitBreaker.execute clock cb fn w
       = (Ok v, CircuitBreaker.onSuccess cb1, w') /\
     CircuitBreaker.failureCount (CircuitBreaker.onSuccess cb1) = 0) /\
  (forall (threshold timeout : Z) (cs : list CircuitBreaker.Call),
     let cb0 := CircuitBreaker.new threshold timeout in
     let cb := CircuitBreaker.run cb0 cs in
     CircuitBreaker.failureCount cb
       = CircuitBreaker.consecutiveFailures cb0 cs 0 /\
     (CircuitBreaker.state cb = CircuitBreaker.OPEN ->
      threshold <= CircuitBreaker.consecutiveFailures cb0 cs 0)) /\
  (forall (cb : CircuitBreaker.t) (c : CircuitBreaker.Call),
     CircuitBreaker.state cb <> CircuitBreaker.OPEN ->
     CircuitBreaker.state (snd (CircuitBreaker.step cb c)) = CircuitBreaker.OPEN ->
     CircuitBreaker.succeeds c = false /\
     CircuitBreaker.threshold cb <= CircuitBreaker.failureCount cb + 1).
Proof.
  split; [|split].
  - intros W T clock cb cb1 fn w w' v Hg Hfn. split.
    + unfold CircuitBreaker.execute. now rewrite Hg, Hfn.
    + apply onSuccess_failureCount.
  - intros threshold timeout cs cb0 cb.
    destruct (run_invariants cs cb0 0) as (Ht & Hf & Ho).
    + unfold open_means_tripped. discriminate.
    + reflexivity.
    + split; [exact Hf|]. intros Hs. fold cb in Ho, Hf, Ht.
      specialize (Ho Hs). rewrite Ht, Hf in Ho. exact Ho.
  - intros cb c Hs Ho. pose proof (step_cases cb c) as H. simpl in H.
    destruct (CircuitBreaker.gate cb (CircuitBreaker.at_ c)) as [cb1|] eqn:Hg.
    + apply gate_failureCount in Hg as (Hf & Ht & Hs1).
      rewrite H in Ho. destruct (CircuitBreaker.succeeds c).
      * rewrite onSuccess_state in Ho by assumption. discriminate.
      * split; [reflexivity|]. rewrite onFailure_state in Ho.
        destruct (Z.leb_spec (CircuitBreaker.threshold cb1)
                    (CircuitBreaker.failureCount cb1 + 1)); [lia|contradiction].
    + rewrite H in Ho. contradiction.
Qed.

Lemma C10_witness :
  CircuitBreaker.execute fst
    (CircuitBreaker.run (CircuitBreaker.new 5 60000)
       [failing 0; failing 100; failing 200; failing 300])
    recording_fn (400, [])
  = (Ok tt,
     CircuitBreaker.onSuccess
       (CircuitBreaker.run (CircuitBreaker.new 5 60000)
          [failing 0; failing 100; failing 200; failing 300]),
     (420, ["called"])) /\
  CircuitBreaker.failureCount
    (CircuitBreaker.onSuccess
       (CircuitBreaker.run (CircuitBreaker.new 5 60000)
          [failing 0; failing 100; failing 200; failing 300])) = 0.
Proof.
  apply (proj1 C10_success_resets_failure_count); reflexivity.
Defined.

(** Four failures, a success and four more failures leave the default
    breaker closed: eight failures have accumulated but never five in a
    row. *)
Example breaker_stays_closed :
  CircuitBreaker.state
    (CircuitBreaker.run CircuitBreaker.default
       [failing 0; failing 100; failing 200; failing 300; succeeding 400;
        failing 500; failing 600; failing 700; failing 800])
  = CircuitBreaker.CLOSED.
Proof. reflexivity. Qed.

(** The fifth failure settles at 410; a call at 60410 is still refused
    and leaves the breaker OPEN, a call at 60411 goes through as the
    probe and, succeeding, closes the breaker. *)
Example breaker_probe_after_cooldown :
  let tripped :=
    CircuitBreaker.run CircuitBreaker.default
      [failing 0; failing 100; failing 200; failing 300; failing 400] in
  CircuitBreaker.lastFailureTime tripped = 410 /\
  CircuitBreaker.step tripped (succeeding 60410)
    = (Throw CircuitBreaker.breaker_open_error, tripped) /\
  CircuitBreaker.state (snd (CircuitBreaker.step tripped (succeeding 60411)))
    = CircuitBreaker.CLOSED /\
  CircuitBreaker.state (snd (CircuitBreaker.step tripped (failing 60411)))
    = CircuitBreaker.OPEN.
Proof. repeat split. Qed.

Example breaker_opens_at_five :
  CircuitBreaker.state
    (CircuitBreaker.run CircuitBreaker.default
       [failing 0; failing 100; failing 200; failing 300; failing 400])
  = CircuitBreaker.OPEN.
Proof. reflexivity. Qed.

(** ** Token bucket *)


Lemma Qltb_false x y : Qltb x y = false <-> (y <= x)%Q.
Proof.
  unfold Qltb. rewrite negb_false_iff. apply Qle_bool_iff.
Qed.

Lemma refill_capacity b now :
  TokenBucket.capacity (TokenBucket.refill b now) = TokenBucket.capacity b.
Proof. reflexivity. Qed.

Lemma refill_tokens_le b now :
  (TokenBucket.tokens (TokenBucket.refill b now) <= TokenBucket.capacity b)%Q.
Proof. simpl. apply Q.le_min_l. Qed.

Lemma ready_capacity b n now wake :
  TokenBucket.capacity (TokenBucket.ready b n now wake) = TokenBucket.capacity b.
Proof.
  unfold TokenBucket.ready. destruct (Qltb _ _); reflexivity.
Qed.

Lemma ready_refillRate b n now wake :
  TokenBucket.refillRate (TokenBucket.ready b n now wake) = TokenBucket.refillRate b.
Proof.
  unfold TokenBucket.ready. destruct (Qltb _ _); reflexivity.
Qed.

Lemma ready_tokens_le b n now wake :
  (TokenBucket.tokens (TokenBucket.ready b n now wake) <= TokenBucket.capacity b)%Q.
Proof.
  unfold TokenBucket.ready. destruct (Qltb _ _).
  - apply (refill_tokens_le (TokenBucket.refill b now) wake).
  - apply refill_tokens_le.
Qed.

Lemma consume_bucket b n now wake :
  snd (TokenBucket.consume b n now wake)
  = TokenBucket.take n (TokenBucket.ready b n now wake).
Proof. reflexivity. Qed.

(** C9. A token bucket never holds more tokens than its capacity: it is
    built full, [refill] clamps at the capacity and [consume], called
    with a non-negative number of tokens (its default is one), takes
    tokens away after refilling; [getAvailableTokens] refills and rounds
    down, so that it never reports more than the capacity, from any
    state. *)
Theorem C9_tokens_never_exceed_capacity :
  (forall b : TokenBucket.t,
     TokenBucket.reachable b ->
     (TokenBucket.tokens b <= TokenBucket.capacity b)%Q) /\
  (forall (b : TokenBucket.t) (now : Z),
     (inject_Z (fst (TokenBucket.getAvailableTokens b now))
      <= TokenBucket.capacity b)%Q).
Proof.
  split.
  - intros b Hb. induction Hb.
    + simpl. lra.
    + rewrite consume_bucket. simpl.
      pose proof (ready_tokens_le b n now wake) as H1.
      rewrite ready_capacity. lra.
    + exact (refill_tokens_le b now).
    + exact (refill_tokens_le b now).
  - intros b now. simpl.
    eapply Qle_trans; [apply Qfloor_le|]. apply Q.le_min_l.
Qed.

Lemma C9_witness :
  (TokenBucket.tokens orders_bucket <= TokenBucket.capacity orders_bucket)%Q.
Proof.
  apply (proj1 C9_tokens_never_exceed_capacity).
  apply TokenBucket.reach_consume; [apply TokenBucket.reach_new | lra].
Defined.

Example orders_bucket_tokens :
  (TokenBucket.tokens orders_bucket == 9)%Q.
Proof. reflexivity. Qed.

(** A negative request is outside the use the class is written for: it
    would add tokens past the capacity. *)
Example negative_request_overfills :
  (TokenBucket.tokens (snd (TokenBucket.consume (TokenBucket.new 10 2 0) (-5) 0 0))
   == 15)%Q.
Proof. reflexivity. Qed.

(** ** Rate limiters *)

Lemma consumeToken_some rl pattern c bucket :
  RateLimiter.bucketFor rl pattern c = Some bucket ->
  RateLimiter.consumeToken rl pattern c =
    (Ok tt, TokenBucket.slept bucket 1 (RateLimiter.now c),
     {| RateLimiter.buckets :=
          <[pattern := RateLimiter.charged bucket c]> (RateLimiter.buckets rl);
        RateLimiter.limits := RateLimiter.limits rl |}).
Proof.
  intros H. unfold RateLimiter.consumeToken. rewrite H. reflexivity.
Qed.

Lemma firstPattern_setupLimits endpoint pattern :
  RateLimiter.firstPattern RateLimiter.setupLimits endpoint = Some pattern ->
  pattern <> "*" /\ is_Some (assoc_get RateLimiter.setupLimits pattern).
Proof.
  unfold RateLimiter.setupLimits. simpl.
  destruct (includes endpoint "/quotes/");
    [intros [= <-]; split; [discriminate | eexists; reflexivity]|].
  destruct (includes endpoint "/orders/");
    [intros [= <-]; split; [discriminate | eexists; reflexivity]|].
  destruct (includes endpoint "/accounts/");
    [intros [= <-]; split; [discriminate | eexists; reflexivity]|].
  discriminate.
Qed.

Lemma getEndpointPattern_limit rl endpoint :
  RateLimiter.limits rl = RateLimiter.setupLimits ->
  is_Some (assoc_get RateLimiter.setupLimits
             (RateLimiter.getEndpointPattern rl endpoint)).
Proof.
  intros Hl. unfold RateLimiter.getEndpointPattern. rewrite Hl.
  destruct (RateLimiter.firstPattern RateLimiter.setupLimits endpoint) eqn:H.
  - now apply firstPattern_setupLimits in H.
  - eexists. reflexivity.
Qed.

Lemma bucketFor_wf rl pattern c :
  RateLimiter.wf rl ->
  is_Some (assoc_get RateLimiter.setupLimits pattern) ->
  exists bucket limit,
    RateLimiter.bucketFor rl pattern c = Some bucket /\
    assoc_get RateLimiter.setupLimits pattern = Some limit /\
    TokenBucket.capacity bucket = RateLimiter.capacity limit /\
    TokenBucket.refillRate bucket = RateLimiter.refillRate limit.
Proof.
  intros [Hl Hb] [limit Hlimit]. unfold RateLimiter.bucketFor.
  destruct (RateLimiter.buckets rl !! pattern) as [bucket|] eqn:Hlook.
  - destruct (Hb _ _ Hlook) as (limit' & H1 & H2 & H3).
    exists bucket, limit'. auto.
  - rewrite Hl, Hlimit. eexists _, limit. repeat split; reflexivity.
Qed.

Lemma charged_wf rl pattern bucket c :
  RateLimiter.wf rl ->
  RateLimiter.bucketFor rl pattern c = Some bucket ->
  is_Some (assoc_get RateLimiter.setupLimits pattern) ->
  RateLimiter.wf
    {| RateLimiter.buckets :=
         <[pattern := RateLimiter.charged bucket c]> (RateLimiter.buckets rl);
       RateLimiter.limits := RateLimiter.limits rl |}.
Proof.
  intros Hwf Hb Hp.
  destruct (bucketFor_wf rl pattern c Hwf Hp) as (b' & limit & Hb' & Hl & Hc & Hr).
  rewrite Hb in Hb'. injection Hb' as <-.
  destruct Hwf as [Hlim Hbs]. split; [exact Hlim|].
  cbn [RateLimiter.buckets]. intros p b0 Hlook. destruct (decide (pattern = p)) as [<-|Hne].
  - rewrite lookup_insert_eq in Hlook. injection Hlook as <-.
    exists limit. split; [exact Hl|].
    unfold RateLimiter.charged.
    cbn [TokenBucket.take TokenBucket.capacity TokenBucket.refillRate].
    rewrite ready_capacity, ready_refillRate. auto.
  - rewrite lookup_insert_ne in Hlook by assumption. eauto.
Qed.

Lemma clientCheckLimit_buckets rl endpoint now wake :
  exists bucket,
    ClientRateLimiter.buckets
      (snd (ClientRateLimiter.checkLimit rl endpoint now wake))
    = <[endpoint := bucket]> (ClientRateLimiter.buckets rl).
Proof.
  unfold ClientRateLimiter.checkLimit, ClientRateLimiter.getOrCreateBucket.
  destruct (ClientRateLimiter.buckets rl !! endpoint) eqn:Hb; simpl.
  - eexists. reflexivity.
  - eexists. now rewrite insert_insert_eq.
Qed.

Lemma clientCheckLimit_eq rl endpoint now wake :
  let config := ClientRateLimiter.getConfigForEndpoint rl endpoint in
  let b1 := ClientRateLimiter.refillBucket (clientBucket rl endpoint now) config now in
  ClientRateLimiter.checkLimit rl endpoint now wake =
    (Ok tt,
     if Qltb (ClientRateLimiter.tokens b1) 1
     then Some (ClientRateLimiter.calculateWaitTime config) else None,
     {| ClientRateLimiter.buckets :=
          <[endpoint := clientServed (clientBucket rl endpoint now) config now wake]>
            (ClientRateLimiter.buckets rl);
        ClientRateLimiter.defaultConfig := ClientRateLimiter.defaultConfig rl;
        ClientRateLimiter.endpointLimits := ClientRateLimiter.endpointLimits rl |}).
Proof.
  intros config b1. unfold b1, clientBucket.
  unfold ClientRateLimiter.checkLimit, ClientRateLimiter.getOrCreateBucket.
  fold config.
  destruct (ClientRateLimiter.buckets rl !! endpoint) as [bucket|] eqn:Hb;
    cbn [ClientRateLimiter.buckets ClientRateLimiter.defaultConfig
         ClientRateLimiter.endpointLimits].
  - reflexivity.
  - rewrite insert_insert_eq. reflexivity.
Qed.

(** C7, as the code has it, for an admission that no other caller of
    the limiter interleaves with.  The endpoint limiter of the caching
    layer resolves an endpoint to the first of the patterns [/quotes/],
    [/orders/], [/accounts/] that it contains and to ["*"] otherwise;
    an admission takes one token from the bucket of that pattern and
    then one token from the bucket of ["*"], and changes no other
    bucket (so an endpoint with no pattern of its own pays the global
    bucket twice).  Each token is subtracted from the bucket as
    [consume] has made it ready: refilled and, if it was then short,
    refilled once more after one sleep; the subtraction is made
    whatever the bucket then holds.  The limiter of the client has no
    global bucket: an admission subtracts one token, in the same way,
    from the bucket kept under the endpoint string and changes no other
    bucket. *)
Theorem C7_admission_charges_pattern_then_global :
  (forall (rl : RateLimiter.t) (endpoint : string) (c1 c2 : RateLimiter.Clock),
     RateLimiter.wf rl ->
     let pattern := RateLimiter.getEndpointPattern rl endpoint in
     let result := RateLimiter.checkLimit rl endpoint c1 c2 in
     exists own global : TokenBucket.t,
       RateLimiter.bucketFor rl pattern c1 = Some own /\
       (if decide (pattern = "*")
        then global = RateLimiter.charged own c1
        else RateLimiter.bucketFor rl "*" c2 = Some global) /\
       fst (fst result) = Ok tt /\
       RateLimiter.buckets (snd result)
         = <["*" := RateLimiter.charged global c2]>
             (<[pattern := RateLimiter.charged own c1]> (RateLimiter.buckets rl)) /\
       (TokenBucket.tokens (RateLimiter.charged own c1)
          == TokenBucket.tokens
               (TokenBucket.ready own 1 (RateLimiter.now c1) (RateLimiter.wake c1))
             - 1)%Q /\
       (TokenBucket.tokens (RateLimiter.charged global c2)
          == TokenBucket.tokens
               (TokenBucket.ready global 1 (RateLimiter.now c2) (RateLimiter.wake c2))
             - 1)%Q /\
       RateLimiter.wf (snd result)) /\
  (forall (rl : ClientRateLimiter.t) (endpoint : string) (now wake : Z),
     let config := ClientRateLimiter.getConfigForEndpoint rl endpoint in
     let bucket := clientBucket rl endpoint now in
     let b1 := ClientRateLimiter.refillBucket bucket config now in
     let b2 := if Qltb (ClientRateLimiter.tokens b1) 1
               then ClientRateLimiter.refillBucket b1 config wake else b1 in
     let result := ClientRateLimiter.checkLimit rl endpoint now wake in
     fst (fst result) = Ok tt /\
     ClientRateLimiter.buckets (snd result)
       = <[endpoint := {| ClientRateLimiter.tokens :=
                            (ClientRateLimiter.tokens b2 - 1)%Q;
                          ClientRateLimiter.lastRefill :=
                            ClientRateLimiter.lastRefill b2 |}]>
           (ClientRateLimiter.buckets rl)).
Proof.
  split.
  - intros rl endpoint c1 c2 Hwf pattern result.
    pose proof (getEndpointPattern_limit rl endpoint (proj1 Hwf)) as Hp.
    fold pattern in Hp.
    destruct (bucketFor_wf rl pattern c1 Hwf Hp)
      as (own & limit & Hown & Hlimit & Hcap & Hrate).
    pose proof (charged_wf rl pattern own c1 Hwf Hown Hp) as Hwf1.
    set (rl1 := {| RateLimiter.buckets :=
                     <[pattern := RateLimiter.charged own c1]> (RateLimiter.buckets rl);
                   RateLimiter.limits := RateLimiter.limits rl |}) in *.
    assert (Hstar : is_Some (assoc_get RateLimiter.setupLimits "*"))
      by (eexists; reflexivity).
    destruct (bucketFor_wf rl1 "*" c2 Hwf1 Hstar)
      as (global & glimit & Hglobal & Hglimit & Hgcap & Hgrate).
    pose proof (charged_wf rl1 "*" global c2 Hwf1 Hglobal Hstar) as Hwf2.
    assert (Hres : result =
              (Ok tt,
               [TokenBucket.slept own 1 (RateLimiter.now c1);
                TokenBucket.slept global 1 (RateLimiter.now c2)],
               {| RateLimiter.buckets :=
                    <["*" := RateLimiter.charged global c2]> (RateLimiter.buckets rl1);
                  RateLimiter.limits := RateLimiter.limits rl1 |})).
    { unfold result, RateLimiter.checkLimit. fold pattern.
      rewrite (consumeToken_some rl pattern c1 own Hown). fold rl1.
      now rewrite (consumeToken_some rl1 "*" c2 global Hglobal). }
    exists own, global. rewrite Hres. simpl.
    repeat split; try reflexivity; try assumption.
    + destruct (decide (pattern = "*")) as [He|Hne].
      * unfold RateLimiter.bucketFor in Hglobal. simpl in Hglobal.
        rewrite He, lookup_insert_eq in Hglobal. congruence.
      * unfold RateLimiter.bucketFor in Hglobal |- *. simpl in Hglobal.
        rewrite lookup_insert_ne in Hglobal by assumption. exact Hglobal.
    + apply Hwf2.
    + apply Hwf2.
  - intros rl endpoint now wake config bucket b1 b2 result.
    unfold result. rewrite clientCheckLimit_eq. cbn [fst snd].
    split; reflexivity.
Qed.

Lemma new_limiter_wf : RateLimiter.wf RateLimiter.new.
Proof.
  split; [reflexivity|]. intros pattern bucket H.
  cbn [RateLimiter.new RateLimiter.buckets] in H.
  rewrite lookup_empty in H. discriminate.
Qed.

Lemma C7_witness :
  RateLimiter.wf RateLimiter.new /\
  fst (fst (RateLimiter.checkLimit RateLimiter.new "/orders/123/" at_zero at_zero))
    = Ok tt /\
  RateLimiter.buckets
    (snd (RateLimiter.checkLimit RateLimiter.new "/orders/123/" at_zero at_zero))
  = <["*" := RateLimiter.charged (TokenBucket.new 100 30 0) at_zero]>
      (<["/orders/" := RateLimiter.charged (TokenBucket.new 10 2 0) at_zero]> ∅).
Proof.
  split; [exact new_limiter_wf|].
  destruct (proj1 C7_admission_charges_pattern_then_global
              RateLimiter.new "/orders/123/" at_zero at_zero new_limiter_wf)
    as (own & global & Hown & Hglobal & Hres & Hbuckets & _).
  split; [exact Hres|].
  change (RateLimiter.getEndpointPattern RateLimiter.new "/orders/123/")
    with "/orders/" in *.
  destruct (decide ("/orders/" = "*")) as [He|_]; [discriminate He|].
  injection Hown as <-. injection Hglobal as <-.
  exact Hbuckets.
Defined.

(** Against C7: in the limiter of the client an admission for
    [/orders/1/] touches the bucket of that endpoint string and nothing
    else, so that no global bucket pays; and a second request of the
    same scope, [/orders/2/], finds a full bucket of its own from which
    it takes its first token, while the bucket of the first request
    still holds nine. *)
Lemma C7_counterexample :
  let rl1 := snd (ClientRateLimiter.checkLimit ClientRateLimiter.new "/orders/1/" 0 0) in
  let rl2 := snd (ClientRateLimiter.checkLimit rl1 "/orders/2/" 0 0) in
  (forall key, key <> "/orders/1/" -> ClientRateLimiter.buckets rl1 !! key = None) /\
  (exists b1 b2,
     ClientRateLimiter.buckets rl2 !! "/orders/1/" = Some b1 /\
     ClientRateLimiter.buckets rl2 !! "/orders/2/" = Some b2 /\
     (ClientRateLimiter.tokens b1 == 9)%Q /\
     (ClientRateLimiter.tokens b2 == 9)%Q) /\
  ~ (exists scope global b1 b2,
       scope <> global /\
       ClientRateLimiter.buckets rl1 !! scope = Some b1 /\
       ClientRateLimiter.buckets rl1 !! global = Some b2).
Proof.
  intros rl1 rl2.
  assert (H1 : forall key, key <> "/orders/1/" ->
                           ClientRateLimiter.buckets rl1 !! key = None).
  { intros key Hne. unfold rl1.
    destruct (clientCheckLimit_buckets ClientRateLimiter.new "/orders/1/" 0 0)
      as [b ->].
    rewrite lookup_insert_ne by congruence. apply lookup_empty. }
  split; [exact H1|]. split.
  - eexists _, _. repeat split; try (vm_compute; reflexivity).
  - intros (scope & global & b1 & b2 & Hne & Hs & Hg).
    destruct (decide (scope = "/orders/1/")) as [->|Hs'].
    + rewrite H1 in Hg by congruence. discriminate.
    + rewrite H1 in Hs by assumption. discriminate.
Qed.




(** Callers that overlap.  On a bucket of one token that refills one
    token a second, a first caller takes the token; two more callers
    arrive while the bucket is empty and both go to sleep for the second
    in which a token comes.  When they wake, at the same reading of the
    clock, the first of them takes the token that has come and the
    second takes one that is not there: each has slept as long as it
    asked, and the bucket is left at minus one. *)
Example overlapping_callers_overdraw :
  let first := TokenBucket.start (TokenBucket.new 1 1 0) 1 0 in
  let second := TokenBucket.start (snd first) 1 0 in
  let third := TokenBucket.start (snd second) 1 0 in
  let second_done := TokenBucket.resume (snd third) 1 1000 in
  let third_done := TokenBucket.resume second_done 1 1000 in
  fst first = None /\
  (exists ms, fst second = Some (Fin ms) /\ (ms == 1000)%Q) /\
  (exists ms, fst third = Some (Fin ms) /\ (ms == 1000)%Q) /\
  (TokenBucket.tokens second_done == 0)%Q /\
  (TokenBucket.tokens third_done == -1)%Q.
Proof.
  cbv zeta. split; [reflexivity|].
  split; [eexists; split; [vm_compute; reflexivity|reflexivity]|].
  split; [eexists; split; [vm_compute; reflexivity|reflexivity]|].
  split; vm_compute; reflexivity.
Qed.

(** ** Cache manager *)

Lemma set_positive_ttl c key v ttl now now2 :
  0 < ttl ->
  CacheManager.set c key v (Some ttl) now now2 =
    (Ok tt,
     let c1 :=
       if CacheManager.enableL1 (CacheManager.config c)
       then CacheManager.with_l1 c
              (<[key := {| CacheManager.data := v;
                           CacheManager.expiresAt := now + Z.min ttl 60000 |}]>
                 (CacheManager.l1Cache c))
       else c in
     if CacheManager.enableL2 (CacheManager.config c)
     then CacheManager.with_redis c1
            (<[key := {| Redis.value := v;
                         Redis.expireAt := now2 + ttl * 1000 |}]>
               (CacheManager.redis c1))
     else c1).
Proof.
  intros Httl. unfold CacheManager.set, CacheManager.actualTTL, Redis.setex.
  destruct (Z.eqb_spec ttl 0); [lia|].
  destruct (Z.leb_spec ttl 0); [lia|].
  destruct (CacheManager.enableL2 (CacheManager.config c)); reflexivity.
Qed.

(** C2, as the code has it.  [set(k, v, ttl)] with a positive [ttl]
    resolves.  With the shared tier enabled, alone or with the local
    tier, a [get(k)] that Redis serves less than [ttl] seconds after the
    write returns [v].  With one tier only, a [get(k)] once [ttl] seconds
    have passed is a miss: the entry of Redis has expired, and the entry
    of the local tier expires [min(ttl, 60000)] milliseconds after the
    write. *)
Theorem C2_set_then_get :
  forall (c : CacheManager.t) (k : string) (v : Json) (ttl : Z)
         (t0 t0' t1 t1' : Z),
    0 < ttl ->
    let written := CacheManager.set c k v (Some ttl) t0 t0' in
    let read := fst (CacheManager.get (snd written) k t1 t1') in
    fst written = Ok tt /\
    (CacheManager.enableL2 (CacheManager.config c) = true ->
     t1' < t0' + ttl * 1000 -> read = v) /\
    (CacheManager.enableL1 (CacheManager.config c) = false ->
     CacheManager.enableL2 (CacheManager.config c) = true ->
     t0' + ttl * 1000 <= t1' -> read = JNull) /\
    (CacheManager.enableL1 (CacheManager.config c) = true ->
     CacheManager.enableL2 (CacheManager.config c) = false ->
     t0 + ttl * 1000 <= t1 -> read = JNull).
Proof.
  intros c k v ttl t0 t0' t1 t1' Httl written read.
  unfold read, written. rewrite set_positive_ttl by assumption.
  cbn [fst snd]. split; [reflexivity|].
  unfold CacheManager.get, CacheManager.l1Hit, Redis.get.
  destruct (CacheManager.enableL1 (CacheManager.config c)) eqn:H1;
    destruct (CacheManager.enableL2 (CacheManager.config c)) eqn:H2;
    cbn [CacheManager.config CacheManager.with_l1 CacheManager.with_redis
         CacheManager.l1Cache CacheManager.redis];
    rewrite ?H1, ?H2, ?lookup_insert_eq;
    cbn [CacheManager.data CacheManager.expiresAt Redis.value Redis.expireAt];
    repeat split; intros; try discriminate.
  - destruct (t1 <? t0 + Z.min ttl 60000); [reflexivity|].
    destruct (Z.ltb_spec t1' (t0' + ttl * 1000)); [reflexivity|lia].
  - destruct (Z.ltb_spec t1 (t0 + Z.min ttl 60000)); [lia|reflexivity].
  - destruct (Z.ltb_spec t1' (t0' + ttl * 1000)); [reflexivity|lia].
  - destruct (Z.ltb_spec t1' (t0' + ttl * 1000)); [lia|reflexivity].
Qed.

Lemma C2_witness :
  fst (CacheManager.get
         (snd (CacheManager.set (CacheManager.new shared_tier_only)
                 "quote:AAPL" aapl_quote (Some 10) 0 0))
         "quote:AAPL" 9999 9999) = aapl_quote /\
  fst (CacheManager.get
         (snd (CacheManager.set (CacheManager.new shared_tier_only)
                 "quote:AAPL" aapl_quote (Some 10) 0 0))
         "quote:AAPL" 10000 10000) = JNull.
Proof.
  assert (Hpos : 0 < 10) by lia.
  pose proof (C2_set_then_get (CacheManager.new shared_tier_only) "quote:AAPL"
                aapl_quote 10 0 0 9999 9999 Hpos) as (_ & Hhit & _).
  pose proof (C2_set_then_get (CacheManager.new shared_tier_only) "quote:AAPL"
                aapl_quote 10 0 0 10000 10000 Hpos) as (_ & _ & Hmiss & _).
  split.
  - apply Hhit; [reflexivity | lia].
  - apply Hmiss; [reflexivity | reflexivity | lia].
Defined.

(** Against C2, with both tiers enabled: a quote is written with a TTL of
    ten seconds; a read five seconds later is served by Redis and puts
    the value back in the local tier for a minute; a read twenty seconds
    after the write, when the TTL has long elapsed, still returns the
    value and not a miss. *)
Lemma C2_counterexample :
  let c1 := snd (CacheManager.set (CacheManager.new both_tiers)
                   "quote:AAPL" aapl_quote (Some 10) 0 0) in
  let '(v2, c2) := CacheManager.get c1 "quote:AAPL" 5000 5000 in
  let '(v3, _) := CacheManager.get c2 "quote:AAPL" 20000 20000 in
  v2 = aapl_quote /\ v3 = aapl_quote /\ v3 <> JNull.
Proof. vm_compute. repeat split. discriminate. Qed.

(** The local tier counts the TTL in milliseconds where Redis, the TTL
    table of the configuration and [setCache] of the client count it in
    seconds: with the local tier alone a value written for ten seconds
    is gone after ten milliseconds. *)
Example local_tier_expiry_in_milliseconds :
  let c1 := snd (CacheManager.set (CacheManager.new local_tier_only)
                   "quote:AAPL" aapl_quote (Some 10) 0 0) in
  fst (CacheManager.get c1 "quote:AAPL" 9 9) = aapl_quote /\
  fst (CacheManager.get c1 "quote:AAPL" 10 10) = JNull /\
  fst (ApiClient.getFromCache
         (ApiClient.setCache ∅ "quote:AAPL" aapl_quote 10 0) "quote:AAPL" 9999)
    = aapl_quote.
Proof. vm_compute. repeat split. Qed.

(** ** Cache invalidation *)

Lemma delete_other c key k :
  k <> key ->
  CacheManager.l1Cache (CacheManager.delete c key) !! k = CacheManager.l1Cache c !! k /\
  CacheManager.redis (CacheManager.delete c key) !! k = CacheManager.redis c !! k /\
  CacheManager.config (CacheManager.delete c key) = CacheManager.config c.
Proof.
  intros Hne. unfold CacheManager.delete, Redis.del.
  destruct (CacheManager.enableL2 (CacheManager.config c));
    cbn [CacheManager.with_l1 CacheManager.with_redis CacheManager.l1Cache
         CacheManager.redis CacheManager.config foldr];
    rewrite ?lookup_delete_ne by congruence; auto.
Qed.

Lemma get_depends_on_key c c' k now now2 :
  CacheManager.config c' = CacheManager.config c ->
  CacheManager.l1Cache c' !! k = CacheManager.l1Cache c !! k ->
  CacheManager.redis c' !! k = CacheManager.redis c !! k ->
  fst (CacheManager.get c' k now now2) = fst (CacheManager.get c k now now2).
Proof.
  intros Hc H1 H2.
  unfold CacheManager.get, CacheManager.l1Hit, Redis.get.
  rewrite Hc, H1, H2.
  destruct (CacheManager.enableL1 (CacheManager.config c));
    destruct (CacheManager.enableL2 (CacheManager.config c));
    repeat match goal with
           | |- context [match ?x with _ => _ end] => destruct x
           end; reflexivity.
Qed.

(** C3 on the code: the invalidation after an order passes the four
    patterns to [delete], which takes its argument for a key.  Every key
    other than the four pattern strings themselves is left in both tiers
    and is read back as before: an entry [positions:acct1] written a
    second earlier is still returned after the order-filled event. *)
Theorem C3_order_fill_invalidation_deletes_literal_keys :
  (forall (c : CacheManager.t) (symbol k : string) (now now2 : Z),
     ~ In k order_fill_patterns ->
     let c' := CacheInvalidationManager.invalidateOnEvent c
                 (CacheInvalidationManager.order_filled symbol) in
     CacheManager.l1Cache c' !! k = CacheManager.l1Cache c !! k /\
     CacheManager.redis c' !! k = CacheManager.redis c !! k /\
     fst (CacheManager.get c' k now now2) = fst (CacheManager.get c k now now2)) /\
  (let c1 := snd (CacheManager.set (CacheManager.new both_tiers)
                    "positions:acct1" (JNum 10) (Some 60) 0 0) in
   let c2 := CacheInvalidationManager.invalidateOnEvent c1
               (CacheInvalidationManager.order_filled "AAPL") in
   Pattern.glob (Pattern.parse "positions:*") "positions:acct1" = true /\
   fst (CacheManager.get c2 "positions:acct1" 1000 1000) = JNum 10).
Proof.
  split.
  - intros c symbol k now now2 Hk c'.
    assert (Hne : k <> "positions:*" /\ k <> "portfolio:*" /\
                  k <> "orders:*" /\ k <> "balance:*").
    { unfold order_fill_patterns in Hk. simpl in Hk. intuition congruence. }
    destruct Hne as (N1 & N2 & N3 & N4).
    assert (H : CacheManager.l1Cache c' !! k = CacheManager.l1Cache c !! k /\
                CacheManager.redis c' !! k = CacheManager.redis c !! k /\
                CacheManager.config c' = CacheManager.config c).
    { unfold c', CacheInvalidationManager.invalidateOnEvent,
        CacheInvalidationManager.invalidateAfterOrder.
      destruct (delete_other c "positions:*" k N1) as (A1 & B1 & C1).
      destruct (delete_other (CacheManager.delete c "positions:*")
                  "portfolio:*" k N2) as (A2 & B2 & C2).
      destruct (delete_other
                  (CacheManager.delete (CacheManager.delete c "positions:*")
                     "portfolio:*") "orders:*" k N3) as (A3 & B3 & C3).
      destruct (delete_other
                  (CacheManager.delete
                     (CacheManager.delete (CacheManager.delete c "positions:*")
                        "portfolio:*") "orders:*") "balance:*" k N4)
        as (A4 & B4 & C4).
      repeat split; congruence. }
    destruct H as (A & B & C). repeat split; try assumption.
    now apply get_depends_on_key.
  - vm_compute. split; reflexivity.
Qed.

Lemma C3_witness :
  CacheManager.l1Cache
    (CacheInvalidationManager.invalidateOnEvent
       (snd (CacheManager.set (CacheManager.new both_tiers)
               "positions:acct1" (JNum 10) (Some 60) 0 0))
       (CacheInvalidationManager.order_filled "AAPL")) !! "positions:acct1"
  = CacheManager.l1Cache
      (snd (CacheManager.set (CacheManager.new both_tiers)
              "positions:acct1" (JNum 10) (Some 60) 0 0)) !! "positions:acct1".
Proof.
  apply (proj1 C3_order_fill_invalidation_deletes_literal_keys
           _ "AAPL" "positions:acct1" 0 0).
  unfold order_fill_patterns. simpl. intuition discriminate.
Defined.

(** The two matchers of [clear(pattern)] disagree: Redis matches the
    whole key against the glob, the local tier searches the key for the
    regular expression.  A key that only contains [positions:] is taken
    out of the local tier and stays in Redis. *)
Example clear_matchers_disagree :
  Pattern.glob (Pattern.parse "positions:*") "old:positions:1" = false /\
  CacheManager.matchesPattern "old:positions:1" "positions:*" = Ok true /\
  let c1 := snd (CacheManager.set (CacheManager.new both_tiers)
                   "old:positions:1" (JNum 7) (Some 60) 0 0) in
  let c2 := snd (CacheManager.clear c1 (Some "positions:*") 10) in
  CacheManager.l1Cache c2 !! "old:positions:1" = None /\
  Redis.get (CacheManager.redis c2) 10 "old:positions:1" = Some (JNum 7).
Proof. vm_compute. repeat split. Qed.

(** ** API client: errors *)

Lemma refreshToken_throws am :
  refresh_state_ok am ->
  exists msg am',
    AuthManager.refreshToken am = (Throw (JsError msg), am') /\
    (msg = "No refresh token available" \/
     msg = "Token refresh not implemented - using manual token from .env").
Proof.
  intros [H|H]; unfold AuthManager.refreshToken; rewrite H.
  - destruct (negb (AuthManager.hasRefreshToken am)).
    + eexists _, _. split; [reflexivity|]. now left.
    + eexists _, _. split; [reflexivity|]. now right.
  - eexists _, _. split; [reflexivity|]. now right.
Qed.

(** C5, as the code has it.  For a response with status 401
    [handleError] does not throw the error of the response: it calls
    [authManager.refreshToken()], after which it would send the request
    again.  In this code base the refresh always throws (there is no
    refresh token, or the refresh is not implemented), so the caller gets
    the error of the refresh, a plain [Error] without the status, and
    the request is not sent again: the world of the transport is as it
    was.  A response whose status is none of 401, 429, 500, 502, 503 and
    504 is thrown at once as an [ApiError] that carries the status. *)
Theorem C5_auth_rejection_surfaces_refresh_failure :
  forall (W : Type)
         (axios_request :
            Request -> AuthManager.t -> W -> Result Response * AuthManager.t * W)
         (sleep : Z -> W -> W)
         (resp : Response) (config : Request) (am : AuthManager.t) (w : W),
    (status resp = 401 ->
     refresh_state_ok am ->
     exists msg am',
       AuthManager.refreshToken am = (Throw (JsError msg), am') /\
       ApiClient.handleError axios_request sleep
         (AxiosError (Some resp) config) am w
       = (Throw (JsError msg), am', w) /\
       JsError msg <> ApiClient.apiError resp) /\
    (status resp <> 401 -> status resp <> 429 ->
     ApiClient.isServerError (status resp) = false ->
     ApiClient.handleError axios_request sleep
       (AxiosError (Some resp) config) am w
     = (Throw (ApiClient.apiError resp), am, w)).
Proof.
  intros W axios_request sleep resp config am w. split.
  - intros Hs Hok.
    destruct (refreshToken_throws am Hok) as (msg & am' & Hr & _).
    exists msg, am'. split; [exact Hr|]. split; [|discriminate].
    unfold ApiClient.handleError. now rewrite Hs, Hr.
  - intros H401 H429 H5xx. unfold ApiClient.handleError.
    destruct (Z.eqb_spec (status resp) 401); [contradiction|].
    destruct (Z.eqb_spec (status resp) 429); [contradiction|].
    now rewrite H5xx.
Qed.

Lemma C5_witness :
  exists msg am',
    AuthManager.refreshToken manual_token = (Throw (JsError msg), am') /\
    ApiClient.handleError recording_request no_sleep
      (AxiosError (Some (rejected 401)) get_account) manual_token []
    = (Throw (JsError msg), am', []) /\
    JsError msg <> ApiClient.apiError (rejected 401).
Proof.
  apply (proj1 (C5_auth_rejection_surfaces_refresh_failure
                  (list Request) recording_request no_sleep
                  (rejected 401) get_account manual_token [])).
  - reflexivity.
  - left. reflexivity.
Defined.

(** Against C5: the 401 is not what the caller receives.  With the token
    of the environment the caller of a request that was answered 401
    gets [Error('No refresh token available')], the outcome of the
    refresh that [handleError] started, where a 403 is thrown as
    [ApiError('API Error: 403', 403, data)]. *)
Lemma C5_counterexample :
  ApiClient.handleError recording_request no_sleep
    (AxiosError (Some (rejected 401)) get_account) manual_token []
  = (Throw (JsError "No refresh token available"), manual_token, []) /\
  fst (fst (ApiClient.handleError recording_request no_sleep
              (AxiosError (Some (rejected 401)) get_account) manual_token []))
  <> Throw (ApiError "API Error: 401" 401 (data (rejected 401))) /\
  ApiClient.handleError recording_request no_sleep
    (AxiosError (Some (rejected 403)) get_account) manual_token []
  = (Throw (ApiError "API Error: 403" 403 (data (rejected 403))),
     manual_token, []).
Proof.
  repeat split.
  intros H. vm_compute in H. discriminate H.
Qed.

(** ** Trading service *)

Lemma validateOrder_ok order :
  TradingService.validateOrder order = Ok tt <->
  TradingService.symbol order <> "" /\
  TradingService.quantity order <> "" /\
  leZero (parseFloat (TradingService.quantity order)) = false /\
  (TradingService.type order = TradingService.limit ->
   missing (TradingService.price order) = false) /\
  (TradingService.type order = TradingService.stop_loss ->
   missing (TradingService.stop_price order) = false).
Proof.
  unfold TradingService.validateOrder.
  destruct (String.eqb_spec (TradingService.symbol order) "") as [Hs|Hs].
  { split; [discriminate | intros (H & _); contradiction]. }
  destruct (String.eqb_spec (TradingService.quantity order) "") as [Hq|Hq].
  { split; [discriminate | intros (_ & H & _); contradiction]. }
  destruct (leZero (parseFloat (TradingService.quantity order))) eqn:Hz.
  { split; [discriminate | intros (_ & _ & H & _); discriminate]. }
  cbn [orb].
  destruct (TradingService.type order) eqn:Ht.
  - split; [intros _; repeat split; auto; discriminate | reflexivity].
  - destruct (missing (TradingService.price order)).
    + split; [discriminate | intros (_ & _ & _ & H & _)].
      specialize (H eq_refl). discriminate.
    + split; [intros _; repeat split; auto; discriminate | reflexivity].
  - destruct (missing (TradingService.stop_price order)).
    + split; [discriminate | intros (_ & _ & _ & _ & H)].
      specialize (H eq_refl). discriminate.
    + split; [intros _; repeat split; auto; discriminate | reflexivity].
  - split; [intros _; repeat split; auto; discriminate | reflexivity].
Qed.

(** C1, as the code has it.  [placeOrder] checks the shape of the
    request and nothing else.  A request with a symbol, with a quantity
    that [parseFloat] does not read as zero or less, with a price if it
    is a limit order and a stop price if it is a stop-loss order, is
    posted to [/orders/], whatever the buying power of the account and
    the price of the symbol, which [placeOrder] never reads; any other
    request is rejected with the error of the validation and is not
    posted: the world of the client is as it was.  (The check of the
    buying power exists as the signature
    [RiskManager.validateBuyingPower] of the trading-service package,
    which is not written.) *)
Theorem C1_placeOrder_posts_every_valid_order :
  forall (W : Type) (post : string -> Json -> W -> Result Json * W)
         (request : TradingService.OrderRequest) (w : W),
    (TradingService.symbol request <> "" ->
     TradingService.quantity request <> "" ->
     leZero (parseFloat (TradingService.quantity request)) = false ->
     (TradingService.type request = TradingService.limit ->
      missing (TradingService.price request) = false) ->
     (TradingService.type request = TradingService.stop_loss ->
      missing (TradingService.stop_price request) = false) ->
     TradingService.placeOrder post request w
     = post "/orders/" (TradingService.toJson request) w) /\
    (forall e,
       TradingService.validateOrder request = Throw e ->
       TradingService.placeOrder post request w = (Throw e, w)) /\
    (TradingService.type request = TradingService.market ->
     TradingService.side request = TradingService.buy ->
     TradingService.symbol request <> "" ->
     forall quantity,
       parseFloat (TradingService.quantity request) = Val quantity ->
       (0 < quantity)%Q ->
       TradingService.placeOrder post request w
       = post "/orders/" (TradingService.toJson request) w).
Proof.
  intros W post request w. unfold TradingService.placeOrder.
  split; [|split].
  - intros H1 H2 H3 H4 H5.
    assert (H : TradingService.validateOrder request = Ok tt)
      by (apply validateOrder_ok; auto).
    now rewrite H.
  - intros e H. now rewrite H.
  - intros Ht Hside Hsym quantity Hq Hpos.
    assert (H : TradingService.validateOrder request = Ok tt).
    { apply validateOrder_ok. repeat split.
      - exact Hsym.
      - intros He. rewrite He in Hq. discriminate Hq.
      - rewrite Hq. simpl.
        destruct (Qle_bool quantity 0) eqn:Hle; [|reflexivity].
        apply Qle_bool_iff in Hle. lra.
      - rewrite Ht. discriminate.
      - rewrite Ht. discriminate. }
    now rewrite H.
Qed.

Lemma C1_witness :
  TradingService.placeOrder recording_post buy_10_aapl []
  = recording_post "/orders/" (TradingService.toJson buy_10_aapl) [].
Proof.
  apply (proj2 (proj2 (C1_placeOrder_posts_every_valid_order
                         _ recording_post buy_10_aapl [])))
    with (quantity := 10%Q).
  - reflexivity.
  - reflexivity.
  - discriminate.
  - reflexivity.
  - reflexivity.
Defined.

(** Against C1: the market buy of 10 AAPL of the scenario, with a quote
    of 150 and a buying power of 1000.  The estimated cost, 1500, is
    above the buying power, and [placeOrder] resolves with the order
    after posting it to [/orders/]. *)
Lemma C1_counterexample :
  let quote := 150%Q in
  let buyingPower := 1000%Q in
  (exists quantity,
     parseFloat (TradingService.quantity buy_10_aapl) = Val quantity /\
     (buyingPower < quantity * quote)%Q) /\
  TradingService.side buy_10_aapl = TradingService.buy /\
  TradingService.type buy_10_aapl = TradingService.market /\
  TradingService.placeOrder recording_post buy_10_aapl []
  = (Ok (JObj [("id", JStr "order-1"); ("state", JStr "queued")]),
     [("/orders/", TradingService.toJson buy_10_aapl)]).
Proof.
  repeat split.
  eexists. split; [vm_compute; reflexivity|]. reflexivity.
Qed.

(** ** Callers of the resilient [get] that overlap *)

Lemma gate_not_open cb now :
  CircuitBreaker.state cb <> CircuitBreaker.OPEN ->
  CircuitBreaker.gate cb now = Some cb.
Proof.
  unfold CircuitBreaker.gate.
  destruct (CircuitBreaker.state cb); congruence.
Qed.

Lemma call_not_open cl now :
  CircuitBreaker.state (ResilientApiClient.circuitBreaker cl) <> CircuitBreaker.OPEN ->
  ResilientApiClient.call cl now = Some cl.
Proof.
  intros H. unfold ResilientApiClient.call. rewrite gate_not_open by assumption.
  now destruct cl.
Qed.

(** The two pieces into which [circuitBreaker.execute] is cut, run one
    after the other, are [execute]. *)
Lemma call_then_settle_is_execute cl url params cacheTTL reply now t t2 :
  let executed :=
    CircuitBreaker.execute (fun w : Z => w)
      (ResilientApiClient.circuitBreaker cl) (fun _ => (reply, t)) now in
  match ResilientApiClient.call cl now with
  | Some cl1 =>
      ResilientApiClient.circuitBreaker
        (snd (ResilientApiClient.settle cl1 url params cacheTTL reply t t2))
      = snd (fst executed)
  | None =>
      executed = (Throw CircuitBreaker.breaker_open_error,
                  ResilientApiClient.circuitBreaker cl, now)
  end.
Proof.
  unfold ResilientApiClient.call, CircuitBreaker.execute.
  destruct (CircuitBreaker.gate (ResilientApiClient.circuitBreaker cl) now)
    as [cb1|]; [|reflexivity].
  unfold ResilientApiClient.settle.
  cbn [ResilientApiClient.circuitBreaker ResilientApiClient.cache
       ResilientApiClient.rateLimiter].
  destruct reply as [response|e]; [|reflexivity].
  destruct (ResilientApiClient.caching cacheTTL); [|reflexivity].
  destruct (CacheManager.set _ _ _ _ _ _) as [r c']. reflexivity.
Qed.

Lemma step_call s i tk now :
  ResilientApiClient.tasks s !! i = Some tk ->
  ResilientApiClient.pc tk = ResilientApiClient.AtCall ->
  CircuitBreaker.state
    (ResilientApiClient.circuitBreaker (ResilientApiClient.client s))
    <> CircuitBreaker.OPEN ->
  ResilientApiClient.step s (ResilientApiClient.Call i now) =
    {| ResilientApiClient.client := ResilientApiClient.client s;
       ResilientApiClient.tasks :=
         <[i := ResilientApiClient.at_pc tk ResilientApiClient.InFlight]>
           (ResilientApiClient.tasks s);
       ResilientApiClient.upstream :=
         (ResilientApiClient.upstream s ++
          [ResilientApiClient.getRequest (ResilientApiClient.t_url tk)
             (ResilientApiClient.t_params tk)])%list |}.
Proof.
  intros Htk Hpc Hcb.
  unfold ResilientApiClient.step, ResilientApiClient.resume.
  cbn [ResilientApiClient.task_of]. rewrite Htk, Hpc.
  now rewrite call_not_open by assumption.
Qed.

Lemma calls_all_reach_upstream url params (times : nat -> Z) ids : forall s,
  List.NoDup ids ->
  CircuitBreaker.state
    (ResilientApiClient.circuitBreaker (ResilientApiClient.client s))
    <> CircuitBreaker.OPEN ->
  (forall i, In i ids ->
     exists tk,
       ResilientApiClient.tasks s !! i = Some tk /\
       ResilientApiClient.pc tk = ResilientApiClient.AtCall /\
       ResilientApiClient.t_url tk = url /\
       ResilientApiClient.t_params tk = params) ->
  ResilientApiClient.upstream
    (ResilientApiClient.run s
       (List.map (fun i => ResilientApiClient.Call i (times i)) ids))
  = (ResilientApiClient.upstream s
     ++ repeat (ResilientApiClient.getRequest url params) (length ids))%list.
Proof.
  induction ids as [|i ids IH]; intros s Hnd Hcb Hall.
  - simpl. now rewrite app_nil_r.
  - apply List.NoDup_cons_iff in Hnd as [Hni Hnd].
    destruct (Hall i (or_introl eq_refl)) as (tk & Htk & Hpc & Hu & Hp).
    cbn [List.map ResilientApiClient.run fold_left].
    rewrite (step_call s i tk (times i) Htk Hpc Hcb).
    fold (ResilientApiClient.run).
    change (fold_left ResilientApiClient.step ?evs ?s0)
      with (ResilientApiClient.run s0 evs).
    rewrite IH; cbn [ResilientApiClient.client ResilientApiClient.tasks
                       ResilientApiClient.upstream].
    + rewrite Hu, Hp. rewrite <- app_assoc. reflexivity.
    + exact Hnd.
    + exact Hcb.
    + intros j Hj. destruct (Hall j (or_intror Hj)) as (tkj & Hj1 & Hj2).
      exists tkj. split; [|exact Hj2].
      rewrite list_lookup_insert_ne; [exact Hj1|].
      intros ->. contradiction.
Qed.

(** C8, as the code has it.  [get] keeps no record of the requests in
    flight.  A caller that has missed the cache and has been let in
    by the rate limiter calls the transport as soon as the breaker lets
    it through, whether or not the same request is already in flight:
    callers that overlap in this way, however many, make one upstream
    call each.  The other pieces of [get] make no upstream call, and a
    caller whose lookup finds a truthy value returns it without calling
    the transport: this is the only way in which a call is saved. *)
Theorem C8_no_single_flight :
  (forall (url params : string) (times : nat -> Z) (ids : list nat)
          (s : ResilientApiClient.System),
     List.NoDup ids ->
     CircuitBreaker.state
       (ResilientApiClient.circuitBreaker (ResilientApiClient.client s))
       <> CircuitBreaker.OPEN ->
     (forall i, In i ids ->
        exists tk,
          ResilientApiClient.tasks s !! i = Some tk /\
          ResilientApiClient.pc tk = ResilientApiClient.AtCall /\
          ResilientApiClient.t_url tk = url /\
          ResilientApiClient.t_params tk = params) ->
     ResilientApiClient.upstream
       (ResilientApiClient.run s
          (List.map (fun i => ResilientApiClient.Call i (times i)) ids))
     = (ResilientApiClient.upstream s
        ++ repeat (ResilientApiClient.getRequest url params) (length ids))%list) /\
  (forall (s : ResilientApiClient.System) (ev : ResilientApiClient.Event),
     (forall i now, ev <> ResilientApiClient.Call i now) ->
     ResilientApiClient.upstream (ResilientApiClient.step s ev)
     = ResilientApiClient.upstream s) /\
  (forall (s : ResilientApiClient.System) (i : nat) (tk : ResilientApiClient.Task)
          (now now2 : Z) (cached : Json) (cl' : ResilientApiClient.t),
     ResilientApiClient.tasks s !! i = Some tk ->
     ResilientApiClient.pc tk = ResilientApiClient.AtLookup ->
     ResilientApiClient.lookup (ResilientApiClient.client s)
       (ResilientApiClient.t_url tk) (ResilientApiClient.t_params tk)
       (ResilientApiClient.t_cacheTTL tk) now now2 = (Some cached, cl') ->
     ResilientApiClient.step s (ResilientApiClient.Lookup i now now2) =
       {| ResilientApiClient.client := cl';
          ResilientApiClient.tasks :=
            <[i := ResilientApiClient.at_pc tk
                     (ResilientApiClient.Returned (Ok cached))]>
              (ResilientApiClient.tasks s);
          ResilientApiClient.upstream := ResilientApiClient.upstream s |}).
Proof.
  split; [|split].
  - intros. now apply calls_all_reach_upstream.
  - intros s ev Hev. unfold ResilientApiClient.step.
    destruct (ResilientApiClient.tasks s !! ResilientApiClient.task_of ev)
      as [tk|]; [|reflexivity].
    assert (Hsent : snd (ResilientApiClient.resume s tk ev) = []).
    { unfold ResilientApiClient.resume.
      destruct ev as [i now now2|i c1 c2|i now|i reply now now2];
        destruct (ResilientApiClient.pc tk); try reflexivity.
      - destruct (ResilientApiClient.lookup _ _ _ _ _ _) as [[v|] cl']; reflexivity.
      - destruct (ResilientApiClient.acquire _ _ _ _) as [[u|e] cl']; reflexivity.
      - exfalso. now apply (Hev i now).
      - destruct (ResilientApiClient.settle _ _ _ _ _ _ _) as [r cl']; reflexivity. }
    destruct (ResilientApiClient.resume s tk ev) as [[cl' p] sent].
    simpl in Hsent. subst sent. cbn [ResilientApiClient.upstream].
    apply app_nil_r.
  - intros s i tk now now2 cached cl' Htk Hpc Hl.
    unfold ResilientApiClient.step, ResilientApiClient.resume.
    cbn [ResilientApiClient.task_of]. rewrite Htk, Hpc, Hl.
    now rewrite app_nil_r.
Qed.

Lemma C8_witness :
  ResilientApiClient.upstream
    (ResilientApiClient.run
       (ResilientApiClient.run three_callers lookups_and_admissions)
       (List.map (fun i => ResilientApiClient.Call i 2) [0; 1; 2]%nat))
  = (ResilientApiClient.upstream
       (ResilientApiClient.run three_callers lookups_and_admissions)
     ++ repeat (ResilientApiClient.getRequest "/quotes/AAPL/" "") 3)%list.
Proof.
  apply (proj1 C8_no_single_flight "/quotes/AAPL/" "" (fun _ => 2)
           [0; 1; 2]%nat
           (ResilientApiClient.run three_callers lookups_and_admissions)).
  - repeat constructor; simpl; intuition discriminate.
  - vm_compute. discriminate.
  - intros i [<-|[<-|[<-|[]]]]; eexists; repeat split; vm_compute; reflexivity.
Defined.

(** Against C8: three callers ask for the quote of AAPL while nothing is
    cached.  Each misses the cache, is let in by the limiter and reaches the
    transport before the first answer is back: the transport is called
    three times, not once.  (All three then return the quote.) *)
Lemma C8_counterexample :
  let s := ResilientApiClient.run three_callers
             (lookups_and_admissions
              ++ [ ResilientApiClient.Call 0 2;
                   ResilientApiClient.Call 1 2;
                   ResilientApiClient.Call 2 2 ]
              ++ settlements)%list in
  length (ResilientApiClient.upstream s) = 3%nat /\
  length (ResilientApiClient.upstream s) <> 1%nat /\
  List.map ResilientApiClient.pc (ResilientApiClient.tasks s)
  = [ ResilientApiClient.Returned (Ok aapl_quote);
      ResilientApiClient.Returned (Ok aapl_quote);
      ResilientApiClient.Returned (Ok aapl_quote) ].
Proof. vm_compute. repeat split. discriminate. Qed.

(** One caller alone: a miss, one call of the transport, the quote
    returned and stored in both tiers. *)
Example one_caller_alone :
  let s := ResilientApiClient.get fresh_client "/quotes/AAPL/" "" (Some 10)
             quote_reply
             {| ResilientApiClient.tLookup := 0; ResilientApiClient.tLookup2 := 1;
                ResilientApiClient.tAcquire1 := at_zero;
                ResilientApiClient.tAcquire2 := at_zero;
                ResilientApiClient.tCall := 2;
                ResilientApiClient.tSettle := 40; ResilientApiClient.tSettle2 := 41 |} in
  ResilientApiClient.upstream s
    = [ResilientApiClient.getRequest "/quotes/AAPL/" ""] /\
  List.map ResilientApiClient.pc (ResilientApiClient.tasks s)
    = [ResilientApiClient.Returned (Ok aapl_quote)] /\
  fst (CacheManager.get (ResilientApiClient.cache (ResilientApiClient.client s))
         "GET:/quotes/AAPL/:" 5000 5001) = aapl_quote.
Proof. vm_compute. repeat split. Qed.

(** Callers that do not overlap: the second starts when the first has
    returned, finds the quote in the cache and makes no call. *)
Example second_caller_after_the_first :
  let s :=
    ResilientApiClient.run
      {| ResilientApiClient.client := fresh_client;
         ResilientApiClient.tasks := [quote_task; quote_task];
         ResilientApiClient.upstream := [] |}
      [ ResilientApiClient.Lookup 0 0 1;
        ResilientApiClient.Acquire 0 at_zero at_zero;
        ResilientApiClient.Call 0 2;
        ResilientApiClient.Settle 0 quote_reply 40 41;
        ResilientApiClient.Lookup 1 5000 5001 ] in
  length (ResilientApiClient.upstream s) = 1%nat /\
  List.map ResilientApiClient.pc (ResilientApiClient.tasks s)
  = [ ResilientApiClient.Returned (Ok aapl_quote);
      ResilientApiClient.Returned (Ok aapl_quote) ].
Proof. vm_compute. repeat split. Qed.

(** * Further properties of the code *)

(** ** Cache manager: deletion, clearing, clean-up *)

Lemma get_miss_when_absent c key now now2 :
  CacheManager.l1Cache c !! key = None ->
  (CacheManager.enableL2 (CacheManager.config c) = true ->
   CacheManager.redis c !! key = None) ->
  CacheManager.get c key now now2 = (JNull, c).
Proof.
  intros H1 H2. unfold CacheManager.get, CacheManager.l1Hit, Redis.get.
  rewrite H1.
  destruct (CacheManager.enableL1 (CacheManager.config c));
    destruct (CacheManager.enableL2 (CacheManager.config c));
    try reflexivity; now rewrite H2.
Qed.

(** [delete(key)] followed by [get(key)] is a miss, in every
    configuration and from every state of the two tiers, and [delete]
    changes the answer of [get] for no other key. *)
Theorem delete_then_get_is_a_miss :
  forall (c : CacheManager.t) (key : string) (now now2 : Z),
    CacheManager.get (CacheManager.delete c key) key now now2
      = (JNull, CacheManager.delete c key) /\
    (forall k, k <> key ->
       fst (CacheManager.get (CacheManager.delete c key) k now now2)
       = fst (CacheManager.get c k now now2)).
Proof.
  intros c key now now2. split.
  - apply get_miss_when_absent.
    + unfold CacheManager.delete.
      destruct (CacheManager.enableL2 (CacheManager.config c));
        cbn [CacheManager.with_l1 CacheManager.with_redis CacheManager.l1Cache];
        apply lookup_delete_eq.
    + unfold CacheManager.delete, Redis.del.
      destruct (CacheManager.enableL2 (CacheManager.config c)) eqn:H2.
      * intros _. cbn [CacheManager.with_l1 CacheManager.with_redis
                         CacheManager.redis foldr].
        apply lookup_delete_eq.
      * cbn [CacheManager.with_l1 CacheManager.config]. congruence.
  - intros k Hk. destruct (delete_other c key k Hk) as (A & B & C).
    now apply get_depends_on_key.
Qed.

(** [clear()] without a pattern, or with the empty string for pattern,
    resolves and leaves nothing to read: every [get] that follows is a
    miss. *)
Theorem clear_without_pattern_empties_the_cache :
  forall (c : CacheManager.t) (pattern : option string) (key : string)
         (now t t2 : Z),
    pattern = None \/ pattern = Some "" ->
    fst (CacheManager.clear c pattern now) = Ok tt /\
    fst (CacheManager.get (snd (CacheManager.clear c pattern now)) key t t2)
      = JNull.
Proof.
  intros c pattern key now t t2 Hp.
  assert (H : CacheManager.clear c pattern now =
              (Ok tt,
               if CacheManager.enableL2 (CacheManager.config c)
               then CacheManager.with_redis (CacheManager.with_l1 c ∅)
                      (Redis.flushdb (CacheManager.redis (CacheManager.with_l1 c ∅)))
               else CacheManager.with_l1 c ∅))
    by (destruct Hp as [-> | ->]; reflexivity).
  rewrite H. cbn [fst snd]. split; [reflexivity|].
  rewrite get_miss_when_absent; [reflexivity| |].
  - destruct (CacheManager.enableL2 (CacheManager.config c)); apply lookup_empty.
  - destruct (CacheManager.enableL2 (CacheManager.config c)) eqn:H2.
    + intros _. apply lookup_empty.
    + cbn [CacheManager.with_l1 CacheManager.config]. congruence.
Qed.

Lemma clear_without_pattern_witness :
  fst (CacheManager.get
         (snd (CacheManager.clear
                 (snd (CacheManager.set (CacheManager.new both_tiers)
                         "quote:AAPL" aapl_quote (Some 10) 0 0))
                 None 5))
         "quote:AAPL" 6 7) = JNull.
Proof.
  apply (clear_without_pattern_empties_the_cache _ None "quote:AAPL" 5 6 7).
  left. reflexivity.
Defined.

(** The periodic [cleanupL1] is invisible to readers: it removes from
    the local tier the entries that have expired when it runs, and
    nothing else, so that a [get] at the same or a later clock reading
    returns what it would have returned without the clean-up. *)
Theorem cleanupL1_is_invisible :
  forall (c : CacheManager.t) (cleaned : Z),
    (forall key e,
       CacheManager.l1Cache (CacheManager.cleanupL1 c cleaned) !! key = Some e <->
       CacheManager.l1Cache c !! key = Some e /\ cleaned < CacheManager.expiresAt e) /\
    CacheManager.redis (CacheManager.cleanupL1 c cleaned) = CacheManager.redis c /\
    (forall key now now2,
       cleaned <= now ->
       fst (CacheManager.get (CacheManager.cleanupL1 c cleaned) key now now2)
       = fst (CacheManager.get c key now now2)).
Proof.
  intros c cleaned.
  assert (Hl : forall key e,
             CacheManager.l1Cache (CacheManager.cleanupL1 c cleaned) !! key = Some e <->
             CacheManager.l1Cache c !! key = Some e /\
             cleaned < CacheManager.expiresAt e).
  { intros key e. unfold CacheManager.cleanupL1.
    cbn [CacheManager.with_l1 CacheManager.l1Cache].
    rewrite map_lookup_filter_Some. reflexivity. }
  split; [exact Hl|]. split; [reflexivity|].
  intros key now now2 Hnow.
  unfold CacheManager.get, CacheManager.l1Hit.
  change (CacheManager.config (CacheManager.cleanupL1 c cleaned))
    with (CacheManager.config c).
  change (CacheManager.redis (CacheManager.cleanupL1 c cleaned))
    with (CacheManager.redis c).
  assert (Hhit :
            match CacheManager.l1Cache (CacheManager.cleanupL1 c cleaned) !! key with
            | Some l1Value =>
                if now <? CacheManager.expiresAt l1Value
                then Some (CacheManager.data l1Value) else None
            | None => None
            end
            = match CacheManager.l1Cache c !! key with
              | Some l1Value =>
                  if now <? CacheManager.expiresAt l1Value
                  then Some (CacheManager.data l1Value) else None
              | None => None
              end).
  { destruct (CacheManager.l1Cache c !! key) as [e|] eqn:He.
    - destruct (Z.ltb_spec now (CacheManager.expiresAt e)) as [Hlt|Hge].
      + assert (Hk : CacheManager.l1Cache (CacheManager.cleanupL1 c cleaned) !! key
                     = Some e) by (apply Hl; split; [assumption | lia]).
        rewrite Hk. destruct (Z.ltb_spec now (CacheManager.expiresAt e)); [reflexivity|lia].
      + destruct (CacheManager.l1Cache (CacheManager.cleanupL1 c cleaned) !! key)
          as [e'|] eqn:He'; [|reflexivity].
        apply Hl in He' as [He' _]. rewrite He in He'. injection He' as <-.
        destruct (Z.ltb_spec now (CacheManager.expiresAt e)); [lia|reflexivity].
    - destruct (CacheManager.l1Cache (CacheManager.cleanupL1 c cleaned) !! key)
        as [e'|] eqn:He'; [|reflexivity].
      apply Hl in He' as [He' _]. rewrite He in He'. discriminate. }
  destruct (CacheManager.enableL1 (CacheManager.config c)).
  - rewrite Hhit.
    destruct (match CacheManager.l1Cache c !! key with
              | Some l1Value => _ | None => None end); [reflexivity|].
    destruct (CacheManager.enableL2 (CacheManager.config c)); [|reflexivity].
    destruct (Redis.get (CacheManager.redis c) now2 key); reflexivity.
  - destruct (CacheManager.enableL2 (CacheManager.config c)); [|reflexivity].
    destruct (Redis.get (CacheManager.redis c) now2 key); reflexivity.
Qed.

Lemma cleanupL1_witness :
  fst (CacheManager.get
         (CacheManager.cleanupL1
            (snd (CacheManager.set (CacheManager.new both_tiers)
                    "quote:AAPL" aapl_quote (Some 10) 0 0)) 5000)
         "quote:AAPL" 6000 6001)
  = fst (CacheManager.get
           (snd (CacheManager.set (CacheManager.new both_tiers)
                   "quote:AAPL" aapl_quote (Some 10) 0 0))
           "quote:AAPL" 6000 6001).
Proof.
  apply (proj2 (proj2 (cleanupL1_is_invisible _ 5000))). lia.
Defined.

Lemma delete_then_get_witness :
  fst (CacheManager.get
         (CacheManager.delete
            (snd (CacheManager.set
                    (snd (CacheManager.set (CacheManager.new both_tiers)
                            "quote:AAPL" aapl_quote (Some 10) 0 0))
                    "quote:MSFT" (JNum 3) (Some 10) 0 0))
            "quote:MSFT")
         "quote:AAPL" 100 101)
  = fst (CacheManager.get
           (snd (CacheManager.set
                   (snd (CacheManager.set (CacheManager.new both_tiers)
                           "quote:AAPL" aapl_quote (Some 10) 0 0))
                   "quote:MSFT" (JNum 3) (Some 10) 0 0))
           "quote:AAPL" 100 101).
Proof.
  apply (proj2 (delete_then_get_is_a_miss _ "quote:MSFT" 100 101)).
  discriminate.
Defined.

(** ** Cache manager: one key does not disturb another *)

Lemma set_other c key v ttl now now2 k :
  k <> key ->
  let c' := snd (CacheManager.set c key v ttl now now2) in
  CacheManager.config c' = CacheManager.config c /\
  CacheManager.l1Cache c' !! k = CacheManager.l1Cache c !! k /\
  CacheManager.redis c' !! k = CacheManager.redis c !! k.
Proof.
  intros Hk. unfold CacheManager.set, Redis.setex.
  destruct (CacheManager.enableL1 (CacheManager.config c));
    destruct (CacheManager.enableL2 (CacheManager.config c));
    cbn [CacheManager.with_l1 CacheManager.config CacheManager.redis];
    try destruct (_ <=? 0);
    cbn [snd CacheManager.with_l1 CacheManager.with_redis CacheManager.config
         CacheManager.l1Cache CacheManager.redis];
    rewrite ?lookup_insert_ne by congruence; auto.
Qed.

Lemma get_other c key now now2 k :
  k <> key ->
  let c' := snd (CacheManager.get c key now now2) in
  CacheManager.config c' = CacheManager.config c /\
  CacheManager.l1Cache c' !! k = CacheManager.l1Cache c !! k /\
  CacheManager.redis c' = CacheManager.redis c.
Proof.
  intros Hk. unfold CacheManager.get.
  destruct (CacheManager.l1Hit c key now); [cbn [snd]; auto|].
  destruct (CacheManager.enableL2 (CacheManager.config c)); [|cbn [snd]; auto].
  destruct (Redis.get (CacheManager.redis c) now2 key); [|cbn [snd]; auto].
  destruct (CacheManager.enableL1 (CacheManager.config c)); cbn [snd]; auto.
  cbn [CacheManager.with_l1 CacheManager.config CacheManager.l1Cache
       CacheManager.redis].
  rewrite lookup_insert_ne by congruence. auto.
Qed.

(** What [get(k)] returns depends on the entries kept under [k] only:
    a [set] or a [get] of another key, whatever it writes, leaves the
    answer of [get(k)] as it was. *)
Theorem cache_keys_are_independent :
  forall (c : CacheManager.t) (k key : string) (v : Json) (ttl : option Z)
         (t0 t0' now now2 : Z),
    k <> key ->
    fst (CacheManager.get (snd (CacheManager.set c key v ttl t0 t0')) k now now2)
      = fst (CacheManager.get c k now now2) /\
    fst (CacheManager.get (snd (CacheManager.get c key t0 t0')) k now now2)
      = fst (CacheManager.get c k now now2).
Proof.
  intros c k key v ttl t0 t0' now now2 Hk. split.
  - destruct (set_other c key v ttl t0 t0' k Hk) as (A & B & C).
    now apply get_depends_on_key.
  - destruct (get_other c key t0 t0' k Hk) as (A & B & C).
    apply get_depends_on_key; [assumption | assumption | now rewrite C].
Qed.

Lemma cache_keys_witness :
  fst (CacheManager.get
         (snd (CacheManager.set
                 (snd (CacheManager.set (CacheManager.new both_tiers)
                         "quote:AAPL" aapl_quote (Some 10) 0 0))
                 "quote:MSFT" (JNum 3) (Some 10) 1 2))
         "quote:AAPL" 100 101)
  = fst (CacheManager.get
           (snd (CacheManager.set (CacheManager.new both_tiers)
                   "quote:AAPL" aapl_quote (Some 10) 0 0))
           "quote:AAPL" 100 101).
Proof.
  apply (proj1 (cache_keys_are_independent _ "quote:AAPL" "quote:MSFT"
                  (JNum 3) (Some 10) 1 2 100 101 ltac:(discriminate))).
Defined.

(** ** Cache manager: clearing the keys of a prefix *)

Lemma glob_star_only s : Pattern.glob [Pattern.Star] s = true.
Proof.
  induction s as [|c s IH]; [reflexivity|].
  cbn. exact IH.
Qed.

Lemma glob_prefix prefix : forall key,
  Pattern.noStar prefix = true ->
  Pattern.glob (Pattern.parse (prefix ++ "*")) key = String.prefix prefix key.
Proof.
  induction prefix as [|a prefix IH]; intros key Hp.
  - change (Pattern.parse ("" ++ "*")) with [Pattern.Star].
    rewrite glob_star_only. now destruct key.
  - cbn [Pattern.noStar] in Hp. apply andb_true_iff in Hp as [Ha Hp].
    apply negb_true_iff in Ha.
    change (Pattern.parse (String a prefix ++ "*"))
      with ((if Ascii.eqb a "*"%char then Pattern.Star else Pattern.Lit a)
            :: Pattern.parse (prefix ++ "*")).
    rewrite Ha. destruct key as [|b key]; [reflexivity|].
    cbn [Pattern.glob String.prefix]. rewrite IH by assumption.
    destruct (ascii_dec a b) as [->|Hne].
    + now rewrite Ascii.eqb_refl.
    + apply Ascii.eqb_neq in Hne. now rewrite Hne.
Qed.

Lemma regex_prefix prefix :
  Pattern.noStar prefix = true ->
  exists regex,
    Pattern.compile (Pattern.parse (prefix ++ "*")) = Some regex /\
    forall key, String.prefix prefix key = true ->
                Pattern.matchHere regex key = true.
Proof.
  induction prefix as [|a prefix IH]; intros Hp.
  - eexists. split; [reflexivity|]. intros key _. now destruct key.
  - cbn [Pattern.noStar] in Hp. apply andb_true_iff in Hp as [Ha Hp].
    apply negb_true_iff in Ha.
    destruct (IH Hp) as (regex & Hc & Hm).
    change (Pattern.parse (String a prefix ++ "*"))
      with ((if Ascii.eqb a "*"%char then Pattern.Star else Pattern.Lit a)
            :: Pattern.parse (prefix ++ "*")).
    rewrite Ha. cbn [Pattern.compile]. rewrite Hc.
    eexists. split; [reflexivity|].
    intros [|b key] Hk; [discriminate Hk|].
    cbn [String.prefix] in Hk. cbn [Pattern.matchHere Pattern.atomOk].
    destruct (ascii_dec a b) as [->|]; [|discriminate Hk].
    rewrite Ascii.eqb_refl. now apply Hm.
Qed.

Lemma test_matchHere regex key :
  Pattern.matchHere regex key = true -> Pattern.test regex key = true.
Proof. intros H. destruct key; cbn [Pattern.test]; now rewrite H. Qed.

Lemma del_lookup_in (ks : list string) : forall (db : gmap string Redis.Entry) k,
  In k ks -> Redis.del db ks !! k = None.
Proof.
  unfold Redis.del. induction ks as [|k0 ks IH]; intros db k Hin; [destruct Hin|].
  cbn [foldr]. destruct (decide (k0 = k)) as [->|Hne].
  - apply lookup_delete_eq.
  - rewrite lookup_delete_ne by assumption. apply IH.
    destruct Hin; [congruence|assumption].
Qed.

Lemma del_lookup_out (ks : list string) : forall (db : gmap string Redis.Entry) k,
  ~ In k ks -> Redis.del db ks !! k = db !! k.
Proof.
  unfold Redis.del. induction ks as [|k0 ks IH]; intros db k Hout; [reflexivity|].
  cbn [foldr]. rewrite lookup_delete_ne.
  - apply IH. intros H. apply Hout. now right.
  - intros ->. apply Hout. now left.
Qed.

Lemma keys_spec (db : gmap string Redis.Entry) now pattern k :
  In k (Redis.keys db now pattern) <->
  exists e, db !! k = Some e /\ now < Redis.expireAt e /\
            Pattern.glob (Pattern.parse pattern) k = true.
Proof.
  unfold Redis.keys. rewrite filter_In, in_map_iff. split.
  - intros [[[k' e] [Hk Hin]] Hg]. cbn [fst] in Hk. subst k'.
    apply filter_In in Hin as [Hin Hlive]. cbn [snd] in Hlive.
    apply list_elem_of_In, elem_of_map_to_list in Hin.
    exists e. repeat split; [assumption | lia | assumption].
  - intros (e & He & Hlive & Hg). split; [|assumption].
    exists (k, e). split; [reflexivity|].
    apply filter_In. split.
    + apply list_elem_of_In, elem_of_map_to_list. exact He.
    + cbn [snd]. lia.
Qed.

Lemma get_miss_when_expired c key now now2 :
  CacheManager.l1Cache c !! key = None ->
  (CacheManager.enableL2 (CacheManager.config c) = true ->
   Redis.get (CacheManager.redis c) now2 key = None) ->
  CacheManager.get c key now now2 = (JNull, c).
Proof.
  intros H1 H2. unfold CacheManager.get, CacheManager.l1Hit.
  rewrite H1.
  destruct (CacheManager.enableL1 (CacheManager.config c));
    destruct (CacheManager.enableL2 (CacheManager.config c));
    try reflexivity; now rewrite H2.
Qed.

Lemma plain_noStar s : Pattern.plain s = true -> Pattern.noStar s = true.
Proof.
  induction s as [|c s IH]; [reflexivity|].
  cbn [Pattern.plain Pattern.noStar]. intros H.
  apply andb_true_iff in H as [Hc Hs]. rewrite (IH Hs), andb_true_r.
  destruct (Ascii.eqb_spec c "*"%char) as [->|]; [discriminate Hc|reflexivity].
Qed.

(** [clear(prefix + '*')], for a prefix made of plain characters (ASCII
    characters that neither a regular expression nor a glob reads as
    syntax), resolves and leaves no key that starts with the prefix
    readable: a [get] of such a key, served by Redis at the clock of the
    [clear] or later, is a miss, in every configuration. *)
Theorem clear_prefix_removes_every_key_of_the_prefix :
  forall (c : CacheManager.t) (prefix key : string) (now t t2 : Z),
    Pattern.plain prefix = true ->
    String.prefix prefix key = true ->
    now <= t2 ->
    let cleared := CacheManager.clear c (Some (prefix ++ "*")) now in
    fst cleared = Ok tt /\
    fst (CacheManager.get (snd cleared) key t t2) = JNull.
Proof.
  intros c prefix key now t t2 Hplain Hk Ht cleared.
  pose proof (plain_noStar prefix Hplain) as Hp.
  destruct (regex_prefix prefix Hp) as (regex & Hc & Hm).
  set (c1 := if CacheManager.enableL2 (CacheManager.config c)
             then CacheManager.with_redis c
                    (Redis.del (CacheManager.redis c)
                       (Redis.keys (CacheManager.redis c) now (prefix ++ "*")))
             else c).
  assert (Hcl : cleared =
                (Ok tt,
                 CacheManager.with_l1 c1
                   (filter (fun kv => Pattern.test regex (fst kv) = false)
                      (CacheManager.l1Cache c1)))).
  { unfold cleared, CacheManager.clear.
    destruct prefix as [|a prefix];
      [change ("" ++ "*") with "*" in * | change (String a prefix ++ "*")
                                            with (String a (prefix ++ "*")) in *];
      fold c1; rewrite Hc; reflexivity. }
  rewrite Hcl. cbn [fst snd]. split; [reflexivity|].
  assert (Hcfg : CacheManager.config c1 = CacheManager.config c)
    by (unfold c1; destruct (CacheManager.enableL2 (CacheManager.config c)); reflexivity).
  rewrite get_miss_when_expired; [reflexivity| |].
  - cbn [CacheManager.with_l1 CacheManager.l1Cache].
    apply map_lookup_filter_None. right. intros e _ Hfalse.
    cbn [fst] in Hfalse. rewrite (test_matchHere regex key (Hm key Hk)) in Hfalse.
    discriminate.
  - cbn [CacheManager.with_l1 CacheManager.config CacheManager.redis].
    rewrite Hcfg. intros E2. unfold c1. rewrite E2.
    cbn [CacheManager.with_redis CacheManager.redis]. unfold Redis.get.
    destruct (CacheManager.redis c !! key) as [e|] eqn:He.
    + destruct (Z.ltb_spec now (Redis.expireAt e)) as [Hlive|Hdead].
      * rewrite del_lookup_in; [reflexivity|].
        apply keys_spec. exists e. repeat split; try assumption.
        now rewrite glob_prefix.
      * rewrite del_lookup_out.
        -- rewrite He. destruct (Z.ltb_spec t2 (Redis.expireAt e)); [lia|reflexivity].
        -- intros Hin. apply keys_spec in Hin as (e' & He' & Hl & _).
           rewrite He in He'. injection He' as <-. lia.
    + rewrite del_lookup_out; [now rewrite He|].
      intros Hin. apply keys_spec in Hin as (e' & He' & _). congruence.
Qed.

Lemma clear_prefix_witness :
  fst (CacheManager.get
         (snd (CacheManager.clear
                 (snd (CacheManager.set (CacheManager.new both_tiers)
                         "positions:acct1" (JNum 10) (Some 60) 0 0))
                 (Some ("positions:" ++ "*")) 1000))
         "positions:acct1" 2000 2000) = JNull.
Proof.
  apply (clear_prefix_removes_every_key_of_the_prefix _ "positions:"
           "positions:acct1" 1000 2000 2000); [reflexivity | reflexivity | lia].
Defined.

(** ** Token bucket: bursts *)

Lemma refill_keeps_tokens b now :
  (0 <= TokenBucket.refillRate b)%Q ->
  (TokenBucket.tokens b <= TokenBucket.capacity b)%Q ->
  TokenBucket.lastRefill b <= now ->
  (TokenBucket.tokens b <= TokenBucket.tokens (TokenBucket.refill b now))%Q.
Proof.
  intros Hr Hc Ht. cbn [TokenBucket.refill TokenBucket.tokens].
  apply Q.min_glb; [assumption|].
  assert (H : (0 <= inject_Z (now - TokenBucket.lastRefill b) / 1000
                    * TokenBucket.refillRate b)%Q).
  { apply Qmult_le_0_compat; [|assumption].
    apply Qle_shift_div_l; [reflexivity|].
    rewrite Qmult_0_l. change 0%Q with (inject_Z 0).
    rewrite <- Zle_Qle. lia. }
  lra.
Qed.

Lemma burst_from clocks : forall b,
  (0 <= TokenBucket.refillRate b)%Q ->
  (TokenBucket.tokens b <= TokenBucket.capacity b)%Q ->
  (inject_Z (Z.of_nat (length clocks)) <= TokenBucket.tokens b)%Q ->
  nondecreasing (TokenBucket.lastRefill b) (List.map fst clocks) ->
  fst (TokenBucket.consumeAll b clocks) = repeat None (length clocks).
Proof.
  induction clocks as [|[now wake] clocks IH]; intros b Hr Hc Hn Ht;
    [reflexivity|].
  cbn [List.map fst nondecreasing] in Ht. destruct Ht as [Ht Hrest].
  cbn [length] in Hn. rewrite Nat2Z.inj_succ in Hn.
  unfold Z.succ in Hn. rewrite inject_Z_plus in Hn.
  change (inject_Z 1) with 1%Q in Hn.
  pose proof (refill_keeps_tokens b now Hr Hc Ht) as Hk.
  pose proof (refill_tokens_le b now) as Hle.
  assert (Hpos : (0 <= inject_Z (Z.of_nat (length clocks)))%Q).
  { change 0%Q with (inject_Z 0). rewrite <- Zle_Qle. lia. }
  assert (Hno : Qltb (TokenBucket.tokens (TokenBucket.refill b now)) 1 = false)
    by (apply Qltb_false; lra).
  cbn [TokenBucket.consumeAll]. unfold TokenBucket.consume, TokenBucket.slept,
                                  TokenBucket.ready.
  rewrite Hno.
  specialize (IH (TokenBucket.take 1 (TokenBucket.refill b now))).
  destruct (TokenBucket.consumeAll (TokenBucket.take 1 (TokenBucket.refill b now))
              clocks) as [ws b'].
  cbn [fst length repeat]. f_equal. apply IH.
  - exact Hr.
  - cbn [TokenBucket.take TokenBucket.tokens TokenBucket.capacity
         TokenBucket.refill] in *. lra.
  - cbn [TokenBucket.take TokenBucket.tokens] in *. lra.
  - exact Hrest.
Qed.

(** A burst: as many calls of [consume()] as the capacity allows, made
    on a new bucket at clock readings that do not go back, never sleep,
    whatever the refill rate (zero included). *)
Theorem burst_up_to_capacity_never_sleeps :
  forall (capacity refillRate : Q) (created : Z) (clocks : list (Z * Z)),
    (0 <= refillRate)%Q ->
    (inject_Z (Z.of_nat (length clocks)) <= capacity)%Q ->
    nondecreasing created (List.map fst clocks) ->
    fst (TokenBucket.consumeAll (TokenBucket.new capacity refillRate created) clocks)
    = repeat None (length clocks).
Proof.
  intros capacity refillRate created clocks Hr Hn Ht.
  apply burst_from; cbn [TokenBucket.new TokenBucket.refillRate TokenBucket.tokens
                           TokenBucket.capacity TokenBucket.lastRefill];
    try assumption. lra.
Qed.

Lemma burst_witness :
  fst (TokenBucket.consumeAll (TokenBucket.new 3 0 0) [(0, 0); (5, 5); (5, 5)])
  = repeat None 3.
Proof.
  apply (burst_up_to_capacity_never_sleeps 3 0 0 [(0, 0); (5, 5); (5, 5)]).
  - lra.
  - unfold Qle. simpl. lia.
  - simpl. lia.
Defined.

(** The call after a burst that has emptied the bucket sleeps: with the
    ten tokens of the order bucket gone at once, the eleventh call asks
    for the 500 ms in which one token comes at two tokens a second. *)
Example call_after_the_burst_sleeps :
  exists w,
    List.nth 10 (fst (TokenBucket.consumeAll (TokenBucket.new 10 2 0)
                         (repeat (0, 500) 11))) None = Some (Fin w) /\
    (w == 500)%Q.
Proof. eexists. split; [vm_compute; reflexivity | reflexivity]. Qed.

(** ** Rate limiter of the client: the tokens of a bucket *)

Lemma clientConfig_sound rl endpoint :
  clientConfigured rl ->
  let config := ClientRateLimiter.getConfigForEndpoint rl endpoint in
  (0 < ClientRateLimiter.requestsPerSecond config)%Q /\
  (1 <= ClientRateLimiter.burstSize config)%Q.
Proof.
  intros [Hd Hl]. unfold ClientRateLimiter.getConfigForEndpoint.
  rewrite Hd, Hl. cbn.
  destruct (includes endpoint "/quotes/"); [cbn; split; lra|].
  destruct (includes endpoint "/orders/"); [cbn; split; lra|].
  destruct (includes endpoint "/accounts/"); cbn; split; lra.
Qed.

Lemma clientServed_in_range bucket config now wake :
  (0 < ClientRateLimiter.requestsPerSecond config)%Q ->
  (1 <= ClientRateLimiter.burstSize config)%Q ->
  (0 <= ClientRateLimiter.tokens bucket)%Q ->
  ClientRateLimiter.lastRefill bucket <= now ->
  (Qltb (ClientRateLimiter.tokens
           (ClientRateLimiter.refillBucket bucket config now)) 1 = true ->
   match ClientRateLimiter.calculateWaitTime config with
   | Fin ms => (ms <= inject_Z (wake - now))%Q
   | PosInf => True
   end) ->
  let b' := clientServed bucket config now wake in
  (0 <= ClientRateLimiter.tokens b')%Q /\
  (ClientRateLimiter.tokens b' <= ClientRateLimiter.burstSize config - 1)%Q.
Proof.
  intros Hr Hb Ht Hnow Hs b'. unfold b', clientServed.
  set (b1 := ClientRateLimiter.refillBucket bucket config now) in *.
  assert (H1 : (0 <= ClientRateLimiter.tokens b1)%Q).
  { unfold b1. cbn [ClientRateLimiter.refillBucket ClientRateLimiter.tokens].
    apply Q.min_glb; [lra|].
    assert (H : (0 <= inject_Z (now - ClientRateLimiter.lastRefill bucket) / 1000
                      * ClientRateLimiter.requestsPerSecond config)%Q).
    { apply Qmult_le_0_compat; [|lra].
      apply Qle_shift_div_l; [reflexivity|].
      rewrite Qmult_0_l. change 0%Q with (inject_Z 0).
      rewrite <- Zle_Qle. lia. }
    lra. }
  assert (H1' : (ClientRateLimiter.tokens b1 <= ClientRateLimiter.burstSize config)%Q)
    by (unfold b1; cbn [ClientRateLimiter.refillBucket ClientRateLimiter.tokens];
        apply Q.le_min_l).
  destruct (Qltb (ClientRateLimiter.tokens b1) 1) eqn:Hlt.
  - specialize (Hs eq_refl). unfold ClientRateLimiter.calculateWaitTime in Hs.
    destruct (Qeq_bool (ClientRateLimiter.requestsPerSecond config) 0) eqn:Hz.
    { apply Qeq_bool_iff in Hz. lra. }
    cbn [ClientRateLimiter.refillBucket ClientRateLimiter.tokens
         ClientRateLimiter.lastRefill].
    change (ClientRateLimiter.lastRefill b1) with now.
    set (t1 := ClientRateLimiter.tokens b1) in *.
    set (r := ClientRateLimiter.requestsPerSecond config) in *.
    set (d := inject_Z (wake - now)) in *.
    clearbody t1 r d.
    assert (Hadd : (1 <= d / 1000 * r)%Q).
    { assert (Hd : (1 / r * 1000 * (r / 1000) <= d * (r / 1000))%Q).
      { apply Qmult_le_compat_r; [assumption|].
        apply Qle_shift_div_l; lra. }
      assert (He : (1 / r * 1000 * (r / 1000) == 1)%Q) by (field; lra).
      rewrite He in Hd.
      assert (Hf : (d / 1000 * r == d * (r / 1000))%Q) by field.
      rewrite Hf. exact Hd. }
    split.
    + assert (H : (1 <= Qmin (ClientRateLimiter.burstSize config) (t1 + d / 1000 * r))%Q)
        by (apply Q.min_glb; lra).
      lra.
    + pose proof (Q.le_min_l (ClientRateLimiter.burstSize config) (t1 + d / 1000 * r)).
      lra.
  - apply Qltb_false in Hlt. cbn [ClientRateLimiter.tokens]. split; lra.
Qed.

Lemma clientStep rl endpoint now wake :
  clientConfigured rl ->
  clientTokensInRange rl ->
  clientTimely rl endpoint now wake ->
  let rl' := snd (ClientRateLimiter.checkLimit rl endpoint now wake) in
  clientConfigured rl' /\ clientTokensInRange rl'.
Proof.
  intros Hc Hi [Hclock Hsleep] rl'.
  pose proof (clientCheckLimit_eq rl endpoint now wake) as Heq.
  cbv zeta in Heq. unfold rl'. rewrite Heq in Hsleep |- *. cbn [fst snd] in *.
  split; [exact Hc|].
  intros e b Hb. cbn [ClientRateLimiter.buckets] in Hb.
  change (ClientRateLimiter.getConfigForEndpoint _ e)
    with (ClientRateLimiter.getConfigForEndpoint rl e).
  destruct (decide (endpoint = e)) as [<-|Hne].
  - rewrite lookup_insert_eq in Hb. injection Hb as <-.
    destruct (clientConfig_sound rl endpoint Hc) as [Hr Hbs].
    apply clientServed_in_range; try assumption.
    + unfold clientBucket.
      destruct (ClientRateLimiter.buckets rl !! endpoint) as [b0|] eqn:Hb0.
      * now apply (Hi endpoint b0).
      * cbn [ClientRateLimiter.tokens]. lra.
    + intros Hlt. rewrite Hlt in Hsleep. exact Hsleep.
  - rewrite lookup_insert_ne in Hb by assumption. now apply Hi.
Qed.

Lemma clientAll calls : forall rl,
  clientConfigured rl ->
  clientTokensInRange rl ->
  clientAllTimely rl calls ->
  clientTokensInRange (ClientRateLimiter.checkAll rl calls).
Proof.
  induction calls as [|[[endpoint now] wake] calls IH]; intros rl Hc Hi Ht.
  - exact Hi.
  - cbn [clientAllTimely] in Ht. destruct Ht as [Ht Hrest].
    cbn [ClientRateLimiter.checkAll].
    destruct (clientStep rl endpoint now wake Hc Hi Ht) as [Hc' Hi'].
    now apply IH.
Qed.

(** In the limiter of the client, after any sequence of admissions made
    one after the other with a clock that does not go back and a timer
    that keeps its promise, every bucket holds between zero and one
    token less than the burst size of its endpoint: the limiter never
    lets a request through on credit. *)
Theorem client_limiter_tokens_stay_in_range :
  forall calls : list (string * Z * Z),
    clientAllTimely ClientRateLimiter.new calls ->
    clientTokensInRange (ClientRateLimiter.checkAll ClientRateLimiter.new calls).
Proof.
  intros calls Ht. apply clientAll; [split; reflexivity | | exact Ht].
  intros e b Hb. cbn in Hb. rewrite lookup_empty in Hb. discriminate.
Qed.

Lemma client_limiter_witness :
  clientTokensInRange
    (ClientRateLimiter.checkAll ClientRateLimiter.new
       [("/orders/1/", 0, 0); ("/orders/1/", 10, 10)]).
Proof.
  apply (client_limiter_tokens_stay_in_range
           [("/orders/1/", 0, 0); ("/orders/1/", 10, 10)]).
  repeat split; try (vm_compute; discriminate); try exact I.
Defined.

(** ** Circuit breaker: tripping, refusing, probing *)







(** The probe.  When a call reaches an OPEN breaker whose count has
    reached the threshold after more than [timeout] ms, [fn] is run: if
    it succeeds the breaker is CLOSED with a count of zero, if it fails
    the breaker is OPEN again with the time of this failure, so that the
    cool-down starts afresh. *)
Theorem probe_closes_or_reopens :
  forall (cb : CircuitBreaker.t) (c : CircuitBreaker.Call),
    CircuitBreaker.state cb = CircuitBreaker.OPEN ->
    CircuitBreaker.threshold cb <= CircuitBreaker.failureCount cb ->
    CircuitBreaker.timeout cb
      < CircuitBreaker.at_ c - CircuitBreaker.lastFailureTime cb ->
    CircuitBreaker.invoked cb c = true /\
    snd (CircuitBreaker.step cb c) =
      if CircuitBreaker.succeeds c
      then {| CircuitBreaker.state := CircuitBreaker.CLOSED;
              CircuitBreaker.failureCount := 0;
              CircuitBreaker.lastFailureTime := CircuitBreaker.lastFailureTime cb;
              CircuitBreaker.threshold := CircuitBreaker.threshold cb;
              CircuitBreaker.timeout := CircuitBreaker.timeout cb |}
      else {| CircuitBreaker.state := CircuitBreaker.OPEN;
              CircuitBreaker.failureCount := CircuitBreaker.failureCount cb + 1;
              CircuitBreaker.lastFailureTime := CircuitBreaker.settled c;
              CircuitBreaker.threshold := CircuitBreaker.threshold cb;
              CircuitBreaker.timeout := CircuitBreaker.timeout cb |}.
Proof.
  intros cb c Hs Ht Hc.
  assert (Hg : CircuitBreaker.gate cb (CircuitBreaker.at_ c)
               = Some (CircuitBreaker.set_state CircuitBreaker.HALF_OPEN cb)).
  { rewrite gate_open by assumption.
    destruct (Z.ltb_spec (CircuitBreaker.timeout cb)
                (CircuitBreaker.at_ c - CircuitBreaker.lastFailureTime cb));
      [reflexivity|lia]. }
  split.
  - unfold CircuitBreaker.invoked. now rewrite Hg.
  - pose proof (step_cases cb c) as H. cbv zeta in H. rewrite Hg in H.
    rewrite H. destruct (CircuitBreaker.succeeds c).
    + reflexivity.
    + unfold CircuitBreaker.onFailure, CircuitBreaker.set_state. cbn.
      destruct (Z.leb_spec (CircuitBreaker.threshold cb)
                  (CircuitBreaker.failureCount cb + 1)); [reflexivity|lia].
Qed.

Lemma probe_witness :
  snd (CircuitBreaker.step tripped_breaker (failing 61001))
  = {| CircuitBreaker.state := CircuitBreaker.OPEN;
       CircuitBreaker.failureCount := 6;
       CircuitBreaker.lastFailureTime := 61011;
       CircuitBreaker.threshold := 5;
       CircuitBreaker.timeout := 60000 |}.
Proof.
  apply (proj2 (probe_closes_or_reopens tripped_breaker (failing 61001)
                  eq_refl ltac:(simpl; lia) ltac:(simpl; lia))).
Defined.

(** ** Authentication manager: the life of a token *)

Lemma refreshToken_keeps_manager am :
  AuthManager.tokenRefreshPromise am = None ->
  exists e, AuthManager.refreshToken am = (Throw e, am).
Proof.
  intros Hp. destruct am as [tok p]. cbn in Hp. subst p.
  unfold AuthManager.refreshToken, AuthManager.performTokenRefresh.
  cbn [AuthManager.tokenRefreshPromise AuthManager.currentToken].
  destruct (AuthManager.hasRefreshToken _); cbn [negb]; eexists; reflexivity.
Qed.

(** A token given as a string (to the constructor or to [setToken]) at
    time [t0] is served, without its [Bearer ] prefix, for 24 hours less
    the 5 minutes of the buffer; from then on [getToken] throws 'No
    refresh token available', and since the manager is left as it was,
    so does every later call until another token is set. *)
Theorem manual_token_lifetime :
  forall (am : AuthManager.t) (token : string) (t0 now : Z),
    AuthManager.tokenRefreshPromise am = None ->
    0 <= t0 ->
    let am' := AuthManager.setTokenString am token t0 in
    AuthManager.getToken am' now =
      if now <? t0 + 86400 * 1000 - 300 * 1000
      then (Ok (Some (replaceFirst "Bearer " "" token)), am')
      else (Throw (JsError "No refresh token available"), am').
Proof.
  intros am token t0 now Hp Ht0 am'.
  unfold AuthManager.getToken, am', AuthManager.setTokenString,
    AuthManager.isTokenExpired, AuthManager.bearer.
  cbn [AuthManager.currentToken AuthManager.expires_at AuthManager.access_token].
  destruct (Z.eqb_spec (t0 + 86400 * 1000) 0) as [E|_]; [lia|].
  destruct (Z.ltb_spec now (t0 + 86400 * 1000 - 300 * 1000)) as [Hlt|Hge].
  - destruct (Z.leb_spec (t0 + 86400 * 1000 - 300 * 1000) now); [lia|reflexivity].
  - destruct (Z.leb_spec (t0 + 86400 * 1000 - 300 * 1000) now); [|lia].
    unfold AuthManager.refreshToken, AuthManager.hasRefreshToken. cbn.
    now rewrite Hp.
Qed.

Lemma manual_token_witness :
  AuthManager.getToken
    (AuthManager.setTokenString (AuthManager.new None 0) "Bearer abc123" 1000)
    86000000
  = (Ok (Some "abc123"),
     AuthManager.setTokenString (AuthManager.new None 0) "Bearer abc123" 1000).
Proof.
  apply (manual_token_lifetime (AuthManager.new None 0) "Bearer abc123" 1000
           86000000 eq_refl ltac:(lia)).
Defined.

(** A token object set at time [t0] with a lifetime of [expires_in]
    seconds, with or without a refresh token, is served until 5 minutes
    before its expiry and never renewed: from then on [getToken] throws
    and leaves the manager as it was, the expired token included. *)
Theorem expired_token_is_never_renewed :
  forall (am : AuthManager.t) (tok : AuthManager.AuthToken) (t0 now : Z),
    AuthManager.tokenRefreshPromise am = None ->
    t0 + AuthManager.expires_in tok * 1000 <> 0 ->
    let am' := AuthManager.setToken am tok t0 in
    (now < t0 + AuthManager.expires_in tok * 1000 - 300 * 1000 ->
     AuthManager.getToken am' now
     = (Ok (Some (AuthManager.access_token tok)), am')) /\
    (t0 + AuthManager.expires_in tok * 1000 - 300 * 1000 <= now ->
     exists e, AuthManager.getToken am' now = (Throw e, am')).
Proof.
  intros am tok t0 now Hp Hne am'.
  assert (Hp' : AuthManager.tokenRefreshPromise am' = None) by exact Hp.
  set (tok' :=
         {| AuthManager.access_token := AuthManager.access_token tok;
            AuthManager.refresh_token := AuthManager.refresh_token tok;
            AuthManager.expires_in := AuthManager.expires_in tok;
            AuthManager.token_type := AuthManager.token_type tok;
            AuthManager.expires_at :=
              Some (t0 + AuthManager.expires_in tok * 1000) |}).
  assert (Hc : AuthManager.currentToken am' = Some tok') by reflexivity.
  assert (Hx : AuthManager.isTokenExpired tok' 300 now
               = (t0 + AuthManager.expires_in tok * 1000 - 300 * 1000 <=? now)).
  { unfold AuthManager.isTokenExpired. cbn [AuthManager.expires_at tok'].
    destruct (Z.eqb_spec (t0 + AuthManager.expires_in tok * 1000) 0);
      [contradiction|reflexivity]. }
  unfold AuthManager.getToken. rewrite Hc, Hx.
  split; intros H.
  - destruct (Z.leb_spec
                (t0 + AuthManager.expires_in tok * 1000 - 300 * 1000) now);
      [lia|reflexivity].
  - destruct (Z.leb_spec
                (t0 + AuthManager.expires_in tok * 1000 - 300 * 1000) now);
      [|lia].
    destruct (refreshToken_keeps_manager am' Hp') as [e He].
    rewrite He. now exists e.
Qed.

Lemma expired_token_witness :
  exists e,
    AuthManager.getToken
      (AuthManager.setToken (AuthManager.new None 0)
         {| AuthManager.access_token := "abc123";
            AuthManager.refresh_token := Some "r1";
            AuthManager.expires_in := 3600;
            AuthManager.token_type := "Bearer";
            AuthManager.expires_at := None |} 1000)
      3400000
    = (Throw e,
       AuthManager.setToken (AuthManager.new None 0)
         {| AuthManager.access_token := "abc123";
            AuthManager.refresh_token := Some "r1";
            AuthManager.expires_in := 3600;
            AuthManager.token_type := "Bearer";
            AuthManager.expires_at := None |} 1000).
Proof.
  apply (proj2 (expired_token_is_never_renewed (AuthManager.new None 0)
                  {| AuthManager.access_token := "abc123";
                     AuthManager.refresh_token := Some "r1";
                     AuthManager.expires_in := 3600;
                     AuthManager.token_type := "Bearer";
                     AuthManager.expires_at := None |} 1000 3400000
                  eq_refl ltac:(simpl; lia))).
  simpl. lia.
Defined.

(** ** Client: the response cache of [get] *)

(** The cache of the client's [get] is keyed by the url alone.  Once a
    [get] with a TTL has fetched a truthy body for [url], every [get]
    for that url made with a TTL before [ttl] seconds have passed
    returns that body, whatever query parameters it carries and
    whatever the transport would answer: the transport is not called
    and the cache is left as it is. *)
Theorem client_get_is_cached_by_url_alone :
  forall (W : Type) (axios_get axios_get' : string -> Json -> W -> Result Response * W)
         (cache : gmap string ApiClient.CachedResponse)
         (url : string) (config config' : Json) (ttl ttl' t0 t1 now now2 : Z)
         (w w1 : W) (response : Response),
    ttl <> 0 -> ttl' <> 0 ->
    truthy (fst (ApiClient.getFromCache cache url t0)) = false ->
    axios_get url config w = (Ok response, w1) ->
    truthy (data response) = true ->
    now < t1 + ttl * 1000 ->
    exists cache1,
      ApiClient.get axios_get cache url config (Some ttl) t0 t1 w
        = (Ok (data response), cache1, w1) /\
      ApiClient.get axios_get' cache1 url config' (Some ttl') now now2 w1
        = (Ok (data response), cache1, w1).
Proof.
  intros W axios_get axios_get' cache url config config' ttl ttl' t0 t1 now now2
         w w1 response Httl Httl' Hmiss Hget Htruthy Hnow.
  assert (H1 : ApiClient.hasTTL (Some ttl) = true).
  { cbn. now destruct (Z.eqb_spec ttl 0). }
  assert (H2 : ApiClient.hasTTL (Some ttl') = true).
  { cbn. now destruct (Z.eqb_spec ttl' 0). }
  unfold ApiClient.get at 1. rewrite H1.
  destruct (ApiClient.getFromCache cache url t0) as [cached cache0] eqn:E0.
  cbn [fst] in Hmiss. rewrite Hmiss, Hget. cbn [andb].
  eexists. split; [reflexivity|].
  unfold ApiClient.get. rewrite H2.
  unfold ApiClient.getFromCache, ApiClient.setCache.
  rewrite lookup_insert_eq. cbn [ApiClient.expiresAt ApiClient.data].
  unfold ApiClient.responseData.
  change (default 0 (Some ttl)) with ttl.
  destruct (Z.ltb_spec now (t1 + ttl * 1000)); [|lia].
  now rewrite Htruthy.
Qed.

Lemma client_get_cached_witness :
  exists cache1,
    ApiClient.get (counting_get (JStr "quote")) ∅ "/quotes/AAPL/" JNull
      (Some 10) 0 5 O
      = (Ok (JStr "quote"), cache1, 1%nat) /\
    ApiClient.get (counting_get (JStr "other")) cache1 "/quotes/AAPL/"
      (JObj [("bounds", JStr "extended")]) (Some 60) 9000 9001 1%nat
      = (Ok (JStr "quote"), cache1, 1%nat).
Proof.
  apply (client_get_is_cached_by_url_alone nat
           (counting_get (JStr "quote")) (counting_get (JStr "other"))
           ∅ "/quotes/AAPL/" JNull (JObj [("bounds", JStr "extended")])
           10 60 0 5 9000 9001 O 1%nat
           {| status := 200; data := JStr "quote"; retryAfter := None |});
    try reflexivity; lia.
Defined.

(** A falsy body (null, false, 0 or the empty string) is stored by
    [get] but never served from the cache: the next [get] for the url,
    even within the TTL, calls the transport again and returns what it
    answers. *)
Theorem client_get_never_serves_a_falsy_body :
  forall (W : Type) (axios_get : string -> Json -> W -> Result Response * W)
         (cache : gmap string ApiClient.CachedResponse)
         (url : string) (config : Json) (ttl ttl' t1 now now2 : Z)
         (body : Json) (w w' : W) (response : Response),
    ttl' <> 0 ->
    truthy body = false ->
    now < t1 + ttl * 1000 ->
    axios_get url config w = (Ok response, w') ->
    let cache1 := ApiClient.setCache cache url body ttl t1 in
    fst (ApiClient.getFromCache cache1 url now) = body /\
    ApiClient.get axios_get cache1 url config (Some ttl') now now2 w
      = (Ok (data response),
         ApiClient.setCache cache1 url (data response) ttl' now2, w').
Proof.
  intros W axios_get cache url config ttl ttl' t1 now now2 body w w' response
         Httl' Hfalsy Hnow Hget cache1.
  assert (H2 : ApiClient.hasTTL (Some ttl') = true).
  { cbn. now destruct (Z.eqb_spec ttl' 0). }
  assert (Hc : ApiClient.getFromCache cache1 url now = (body, cache1)).
  { unfold ApiClient.getFromCache, cache1, ApiClient.setCache.
    rewrite lookup_insert_eq. cbn [ApiClient.expiresAt ApiClient.data].
    destruct (Z.ltb_spec now (t1 + ttl * 1000)); [reflexivity|lia]. }
  split; [now rewrite Hc|].
  unfold ApiClient.get. rewrite H2, Hc, Hfalsy, Hget. reflexivity.
Qed.

Lemma client_get_falsy_witness :
  ApiClient.get (counting_get (JNum 7))
    (ApiClient.setCache ∅ "/positions/" (JNum 0) 300 0) "/positions/" JNull
    (Some 300) 1000 1001 O
  = (Ok (JNum 7),
     ApiClient.setCache (ApiClient.setCache ∅ "/positions/" (JNum 0) 300 0)
       "/positions/" (JNum 7) 300 1001, 1%nat).
Proof.
  apply (proj2 (client_get_never_serves_a_falsy_body nat (counting_get (JNum 7))
                  ∅ "/positions/" JNull 300 300 0 1000 1001 (JNum 0) O 1%nat
                  {| status := 200; data := JNum 7; retryAfter := None |}
                  ltac:(lia) eq_refl ltac:(lia) eq_refl)).
Defined.

(** ** Client: the retries of a server error *)

(** With an [axios.request] that always settles, the handler that calls
    back into [this.axios.request] is the handler of the error
    handling above. *)
Lemma retryLoopIn_settling {W : Type}
    (axios_request : Request -> AuthManager.t -> W
                     -> Result Response * AuthManager.t * W)
    (sleep : Z -> W -> W) (n : nat) : forall config attempt am w,
  ApiClient.retryLoopIn sleep (settling axios_request) n config attempt am w
  = let '(r, am', w') :=
      ApiClient.retryLoop axios_request sleep n config attempt am w in
    (Some r, am', w').
Proof.
  induction n as [|n IH]; intros config attempt am w; [reflexivity|].
  cbn [ApiClient.retryLoopIn ApiClient.retryLoop]. unfold settling at 1.
  destruct (axios_request config am (sleep (2 ^ attempt * 1000) w))
    as [[[r|e] am'] w']; [reflexivity|].
  apply IH.
Qed.

Lemma handleErrorIn_settling {W : Type}
    (axios_request : Request -> AuthManager.t -> W
                     -> Result Response * AuthManager.t * W)
    (sleep : Z -> W -> W) (error : Error) (am : AuthManager.t) (w : W) :
  ApiClient.handleErrorIn sleep (settling axios_request) error am w
  = let '(r, am', w') :=
      ApiClient.handleError axios_request sleep error am w in
    (Some r, am', w').
Proof.
  unfold ApiClient.handleErrorIn, ApiClient.handleError.
  destruct error as [m|m st d|[resp|] config]; try reflexivity.
  destruct (status resp =? 401).
  { destruct (AuthManager.refreshToken am) as [[s|e] am']; reflexivity. }
  destruct (status resp =? 429); [reflexivity|].
  destruct (ApiClient.isServerError (status resp)); [|reflexivity].
  apply retryLoopIn_settling.
Qed.

Lemma request_rethrown {W : Type}
    (send : Request -> AuthManager.t -> W
            -> Result Response * AuthManager.t * W)
    (sleep : Z -> W -> W) fuel config am w e am' w' :
  send config am w = (Throw e, am', w') ->
  rethrown e = true ->
  exists e',
    ApiClient.request send sleep (S fuel) config am w = (Some (Throw e'), am', w').
Proof.
  intros Hs Hr. cbn [ApiClient.request]. rewrite Hs.
  unfold ApiClient.handleErrorIn.
  destruct e as [m|m st d|[resp|] cfg]; try (eexists; reflexivity).
  cbn [rethrown] in Hr. apply negb_true_iff in Hr.
  apply orb_false_iff in Hr as [Hr H5]. apply orb_false_iff in Hr as [H401 H429].
  rewrite H401, H429, H5. eexists; reflexivity.
Qed.

Lemma server_error_status st :
  ApiClient.isServerError st = true -> (st =? 401) = false /\ (st =? 429) = false.
Proof.
  unfold ApiClient.isServerError. intros H.
  repeat (apply orb_true_iff in H as [H|H]);
    apply Z.eqb_eq in H; subst st; split; reflexivity.
Qed.

Lemma request_keeps_failing {W : Type}
    (send : Request -> AuthManager.t -> W
            -> Result Response * AuthManager.t * W)
    (sleep : Z -> W -> W) config :
  keeps_failing send config ->
  forall fuel am w,
    fst (fst (ApiClient.request send sleep fuel config am w)) = None.
Proof.
  intros Hk fuel. induction fuel as [|fuel IH]; intros am w; [reflexivity|].
  cbn [ApiClient.request].
  destruct (Hk am w) as (resp & am' & w' & Hs & H5). rewrite Hs.
  unfold ApiClient.handleErrorIn.
  destruct (server_error_status _ H5) as [H401 H429].
  rewrite H401, H429, H5.
  unfold ApiClient.retryWithBackoffIn.
  change (Z.to_nat (3 + 1 - 1)) with 3%nat. cbn [ApiClient.retryLoopIn].
  specialize (IH am' (sleep (2 ^ 1 * 1000) w')).
  destruct (ApiClient.request send sleep fuel config am' (sleep (2 ^ 1 * 1000) w'))
    as [[o am''] w'']. cbn [fst] in IH. subst o. reflexivity.
Qed.

Lemma logged_request_keeps_failing {W : Type}
    (send : Request -> AuthManager.t -> W
            -> Result Response * AuthManager.t * W)
    (sleep : Z -> W -> W) config :
  keeps_failing send config ->
  forall fuel am w log,
    snd (snd (ApiClient.request (logged_request send) (logged_sleep sleep)
                fuel config am (w, log)))
    = (log ++ concat (repeat [Requested config; Slept 2000] fuel))%list.
Proof.
  intros Hk fuel. induction fuel as [|fuel IH]; intros am w log.
  - cbn. now rewrite app_nil_r.
  - cbn [ApiClient.request]. unfold logged_request at 1. cbn [fst snd].
    destruct (Hk am w) as (resp & am' & w' & Hs & H5). rewrite Hs.
    unfold ApiClient.handleErrorIn.
    destruct (server_error_status _ H5) as [H401 H429].
    rewrite H401, H429, H5.
    unfold ApiClient.retryWithBackoffIn.
    change (Z.to_nat (3 + 1 - 1)) with 3%nat. cbn [ApiClient.retryLoopIn].
    change (logged_sleep sleep (2 ^ 1 * 1000)
              (w', (log ++ [Requested config])%list))
      with (sleep (2 ^ 1 * 1000) w',
            ((log ++ [Requested config]) ++ [Slept (2 ^ 1 * 1000)])%list).
    assert (Hk' : keeps_failing (logged_request send) config).
    { intros am0 [w0 l0]. destruct (Hk am0 w0) as (r0 & a0 & w0' & E & F).
      exists r0, a0, (w0', (l0 ++ [Requested config])%list).
      unfold logged_request. cbn [fst snd]. now rewrite E. }
    pose proof (request_keeps_failing (logged_request send) (logged_sleep sleep)
                  config Hk' fuel am'
                  (sleep (2 ^ 1 * 1000) w',
                   ((log ++ [Requested config]) ++ [Slept (2 ^ 1 * 1000)])%list))
      as Hnone.
    specialize (IH am' (sleep (2 ^ 1 * 1000) w')
                  ((log ++ [Requested config]) ++ [Slept (2 ^ 1 * 1000)])%list).
    destruct (ApiClient.request (logged_request send) (logged_sleep sleep) fuel
                config am' _) as [[o am''] wl''].
    cbn [fst snd] in Hnone, IH. subst o. cbv beta iota. cbn [snd]. rewrite IH.
    cbn [repeat concat]. rewrite <- !app_assoc. reflexivity.
Qed.

(** The retries of a server error go through [this.axios.request], and
    so through [handleError] again.  While the server keeps answering
    with a server error the request is sent again after a sleep of two
    seconds each time, and the call never settles: the sleeps of four
    and eight seconds and 'Max retries exceeded' are not reached.  A
    retry that succeeds ends the call with its response.  'Max retries
    exceeded' is thrown when three retries in a row, after sleeps of
    two, four and eight seconds, fail with an error that [handleError]
    throws on: it replaces that error. *)
Theorem server_errors_are_retried_through_the_error_handler :
  forall (W : Type)
         (send : Request -> AuthManager.t -> W
                 -> Result Response * AuthManager.t * W)
         (sleep : Z -> W -> W) (config : Request) (resp0 : Response)
         (am : AuthManager.t) (w : W) (fuel : nat),
    ApiClient.isServerError (status resp0) = true ->
    let failed := AxiosError (Some resp0) config in
    let handled :=
      ApiClient.handleErrorIn sleep (ApiClient.request send sleep (S fuel))
        failed am w in
    (keeps_failing send config ->
     fst (fst handled) = None /\
     snd (snd (ApiClient.request (logged_request send) (logged_sleep sleep)
                 fuel config am (w, [])))
     = concat (repeat [Requested config; Slept 2000] fuel)) /\
    (forall r am1 w1,
       send config am (sleep 2000 w) = (Ok r, am1, w1) ->
       handled = (Some (Ok r), am1, w1)) /\
    (forall e1 am1 w1 r am2 w2,
       send config am (sleep 2000 w) = (Throw e1, am1, w1) ->
       rethrown e1 = true ->
       send config am1 (sleep 4000 w1) = (Ok r, am2, w2) ->
       handled = (Some (Ok r), am2, w2)) /\
    (forall e1 am1 w1 e2 am2 w2 r am3 w3,
       send config am (sleep 2000 w) = (Throw e1, am1, w1) ->
       rethrown e1 = true ->
       send config am1 (sleep 4000 w1) = (Throw e2, am2, w2) ->
       rethrown e2 = true ->
       send config am2 (sleep 8000 w2) = (Ok r, am3, w3) ->
       handled = (Some (Ok r), am3, w3)) /\
    (forall e1 am1 w1 e2 am2 w2 e3 am3 w3,
       send config am (sleep 2000 w) = (Throw e1, am1, w1) ->
       rethrown e1 = true ->
       send config am1 (sleep 4000 w1) = (Throw e2, am2, w2) ->
       rethrown e2 = true ->
       send config am2 (sleep 8000 w2) = (Throw e3, am3, w3) ->
       rethrown e3 = true ->
       handled = (Some (Throw ApiClient.maxRetriesExceeded), am3, w3)).
Proof.
  intros W send sleep config resp0 am w fuel H5 failed handled.
  destruct (server_error_status _ H5) as [H401 H429].
  assert (Hh : handled =
               ApiClient.retryLoopIn sleep (ApiClient.request send sleep (S fuel))
                 3 config 1 am w).
  { unfold handled, failed, ApiClient.handleErrorIn.
    now rewrite H401, H429, H5. }
  assert (Hok : forall a0 w0 r a1 w1,
             send config a0 w0 = (Ok r, a1, w1) ->
             ApiClient.request send sleep (S fuel) config a0 w0
             = (Some (Ok r), a1, w1)).
  { intros a0 w0 r a1 w1 E. cbn [ApiClient.request]. now rewrite E. }
  rewrite Hh. cbn [ApiClient.retryLoopIn].
  change (2 ^ 1 * 1000) with 2000.
  change (2 ^ (1 + 1) * 1000) with 4000.
  change (2 ^ (1 + 1 + 1) * 1000) with 8000.
  repeat apply conj.
  - intros Hk. split.
    + pose proof (request_keeps_failing send sleep config Hk (S fuel) am
                    (sleep 2000 w)) as Hn.
      destruct (ApiClient.request send sleep (S fuel) config am (sleep 2000 w))
        as [[o a1] w1]. cbn [fst] in Hn. subst o. reflexivity.
    + apply (logged_request_keeps_failing send sleep config Hk fuel am w []).
  - intros r am1 w1 E1. now rewrite (Hok _ _ _ _ _ E1).
  - intros e1 am1 w1 r am2 w2 E1 R1 E2.
    destruct (request_rethrown send sleep fuel _ _ _ _ _ _ E1 R1) as [e1' ->].
    now rewrite (Hok _ _ _ _ _ E2).
  - intros e1 am1 w1 e2 am2 w2 r am3 w3 E1 R1 E2 R2 E3.
    destruct (request_rethrown send sleep fuel _ _ _ _ _ _ E1 R1) as [e1' ->].
    destruct (request_rethrown send sleep fuel _ _ _ _ _ _ E2 R2) as [e2' ->].
    now rewrite (Hok _ _ _ _ _ E3).
  - intros e1 am1 w1 e2 am2 w2 e3 am3 w3 E1 R1 E2 R2 E3 R3.
    destruct (request_rethrown send sleep fuel _ _ _ _ _ _ E1 R1) as [e1' ->].
    destruct (request_rethrown send sleep fuel _ _ _ _ _ _ E2 R2) as [e2' ->].
    destruct (request_rethrown send sleep fuel _ _ _ _ _ _ E3 R3) as [e3' ->].
    reflexivity.
Qed.

Lemma server_errors_witness :
  fst (fst (ApiClient.handleErrorIn sleep_count
              (ApiClient.request always_503 sleep_count 8)
              (AxiosError (Some (rejected 500)) get_account) manual_token O))
  = None /\
  ApiClient.handleErrorIn sleep_count (ApiClient.request then_404 sleep_count 8)
    (AxiosError (Some (rejected 500)) get_account) manual_token O
  = (Some (Throw ApiClient.maxRetriesExceeded), manual_token, 3%nat).
Proof.
  split.
  - apply (proj1 (server_errors_are_retried_through_the_error_handler nat
                    always_503 sleep_count get_account (rejected 500)
                    manual_token O 7 eq_refl)).
    intros am w. exists (rejected 503), am, (S w). split; reflexivity.
  - apply (proj2 (proj2 (proj2 (proj2
             (server_errors_are_retried_through_the_error_handler nat
                then_404 sleep_count get_account (rejected 500)
                manual_token O 7 eq_refl))))
             (AxiosError (Some (rejected 404)) get_account) manual_token 1%nat
             (AxiosError (Some (rejected 404)) get_account) manual_token 2%nat
             (AxiosError (Some (rejected 404)) get_account) manual_token 3%nat);
      reflexivity.
Defined.

(** ** Client: pagination *)

Lemma getPaginated_linked server url visited :
  linked server url visited ->
  forall fuel w,
    (length visited <= fuel)%nat ->
    ApiClient.getPaginated (served server) fuel (Some url) w
    = (map snd visited, Some (Ok tt), (w ++ map fst visited)%list).
Proof.
  induction 1 as [url r nxt Hne Hs Hm | url r url' rest Hne Hs Hl IH];
    intros fuel w Hfuel.
  - destruct fuel as [|fuel]; [cbn in Hfuel; lia|].
    cbn [ApiClient.getPaginated missing].
    destruct (String.eqb_spec url ""); [contradiction|].
    change (default "" (Some url)) with url. unfold served at 1. rewrite Hs.
    cbn [ApiClient.next ApiClient.results].
    destruct fuel; cbn [ApiClient.getPaginated]; rewrite Hm; reflexivity.
  - destruct fuel as [|fuel]; [cbn in Hfuel; lia|].
    cbn [ApiClient.getPaginated missing].
    destruct (String.eqb_spec url ""); [contradiction|].
    change (default "" (Some url)) with url. unfold served at 1. rewrite Hs.
    cbn [ApiClient.next ApiClient.results].
    rewrite IH by (cbn in Hfuel; lia).
    cbn [map fst snd]. now rewrite <- app_assoc.
Qed.

(** [getOrders] follows the [next] links from its url: when the pages
    end with one that has no link, it returns the orders of all the
    pages in the order of the links, after exactly one request per
    page. *)
Theorem getOrders_concatenates_the_pages :
  forall (server : string -> Result ApiClient.PaginatedResponse)
         (url : string) (visited : list (string * list Json)) (fuel : nat),
    linked server url visited ->
    (length visited <= fuel)%nat ->
    TradingService.getOrdersFrom (served server) fuel url []
    = Some (Ok (concat (map snd visited)), map fst visited).
Proof.
  intros server url visited fuel Hl Hfuel.
  unfold TradingService.getOrdersFrom.
  now rewrite (getPaginated_linked server url visited Hl fuel [] Hfuel).
Qed.

Lemma getOrders_witness :
  TradingService.getOrdersFrom (served two_pages) 2 "/orders/?" []
  = Some (Ok [JStr "o1"; JStr "o2"; JStr "o3"],
          ["/orders/?"; "/orders/?cursor=2"]).
Proof.
  apply (getOrders_concatenates_the_pages two_pages "/orders/?"
           [("/orders/?", [JStr "o1"; JStr "o2"]);
            ("/orders/?cursor=2", [JStr "o3"])] 2).
  - eapply linked_next; [discriminate|reflexivity|].
    eapply linked_last; [discriminate|reflexivity|reflexivity].
  - simpl. lia.
Defined.

Lemma getPaginated_broken server url urls e :
  broken server url urls e ->
  forall fuel w,
    (length urls <= fuel)%nat ->
    exists pages,
      ApiClient.getPaginated (served server) fuel (Some url) w
      = (pages, Some (Throw e), (w ++ urls)%list).
Proof.
  induction 1 as [url e Hne Hs | url r url' urls e Hne Hs Hb IH];
    intros fuel w Hfuel.
  - destruct fuel as [|fuel]; [cbn in Hfuel; lia|].
    cbn [ApiClient.getPaginated missing].
    destruct (String.eqb_spec url ""); [contradiction|].
    change (default "" (Some url)) with url. unfold served at 1. rewrite Hs. now exists [].
  - destruct fuel as [|fuel]; [cbn in Hfuel; lia|].
    cbn [ApiClient.getPaginated missing].
    destruct (String.eqb_spec url ""); [contradiction|].
    change (default "" (Some url)) with url. unfold served at 1. rewrite Hs.
    cbn [ApiClient.next ApiClient.results].
    destruct (IH fuel (w ++ [url])%list) as [pages Hp]; [cbn in Hfuel; lia|].
    rewrite Hp. exists (r :: pages). now rewrite <- app_assoc.
Qed.

(** Nothing is returned when a page fails: [getOrders] throws the error
    of the failing request, and the orders of the pages read before it
    are dropped. *)
Theorem getOrders_drops_the_pages_read_before_an_error :
  forall (server : string -> Result ApiClient.PaginatedResponse)
         (url : string) (urls : list string) (e : Error) (fuel : nat),
    broken server url urls e ->
    (length urls <= fuel)%nat ->
    TradingService.getOrdersFrom (served server) fuel url []
    = Some (Throw e, urls).
Proof.
  intros server url urls e fuel Hb Hfuel.
  unfold TradingService.getOrdersFrom.
  destruct (getPaginated_broken server url urls e Hb fuel [] Hfuel) as [pages Hp].
  now rewrite Hp.
Qed.

Lemma getOrders_error_witness :
  TradingService.getOrdersFrom (served second_page_fails) 2 "/orders/?" []
  = Some (Throw (ApiError "API Error: 404" 404 JNull),
          ["/orders/?"; "/orders/?cursor=2"]).
Proof.
  apply (getOrders_drops_the_pages_read_before_an_error second_page_fails
           "/orders/?" ["/orders/?"; "/orders/?cursor=2"]
           (ApiError "API Error: 404" 404 JNull) 2).
  - eapply broken_next; [discriminate|reflexivity|].
    eapply broken_here; [discriminate|reflexivity].
  - simpl. lia.
Defined.

(** [getPaginated] keeps no record of the urls it has read: when a page
    links to itself the loop of [getOrders] goes on for ever, asking
    for the same page. *)
Theorem getOrders_loops_on_a_page_that_links_to_itself :
  forall (server : string -> Result ApiClient.PaginatedResponse)
         (url : string) (r : list Json) (fuel : nat) (w : list string),
    url <> "" ->
    server url = Ok {| ApiClient.results := r; ApiClient.next := Some url |} ->
    TradingService.getOrdersFrom (served server) fuel url w = None /\
    snd (ApiClient.getPaginated (served server) fuel (Some url) w)
    = (w ++ repeat url fuel)%list.
Proof.
  intros server url r fuel w Hne Hs.
  assert (H : exists pages,
             ApiClient.getPaginated (served server) fuel (Some url) w
             = (pages, None, (w ++ repeat url fuel)%list)).
  { revert w. induction fuel as [|fuel IH]; intros w.
    - cbn [ApiClient.getPaginated missing].
      destruct (String.eqb_spec url ""); [contradiction|].
      exists []. cbn [repeat]. now rewrite app_nil_r.
    - cbn [ApiClient.getPaginated missing].
      destruct (String.eqb_spec url ""); [contradiction|].
      change (default "" (Some url)) with url. unfold served at 1. rewrite Hs.
      cbn [ApiClient.next ApiClient.results].
      destruct (IH (w ++ [url])%list) as [pages Hp]. rewrite Hp.
      exists (r :: pages). cbn [repeat]. now rewrite <- app_assoc. }
  destruct H as [pages Hp].
  unfold TradingService.getOrdersFrom. rewrite Hp. split; reflexivity.
Qed.

Lemma getOrders_loop_witness :
  TradingService.getOrdersFrom (served self_linked_page) 50 "/orders/?" [] = None.
Proof.
  apply (proj1 (getOrders_loops_on_a_page_that_links_to_itself self_linked_page
                  "/orders/?" [JStr "o1"] 50 [] ltac:(discriminate) eq_refl)).
Defined.

(** ** Sliding-window limiter on Redis *)

Lemma inWindow_prune W T now h :
  Forall (fun q => 0 <= DistributedRateLimiter.p_now q <= T) h ->
  T <= now ->
  List.filter (fun m => negb ((0 <=? snd m) && (snd m <=? now - W * 1000)))
    (map pollEntry (inWindow W T h))
  = map pollEntry (inWindow W now h).
Proof.
  intros Hall HT. induction h as [|q h IH]; [reflexivity|].
  apply Forall_cons in Hall as [Hq Hall]. specialize (IH Hall).
  unfold inWindow in *. cbn [List.filter].
  destruct (Z.ltb_spec (T - W * 1000) (DistributedRateLimiter.p_now q)) as [H1|H1];
    destruct (Z.ltb_spec (now - W * 1000) (DistributedRateLimiter.p_now q)) as [H2|H2];
    cbn [map List.filter pollEntry snd].
  - destruct (Z.leb_spec 0 (DistributedRateLimiter.p_now q)); [|lia].
    destruct (Z.leb_spec (DistributedRateLimiter.p_now q) (now - W * 1000)); [lia|].
    cbn [andb negb]. now rewrite IH.
  - destruct (Z.leb_spec 0 (DistributedRateLimiter.p_now q)); [|lia].
    destruct (Z.leb_spec (DistributedRateLimiter.p_now q) (now - W * 1000)); [|lia].
    cbn [andb negb]. exact IH.
  - lia.
  - exact IH.
Qed.

Lemma inWindow_empty_later W T now h :
  Forall (fun q => 0 <= DistributedRateLimiter.p_now q <= T) h ->
  T + W * 1000 <= now ->
  inWindow W now h = [].
Proof.
  intros Hall HT. induction h as [|q h IH]; [reflexivity|].
  apply Forall_cons in Hall as [Hq Hall].
  unfold inWindow in *. cbn [List.filter].
  destruct (Z.ltb_spec (now - W * 1000) (DistributedRateLimiter.p_now q)); [lia|].
  now apply IH.
Qed.

Lemma inWindow_empty_mono W T now h :
  T <= now -> inWindow W T h = [] -> inWindow W now h = [].
Proof.
  intros HT. induction h as [|q h IH]; [reflexivity|].
  unfold inWindow in *. cbn [List.filter].
  destruct (Z.ltb_spec (T - W * 1000) (DistributedRateLimiter.p_now q));
    [discriminate|].
  destruct (Z.ltb_spec (now - W * 1000) (DistributedRateLimiter.p_now q)); [lia|].
  exact IH.
Qed.

Lemma inWindow_snoc W p h :
  0 < W ->
  inWindow W (DistributedRateLimiter.p_now p) (h ++ [p])
  = (inWindow W (DistributedRateLimiter.p_now p) h ++ [p])%list.
Proof.
  intros HW. unfold inWindow. rewrite List.filter_app. cbn [List.filter].
  destruct (Z.ltb_spec (DistributedRateLimiter.p_now p - W * 1000)
              (DistributedRateLimiter.p_now p)); [reflexivity|lia].
Qed.

Lemma new_member_is_not_there p l :
  ~ In (pollMember p) (map pollMember l) ->
  DistributedRateLimiter.has_member (pollMember p) (map pollEntry l) = false.
Proof.
  induction l as [|q l IH]; intros Hn; [reflexivity|].
  cbn [map DistributedRateLimiter.has_member existsb pollEntry fst] in *.
  destruct (String.eqb_spec (pollMember q) (pollMember p)) as [E|_].
  - exfalso. apply Hn. now left.
  - cbn [orb]. apply IH. intros Hin. apply Hn. now right.
Qed.

Lemma not_in_window p W now h :
  ~ In (pollMember p) (map pollMember h) ->
  ~ In (pollMember p) (map pollMember (inWindow W now h)).
Proof.
  intros Hn Hin. apply Hn.
  apply in_map_iff in Hin as (q & Hq & Hin).
  apply in_map_iff. exists q. split; [exact Hq|].
  unfold inWindow in Hin. now apply List.filter_In in Hin as [Hin _].
Qed.

Lemma window_step key m W T h db p :
  0 < W ->
  windowKept key W T h db ->
  0 <= DistributedRateLimiter.p_now p ->
  T <= DistributedRateLimiter.p_now p ->
  DistributedRateLimiter.p_at p = DistributedRateLimiter.p_now p ->
  ~ In (pollMember p) (map pollMember h) ->
  fst (DistributedRateLimiter.poll db key m W p)
    = (Z.of_nat (length (inWindow W (DistributedRateLimiter.p_now p) h)) <? m) /\
  windowKept key W (DistributedRateLimiter.p_now p) (h ++ [p])
    (snd (DistributedRateLimiter.poll db key m W p)).
Proof.
  intros HW [Hall Hdb] H0 HT Hat Hnew.
  set (now := DistributedRateLimiter.p_now p) in *.
  set (k1 := DistributedRateLimiter.zremrangebyscore
               (DistributedRateLimiter.live db key (DistributedRateLimiter.p_at p))
               0 (now - W * 1000)).
  assert (Hk1 : match k1 with
                | Some k => DistributedRateLimiter.members k
                            = map pollEntry (inWindow W now h) /\
                            DistributedRateLimiter.members k <> []
                | None => inWindow W now h = []
                end).
  { unfold k1, DistributedRateLimiter.live.
    destruct (db !! key) as [k|] eqn:Ek.
    - destruct Hdb as [Hm He].
      unfold DistributedRateLimiter.expired. rewrite He, Hat. fold now.
      destruct (Z.leb_spec (T + W * 1000) now) as [Hexp|Hlive].
      + cbn. now apply (inWindow_empty_later W T).
      + cbn [DistributedRateLimiter.zremrangebyscore]. rewrite Hm.
        rewrite (inWindow_prune W T now h Hall HT).
        destruct (map pollEntry (inWindow W now h)) eqn:Em.
        * now destruct (inWindow W now h).
        * cbn [DistributedRateLimiter.members]. split; [reflexivity|discriminate].
    - cbn. now apply (inWindow_empty_mono W T). }
  assert (Hcount : DistributedRateLimiter.zcard k1
                   = Z.of_nat (length (inWindow W now h))).
  { destruct k1 as [k|]; cbn.
    - destruct Hk1 as [-> _]. now rewrite length_map.
    - now rewrite Hk1. }
  assert (Hadd : DistributedRateLimiter.members
                   (DistributedRateLimiter.zadd k1 now (pollMember p))
                 = map pollEntry (inWindow W now (h ++ [p]))).
  { unfold now. rewrite inWindow_snoc by exact HW. fold now.
    rewrite map_app. cbn [map].
    destruct k1 as [k|]; cbn [DistributedRateLimiter.zadd DistributedRateLimiter.members].
    - destruct Hk1 as [Hm _]. rewrite Hm.
      rewrite new_member_is_not_there by now apply not_in_window.
      reflexivity.
    - now rewrite Hk1. }
  unfold DistributedRateLimiter.poll, DistributedRateLimiter.checkLimit.
  fold now. change (DistributedRateLimiter.memberName now (DistributedRateLimiter.p_rnd p))
    with (pollMember p).
  fold k1. cbn [fst snd]. split.
  - now rewrite Hcount.
  - unfold DistributedRateLimiter.expire.
    destruct (Z.leb_spec W 0); [lia|].
    split.
    + apply Forall_app. split.
      * eapply Forall_impl; [exact Hall|]. cbn. intros q Hq. lia.
      * constructor; [|constructor]. fold now. lia.
    + unfold DistributedRateLimiter.t in *.
      rewrite lookup_insert_eq. cbn [DistributedRateLimiter.members
                                       DistributedRateLimiter.expireAt].
      split; [exact Hadd|]. now rewrite Hat.
Qed.

Lemma window_steps key m W h : forall T h0 db,
  0 < W -> 0 <= T ->
  windowKept key W T h0 db ->
  inOrder T h ->
  List.NoDup (map pollMember (h0 ++ h)) ->
  exists T', windowKept key W T' (h0 ++ h)
               (DistributedRateLimiter.checkAll db key m W h) /\
             0 <= T' /\
             forall p, inOrder T (h ++ [p]) -> inOrder T' [p].
Proof.
  induction h as [|q h IH]; intros T h0 db HW HT0 Hk Hord Hnd.
  - exists T. rewrite app_nil_r. cbn [DistributedRateLimiter.checkAll].
    split; [exact Hk|]. split; [exact HT0|]. intros p Hp. exact Hp.
  - destruct Hord as (Hq & Hat & Hord).
    assert (Hnew : ~ In (pollMember q) (map pollMember h0)).
    { rewrite map_app in Hnd. cbn [map] in Hnd.
      apply List.NoDup_remove_2 in Hnd. intros Hin. apply Hnd.
      apply in_or_app. now left. }
    destruct (window_step key m W T h0 db q HW Hk ltac:(lia) Hq Hat Hnew)
      as [_ Hk'].
    destruct (IH (DistributedRateLimiter.p_now q) (h0 ++ [q])%list
                (snd (DistributedRateLimiter.poll db key m W q)))
      as (T' & HkT' & HT' & Hp); try assumption; try lia.
    { now rewrite <- app_assoc. }
    exists T'. cbn [DistributedRateLimiter.checkAll].
    rewrite <- app_assoc in HkT'. cbn [app] in HkT'.
    split; [exact HkT'|]. split; [exact HT'|].
    intros p Hord'. apply Hp. cbn [app inOrder] in Hord'. tauto.
Qed.

(** The window slides over every call, allowed or not.  After calls of
    [checkLimit] for a key made in the order of the clock, with members
    that differ and Redis on the caller's clock, a call is allowed
    exactly when fewer than [maxRequests] of the earlier calls were made
    less than [windowSeconds] before it; the earlier calls that were
    refused count like the others. *)
Theorem checkLimit_counts_every_call_in_the_window :
  forall (db : DistributedRateLimiter.t) (key : string)
         (maxRequests windowSeconds : Z)
         (earlier : list DistributedRateLimiter.Poll)
         (p : DistributedRateLimiter.Poll),
    db !! key = None ->
    0 < windowSeconds ->
    inOrder 0 (earlier ++ [p]) ->
    List.NoDup (map pollMember (earlier ++ [p])) ->
    fst (DistributedRateLimiter.poll
           (DistributedRateLimiter.checkAll db key maxRequests windowSeconds earlier)
           key maxRequests windowSeconds p)
    = (Z.of_nat (length (inWindow windowSeconds
                           (DistributedRateLimiter.p_now p) earlier))
       <? maxRequests).
Proof.
  intros db key m W h p Hdb HW Hord Hnd.
  assert (Hk0 : windowKept key W 0 [] db).
  { split; [constructor|]. now rewrite Hdb. }
  assert (Hordh : inOrder 0 h).
  { clear -Hord. revert Hord. generalize 0.
    induction h as [|q h IH]; intros z H; [exact I|].
    cbn [app inOrder] in *. destruct H as (A & B & C). eauto. }
  assert (Hndh : List.NoDup (map pollMember ([] ++ h))).
  { rewrite map_app in Hnd. now apply List.NoDup_app_remove_r in Hnd. }
  destruct (window_steps key m W h 0 [] db HW ltac:(lia) Hk0 Hordh Hndh)
    as (T' & Hk & HT' & Hp).
  cbn [app] in Hk.
  destruct (Hp p Hord) as (Hle & Hat & _).
  assert (Hnew : ~ In (pollMember p) (map pollMember h)).
  { rewrite map_app in Hnd. cbn [map] in Hnd.
    apply List.NoDup_remove_2 in Hnd. now rewrite app_nil_r in Hnd. }
  apply (window_step key m W T' h _ p HW Hk ltac:(lia) Hle Hat Hnew).
Qed.

Lemma checkLimit_window_witness :
  fst (DistributedRateLimiter.poll
         (DistributedRateLimiter.checkAll ∅ "orders" 2 60
            [poll_at 0 "0.11"; poll_at 1000 "0.52"; poll_at 2000 "0.93"])
         "orders" 2 60 (poll_at 60500 "0.34"))
  = (Z.of_nat (length (inWindow 60 60500
                         [poll_at 0 "0.11"; poll_at 1000 "0.52";
                          poll_at 2000 "0.93"])) <? 2).
Proof.
  apply (checkLimit_counts_every_call_in_the_window ∅ "orders" 2 60
           [poll_at 0 "0.11"; poll_at 1000 "0.52"; poll_at 2000 "0.93"]
           (poll_at 60500 "0.34")).
  - reflexivity.
  - lia.
  - simpl. repeat split; lia.
  - vm_compute. repeat constructor; simpl; intuition discriminate.
Defined.

Lemma poll_leaves_its_entry db key m W p :
  0 < W ->
  exists k mem,
    snd (DistributedRateLimiter.poll db key m W p) !! key = Some k /\
    DistributedRateLimiter.expireAt k
      = Some (DistributedRateLimiter.p_at p + W * 1000) /\
    In (mem, DistributedRateLimiter.p_now p) (DistributedRateLimiter.members k).
Proof.
  intros HW.
  unfold DistributedRateLimiter.poll, DistributedRateLimiter.checkLimit.
  cbn [snd]. unfold DistributedRateLimiter.expire.
  destruct (Z.leb_spec W 0); [lia|].
  unfold DistributedRateLimiter.t in *.
  eexists. exists (pollMember p). rewrite lookup_insert_eq.
  split; [reflexivity|]. split; [reflexivity|].
  cbn [DistributedRateLimiter.members].
  destruct (DistributedRateLimiter.zremrangebyscore _ _ _) as [k1|];
    cbn [DistributedRateLimiter.zadd DistributedRateLimiter.members];
    [|now left].
  fold (pollMember p).
  destruct (DistributedRateLimiter.has_member (pollMember p)
              (DistributedRateLimiter.members k1)) eqn:Eh.
  - unfold DistributedRateLimiter.has_member in Eh.
    apply existsb_exists in Eh as (x & Hx & Hname).
    apply in_map_iff. exists x. now rewrite Hname.
  - apply in_or_app. right. now left.
Qed.

Lemma refused_after_a_recent_entry db key m W k mem prev p :
  m <= 1 ->
  db !! key = Some k ->
  DistributedRateLimiter.expireAt k
    = Some (DistributedRateLimiter.p_at prev + W * 1000) ->
  In (mem, DistributedRateLimiter.p_now prev) (DistributedRateLimiter.members k) ->
  DistributedRateLimiter.p_now p - W * 1000 < DistributedRateLimiter.p_now prev ->
  DistributedRateLimiter.p_at p < DistributedRateLimiter.p_at prev + W * 1000 ->
  fst (DistributedRateLimiter.poll db key m W p) = false.
Proof.
  intros Hm Hdb He Hin Hnow Hat.
  unfold DistributedRateLimiter.poll, DistributedRateLimiter.checkLimit.
  cbn [fst]. unfold DistributedRateLimiter.live.
  rewrite Hdb. unfold DistributedRateLimiter.expired. rewrite He.
  destruct (Z.leb_spec (DistributedRateLimiter.p_at prev + W * 1000)
              (DistributedRateLimiter.p_at p)); [lia|].
  cbn [DistributedRateLimiter.zremrangebyscore].
  assert (Hkept : In (mem, DistributedRateLimiter.p_now prev)
            (List.filter
               (fun m0 => negb ((0 <=? snd m0) &&
                                (snd m0 <=? DistributedRateLimiter.p_now p - W * 1000)))
               (DistributedRateLimiter.members k))).
  { apply List.filter_In. split; [exact Hin|]. cbn [snd].
    destruct (Z.leb_spec (DistributedRateLimiter.p_now prev)
                (DistributedRateLimiter.p_now p - W * 1000)); [lia|].
    now rewrite andb_false_r. }
  destruct (List.filter _ (DistributedRateLimiter.members k)) as [|x ms] eqn:Ef;
    [contradiction|].
  cbn [DistributedRateLimiter.zcard DistributedRateLimiter.members length].
  apply Z.ltb_ge. lia.
Qed.

(** With a limit of one request per window, a caller of [consumeOrWait]
    that is refused once is refused for ever, as long as the turns of
    its loop follow one another by less than the window: each refused
    turn has left an entry of its own in the window, which the next
    turn counts.  No number of turns brings it to return. *)
Theorem consumeOrWait_locks_itself_out :
  forall (db : DistributedRateLimiter.t) (key : string)
         (maxRequests windowSeconds : Z)
         (first : DistributedRateLimiter.Poll)
         (polls : list DistributedRateLimiter.Poll),
    maxRequests <= 1 ->
    0 < windowSeconds ->
    fst (DistributedRateLimiter.poll db key maxRequests windowSeconds first)
      = false ->
    closelySpaced windowSeconds first polls ->
    fst (DistributedRateLimiter.consumeOrWait db key maxRequests windowSeconds
           (first :: polls) 0) = None.
Proof.
  intros db key m W first polls Hm HW Hfirst Hsp.
  generalize 0%nat. revert db first Hfirst Hsp.
  induction polls as [|p polls IH]; intros db first Hfirst Hsp n.
  - cbn [DistributedRateLimiter.consumeOrWait].
    destruct (DistributedRateLimiter.poll db key m W first) as [a db'].
    cbn [fst] in Hfirst. now rewrite Hfirst.
  - cbn [DistributedRateLimiter.consumeOrWait].
    destruct (poll_leaves_its_entry db key m W first HW)
      as (k & mem & Hk & He & Hin).
    destruct (DistributedRateLimiter.poll db key m W first) as [a db'] eqn:Ep.
    cbn [fst snd] in Hfirst, Hk. rewrite Hfirst.
    destruct Hsp as (Hnow & Hat & Hsp).
    apply (IH db' p); [|exact Hsp].
    now apply (refused_after_a_recent_entry db' key m W k mem first p).
Qed.

Lemma consumeOrWait_lockout_witness :
  fst (DistributedRateLimiter.consumeOrWait
         (snd (DistributedRateLimiter.poll ∅ "orders" 1 60 (poll_at 0 "0.11")))
         "orders" 1 60
         [poll_at 5000 "0.52"; poll_at 6000 "0.93"; poll_at 7001 "0.34";
          poll_at 66000 "0.75"] 0) = None.
Proof.
  apply (consumeOrWait_locks_itself_out
           (snd (DistributedRateLimiter.poll ∅ "orders" 1 60 (poll_at 0 "0.11")))
           "orders" 1 60 (poll_at 5000 "0.52")
           [poll_at 6000 "0.93"; poll_at 7001 "0.34"; poll_at 66000 "0.75"]).
  - lia.
  - lia.
  - vm_compute. reflexivity.
  - simpl. repeat split; lia.
Defined.
(** ** Client with cache, limiter and breaker: one caller *)

Lemma limiter_checkLimit_ok rl endpoint c1 c2 :
  fst (fst (RateLimiter.checkLimit rl endpoint c1 c2)) = Ok tt.
Proof.
  unfold RateLimiter.checkLimit, RateLimiter.consumeToken, TokenBucket.consume.
  destruct (RateLimiter.bucketFor rl _ c1); cbn;
    match goal with
    | |- context [RateLimiter.bucketFor ?r "*" c2] =>
        destruct (RateLimiter.bucketFor r "*" c2)
    end; reflexivity.
Qed.

Lemma lookup_keeps_limiter_and_breaker cl url params cacheTTL now now2 :
  let cl' := snd (ResilientApiClient.lookup cl url params cacheTTL now now2) in
  ResilientApiClient.rateLimiter cl' = ResilientApiClient.rateLimiter cl /\
  ResilientApiClient.circuitBreaker cl' = ResilientApiClient.circuitBreaker cl.
Proof.
  unfold ResilientApiClient.lookup.
  destruct (ResilientApiClient.caching cacheTTL); [|split; reflexivity].
  destruct (CacheManager.get _ _ _ _) as [cached c']. split; reflexivity.
Qed.

Lemma step_only_task cl tk sent ev :
  ResilientApiClient.task_of ev = 0%nat ->
  ResilientApiClient.step
    {| ResilientApiClient.client := cl;
       ResilientApiClient.tasks := [tk];
       ResilientApiClient.upstream := sent |} ev
  = let '(cl', p, sent') :=
      ResilientApiClient.resume
        {| ResilientApiClient.client := cl;
           ResilientApiClient.tasks := [tk];
           ResilientApiClient.upstream := sent |} tk ev in
    {| ResilientApiClient.client := cl';
       ResilientApiClient.tasks := [ResilientApiClient.at_pc tk p];
       ResilientApiClient.upstream := (sent ++ sent')%list |}.
Proof.
  intros H. unfold ResilientApiClient.step. rewrite H.
  set (s := {| ResilientApiClient.client := cl;
               ResilientApiClient.tasks := [tk];
               ResilientApiClient.upstream := sent |}).
  change (ResilientApiClient.tasks s !! 0%nat) with (Some tk).
  cbv beta iota.
  destruct (ResilientApiClient.resume s tk ev) as [[cl' p] sent']. reflexivity.
Qed.

(** The limiter is charged before the breaker is asked.  A [get] whose
    cache lookup finds nothing, made while the breaker is OPEN and its
    cool-down has not passed, fails with the breaker-open error without
    a call upstream and without a change to the breaker; the tokens of
    the endpoint and of the global bucket have been taken all the
    same. *)
Theorem open_breaker_refuses_after_the_limiter_is_charged :
  forall (cl : ResilientApiClient.t) (url params : string) (cacheTTL : option Z)
         (reply : Result Response) (tm : ResilientApiClient.Times),
    fst (ResilientApiClient.lookup cl url params cacheTTL
           (ResilientApiClient.tLookup tm) (ResilientApiClient.tLookup2 tm)) = None ->
    CircuitBreaker.state (ResilientApiClient.circuitBreaker cl) = CircuitBreaker.OPEN ->
    ResilientApiClient.tCall tm
      - CircuitBreaker.lastFailureTime (ResilientApiClient.circuitBreaker cl)
      <= CircuitBreaker.timeout (ResilientApiClient.circuitBreaker cl) ->
    let s := ResilientApiClient.get cl url params cacheTTL reply tm in
    map ResilientApiClient.pc (ResilientApiClient.tasks s)
      = [ResilientApiClient.Returned (Throw CircuitBreaker.breaker_open_error)] /\
    ResilientApiClient.upstream s = [] /\
    ResilientApiClient.circuitBreaker (ResilientApiClient.client s)
      = ResilientApiClient.circuitBreaker cl /\
    ResilientApiClient.rateLimiter (ResilientApiClient.client s)
      = snd (RateLimiter.checkLimit (ResilientApiClient.rateLimiter cl) url
               (ResilientApiClient.tAcquire1 tm) (ResilientApiClient.tAcquire2 tm)).
Proof.
  intros cl url params cacheTTL reply tm Hmiss Hopen Hcool s.
  unfold s, ResilientApiClient.get, ResilientApiClient.run.
  cbn [fold_left].
  rewrite step_only_task by reflexivity.
  cbn [ResilientApiClient.resume ResilientApiClient.pc ResilientApiClient.client
       ResilientApiClient.t_url ResilientApiClient.t_params
       ResilientApiClient.t_cacheTTL].
  pose proof (lookup_keeps_limiter_and_breaker cl url params cacheTTL
                (ResilientApiClient.tLookup tm) (ResilientApiClient.tLookup2 tm))
    as [Hrl Hcb].
  destruct (ResilientApiClient.lookup cl url params cacheTTL _ _) as [o cl1].
  cbn [fst snd] in Hmiss, Hrl, Hcb. subst o.
  rewrite step_only_task by reflexivity.
  cbn [ResilientApiClient.resume ResilientApiClient.pc ResilientApiClient.client
       ResilientApiClient.at_pc ResilientApiClient.t_url
       ResilientApiClient.t_params ResilientApiClient.t_cacheTTL].
  unfold ResilientApiClient.acquire. rewrite Hrl.
  pose proof (limiter_checkLimit_ok (ResilientApiClient.rateLimiter cl) url
                (ResilientApiClient.tAcquire1 tm) (ResilientApiClient.tAcquire2 tm))
    as Hok.
  destruct (RateLimiter.checkLimit _ url _ _) as [[r ws] rl'].
  cbn [fst snd] in Hok. subst r.
  rewrite step_only_task by reflexivity.
  cbn [ResilientApiClient.resume ResilientApiClient.pc ResilientApiClient.client
       ResilientApiClient.at_pc ResilientApiClient.t_url
       ResilientApiClient.t_params ResilientApiClient.t_cacheTTL].
  unfold ResilientApiClient.call.
  cbn [ResilientApiClient.circuitBreaker]. rewrite Hcb.
  rewrite gate_open by assumption.
  destruct (Z.ltb_spec
              (CircuitBreaker.timeout (ResilientApiClient.circuitBreaker cl))
              (ResilientApiClient.tCall tm
               - CircuitBreaker.lastFailureTime (ResilientApiClient.circuitBreaker cl)));
    [lia|].
  rewrite step_only_task by reflexivity.
  cbn. repeat split.
Qed.

Lemma open_breaker_witness :
  ResilientApiClient.upstream
    (ResilientApiClient.get
       {| ResilientApiClient.cache := CacheManager.new both_tiers;
          ResilientApiClient.rateLimiter := RateLimiter.new;
          ResilientApiClient.circuitBreaker := tripped_breaker |}
       "/quotes/AAPL/" "" (Some 10) quote_reply
       {| ResilientApiClient.tLookup := 2000; ResilientApiClient.tLookup2 := 2001;
          ResilientApiClient.tAcquire1 := at_zero;
          ResilientApiClient.tAcquire2 := at_zero;
          ResilientApiClient.tCall := 2002;
          ResilientApiClient.tSettle := 2040;
          ResilientApiClient.tSettle2 := 2041 |}) = [].
Proof.
  apply (open_breaker_refuses_after_the_limiter_is_charged
           {| ResilientApiClient.cache := CacheManager.new both_tiers;
              ResilientApiClient.rateLimiter := RateLimiter.new;
              ResilientApiClient.circuitBreaker := tripped_breaker |}
           "/quotes/AAPL/" "" (Some 10) quote_reply
           {| ResilientApiClient.tLookup := 2000; ResilientApiClient.tLookup2 := 2001;
              ResilientApiClient.tAcquire1 := at_zero;
              ResilientApiClient.tAcquire2 := at_zero;
              ResilientApiClient.tCall := 2002;
              ResilientApiClient.tSettle := 2040;
              ResilientApiClient.tSettle2 := 2041 |}).
  - reflexivity.
  - reflexivity.
  - simpl. lia.
Defined.

Lemma set_then_get_fresh c k v ttl t0 t0' t1 t1' :
  0 < ttl ->
  CacheManager.enableL2 (CacheManager.config c) = true ->
  t1' < t0' + ttl * 1000 ->
  fst (CacheManager.get (snd (CacheManager.set c k v (Some ttl) t0 t0')) k t1 t1')
  = v.
Proof.
  intros Httl H2 Ht. rewrite set_positive_ttl by assumption. cbn [snd].
  unfold CacheManager.get, CacheManager.l1Hit, Redis.get.
  destruct (CacheManager.enableL1 (CacheManager.config c)) eqn:H1;
    cbn [CacheManager.config CacheManager.with_l1 CacheManager.with_redis
         CacheManager.l1Cache CacheManager.redis];
    rewrite ?H1, ?H2;
    cbn [CacheManager.config CacheManager.with_l1 CacheManager.with_redis
         CacheManager.l1Cache CacheManager.redis];
    rewrite ?H1, ?H2, ?lookup_insert_eq;
    cbn [CacheManager.data CacheManager.expiresAt Redis.value Redis.expireAt].
  - destruct (t1 <? t0 + Z.min ttl 60000); [reflexivity|].
    destruct (Z.ltb_spec t1' (t0' + ttl * 1000)); [reflexivity|lia].
  - destruct (Z.ltb_spec t1' (t0' + ttl * 1000)); [reflexivity|lia].
Qed.

(** What a [get] with a TTL has fetched and stored is served to the
    next [get] for the same url and parameters from the cache: with the
    shared tier enabled and a truthy body, a [get] whose lookup is
    answered less than [ttl] seconds after the write returns the body
    without a call upstream, and neither the limiter nor the breaker is
    touched. *)
Theorem stored_response_is_served_from_the_cache :
  forall (cl : ResilientApiClient.t) (url params : string) (ttl ttl' : Z)
         (response : Response) (reply : Result Response) (t0 t0' : Z)
         (tm : ResilientApiClient.Times),
    0 < ttl -> ttl' <> 0 ->
    CacheManager.enableL2 (CacheManager.config (ResilientApiClient.cache cl)) = true ->
    truthy (data response) = true ->
    ResilientApiClient.tLookup2 tm < t0' + ttl * 1000 ->
    let cl1 := snd (ResilientApiClient.settle cl url params (Some ttl)
                      (Ok response) t0 t0') in
    let s := ResilientApiClient.get cl1 url params (Some ttl') reply tm in
    map ResilientApiClient.pc (ResilientApiClient.tasks s)
      = [ResilientApiClient.Returned (Ok (data response))] /\
    ResilientApiClient.upstream s = [] /\
    ResilientApiClient.rateLimiter (ResilientApiClient.client s)
      = ResilientApiClient.rateLimiter cl /\
    ResilientApiClient.circuitBreaker (ResilientApiClient.client s)
      = CircuitBreaker.onSuccess (ResilientApiClient.circuitBreaker cl).
Proof.
  intros cl url params ttl ttl' response reply t0 t0' tm
         Httl Httl' H2 Htruthy Hfresh cl1 s.
  assert (Hc1 : ResilientApiClient.caching (Some ttl) = true).
  { cbn. destruct (Z.eqb_spec ttl 0); [lia|reflexivity]. }
  assert (Hc2 : ResilientApiClient.caching (Some ttl') = true).
  { cbn. now destruct (Z.eqb_spec ttl' 0). }
  pose proof (set_then_get_fresh (ResilientApiClient.cache cl)
                (ResilientApiClient.getCacheKey "GET" url params)
                (data response) ttl t0 t0'
                (ResilientApiClient.tLookup tm) (ResilientApiClient.tLookup2 tm)
                Httl H2 Hfresh) as Hget.
  unfold s, cl1, ResilientApiClient.settle. rewrite Hc1.
  destruct (CacheManager.set (ResilientApiClient.cache cl) _ _ _ _ _) as [r c'].
  cbn [snd] in Hget |- *.
  unfold ResilientApiClient.get, ResilientApiClient.run. cbn [fold_left].
  rewrite step_only_task by reflexivity.
  cbn [ResilientApiClient.resume ResilientApiClient.pc ResilientApiClient.client
       ResilientApiClient.t_url ResilientApiClient.t_params
       ResilientApiClient.t_cacheTTL].
  unfold ResilientApiClient.lookup. rewrite Hc2.
  cbn [ResilientApiClient.cache].
  destruct (CacheManager.get c' _ _ _) as [cached c''].
  cbn [fst] in Hget. subst cached. rewrite Htruthy.
  rewrite step_only_task by reflexivity.
  cbn [ResilientApiClient.resume ResilientApiClient.pc ResilientApiClient.at_pc].
  rewrite step_only_task by reflexivity.
  cbn [ResilientApiClient.resume ResilientApiClient.pc ResilientApiClient.at_pc].
  rewrite step_only_task by reflexivity.
  cbn. repeat split.
Qed.

Lemma stored_response_witness :
  ResilientApiClient.upstream
    (ResilientApiClient.get
       (snd (ResilientApiClient.settle fresh_client "/quotes/AAPL/" "" (Some 10)
               quote_reply 40 41))
       "/quotes/AAPL/" "" (Some 10) quote_reply
       {| ResilientApiClient.tLookup := 5000; ResilientApiClient.tLookup2 := 5001;
          ResilientApiClient.tAcquire1 := at_zero;
          ResilientApiClient.tAcquire2 := at_zero;
          ResilientApiClient.tCall := 5002;
          ResilientApiClient.tSettle := 5040;
          ResilientApiClient.tSettle2 := 5041 |}) = [].
Proof.
  apply (stored_response_is_served_from_the_cache fresh_client
           "/quotes/AAPL/" "" 10 10
           {| status := 200; data := aapl_quote; retryAfter := None |}
           quote_reply 40 41
           {| ResilientApiClient.tLookup := 5000; ResilientApiClient.tLookup2 := 5001;
              ResilientApiClient.tAcquire1 := at_zero;
              ResilientApiClient.tAcquire2 := at_zero;
              ResilientApiClient.tCall := 5002;
              ResilientApiClient.tSettle := 5040;
              ResilientApiClient.tSettle2 := 5041 |});
    try reflexivity; simpl; lia.
Defined.

(** ** Orders placed with retries *)

(** A request that fails validation is not sent, but it is retried all
    the same: [placeOrderWithRetry] over [TradingService.placeOrder]
    validates it three times, sleeps one
    and then two seconds in between, and fails with 'Failed after 3
    attempts: ' followed by the message of the validation. *)
Theorem invalid_order_is_retried_but_never_posted :
  forall (W : Type) (post : string -> Json -> W -> Result Json * W)
         (sleep : Z -> W -> W)
         (axios_message : option Response -> Request -> string)
         (order : TradingService.OrderRequest) (e : Error) (w : W),
    TradingService.validateOrder order = Throw e ->
    ResilientTrading.placeOrderWithRetry (TradingService.placeOrder post)
      sleep axios_message order w
    = (Throw (JsError ("Failed after 3 attempts: "
                       ++ errorMessage axios_message e)),
       sleep 2000 (sleep 1000 w)).
Proof.
  intros W post sleep axios_message order e w Hv.
  unfold ResilientTrading.placeOrderWithRetry.
  change (Z.to_nat (ResilientTrading.maxRetries + 1 - 1)) with 3%nat.
  cbn [ResilientTrading.attemptsFrom].
  unfold TradingService.placeOrder. rewrite Hv. reflexivity.
Qed.

Lemma invalid_order_witness :
  ResilientTrading.placeOrderWithRetry (TradingService.placeOrder failing_post)
    sleep_count no_message no_quantity O
  = (Throw (JsError "Failed after 3 attempts: Quantity must be positive"), O).
Proof.
  apply (invalid_order_is_retried_but_never_posted nat failing_post sleep_count
           no_message no_quantity (JsError "Quantity must be positive") O
           eq_refl).
Defined.

(** A valid order is posted until a post succeeds, and the order that
    this post returns is returned at once.  After a first post that
    fails [placeOrderWithRetry] sleeps one second, after a second one
    two seconds; every post carries the same body, so an order whose
    post failed after the server had taken it is placed again.  When
    the third post fails as well the error is 'Failed after 3
    attempts: ' followed by the message of that third failure, and
    there is no sleep after it. *)
Theorem valid_order_is_posted_until_a_post_succeeds :
  forall (W : Type) (post : string -> Json -> W -> Result Json * W)
         (sleep : Z -> W -> W)
         (axios_message : option Response -> Request -> string)
         (order : TradingService.OrderRequest) (w : W),
    TradingService.validateOrder order = Ok tt ->
    let send := post "/orders/" (TradingService.toJson order) in
    let result :=
      ResilientTrading.placeOrderWithRetry (TradingService.placeOrder post)
        sleep axios_message order w in
    (forall r w1,
       send w = (Ok r, w1) ->
       result = (Ok r, w1)) /\
    (forall e1 w1 r w2,
       send w = (Throw e1, w1) ->
       send (sleep 1000 w1) = (Ok r, w2) ->
       result = (Ok r, w2)) /\
    (forall e1 w1 e2 w2 r w3,
       send w = (Throw e1, w1) ->
       send (sleep 1000 w1) = (Throw e2, w2) ->
       send (sleep 2000 w2) = (Ok r, w3) ->
       result = (Ok r, w3)) /\
    (forall e1 w1 e2 w2 e3 w3,
       send w = (Throw e1, w1) ->
       send (sleep 1000 w1) = (Throw e2, w2) ->
       send (sleep 2000 w2) = (Throw e3, w3) ->
       result = (Throw (JsError ("Failed after 3 attempts: "
                                 ++ errorMessage axios_message e3)), w3)).
Proof.
  intros W post sleep axios_message order w Hv send result.
  assert (Hp : forall w0, TradingService.placeOrder post order w0 = send w0).
  { intros w0. unfold TradingService.placeOrder. now rewrite Hv. }
  unfold result, ResilientTrading.placeOrderWithRetry.
  change (Z.to_nat (ResilientTrading.maxRetries + 1 - 1)) with 3%nat.
  cbn [ResilientTrading.attemptsFrom]. rewrite Hp.
  change (1 <? ResilientTrading.maxRetries) with true.
  change (1 + 1 <? ResilientTrading.maxRetries) with true.
  change (1 + 1 + 1 <? ResilientTrading.maxRetries) with false.
  change (ResilientTrading.retryDelay * 1) with 1000.
  change (ResilientTrading.retryDelay * (1 + 1)) with 2000.
  cbv beta iota.
  repeat apply conj.
  - intros r w1 H1. now rewrite H1.
  - intros e1 w1 r w2 H1 H2. rewrite H1, Hp. now rewrite H2.
  - intros e1 w1 e2 w2 r w3 H1 H2 H3.
    rewrite H1, Hp, H2, Hp. now rewrite H3.
  - intros e1 w1 e2 w2 e3 w3 H1 H2 H3.
    rewrite H1, Hp, H2, Hp, H3. reflexivity.
Qed.

Lemma valid_order_witness :
  ResilientTrading.placeOrderWithRetry (TradingService.placeOrder failing_post)
    sleep_count no_message buy_10_aapl O
  = (Throw (JsError "Failed after 3 attempts: API Error: 400"), 3%nat).
Proof.
  apply (proj2 (proj2 (proj2
           (valid_order_is_posted_until_a_post_succeeds nat failing_post
              sleep_count no_message buy_10_aapl O eq_refl)))
           (ApiError "API Error: 400" 400 JNull) 1%nat
           (ApiError "API Error: 400" 400 JNull) 2%nat
           (ApiError "API Error: 400" 400 JNull) 3%nat
           eq_refl eq_refl eq_refl).
Defined.

(** ** Validation of an order: a quantity that is not a number *)

Lemma parseFloat_unreadable c rest :
  isDigit c = false -> isSpace c = false ->
  c <> "-"%char -> c <> "+"%char -> c <> "."%char -> c <> "I"%char ->
  parseFloat (String c rest) = NaN.
Proof.
  intros Hd Hs Hm Hp Hdot HI.
  unfold parseFloat. cbn [trimStart]. rewrite Hs.
  destruct (Ascii.eqb_spec c "-"%char); [contradiction|].
  destruct (Ascii.eqb_spec c "+"%char); [contradiction|].
  unfold parseUnsigned.
  replace (String.prefix "Infinity" (String c rest)) with false.
  2:{ cbn [String.prefix]. destruct (Ascii.ascii_dec "I"%char c) as [E|E];
      [now subst c|reflexivity]. }
  cbn [takeDigits]. rewrite Hd.
  destruct (Ascii.eqb_spec c "."%char); [contradiction|]. reflexivity.
Qed.

(** [validateOrder] compares [parseFloat(quantity)] with zero, and the
    comparison of NaN is false: an order whose quantity starts with an
    ASCII character that is not a digit, a sign, a point, white space
    or the I of Infinity passes the validation, and [placeOrder] posts
    it.  (White space outside ASCII, which [parseFloat] skips as well,
    is not in question for such a first character.) *)
Theorem quantity_that_is_not_a_number_is_accepted :
  forall (W : Type) (post : string -> Json -> W -> Result Json * W)
         (order : TradingService.OrderRequest) (c : ascii) (rest : string)
         (w : W),
    TradingService.symbol order <> "" ->
    TradingService.quantity order = String c rest ->
    (nat_of_ascii c < 128)%nat ->
    isDigit c = false -> isSpace c = false ->
    c <> "-"%char -> c <> "+"%char -> c <> "."%char -> c <> "I"%char ->
    (TradingService.type order = TradingService.limit ->
     missing (TradingService.price order) = false) ->
    (TradingService.type order = TradingService.stop_loss ->
     missing (TradingService.stop_price order) = false) ->
    TradingService.validateOrder order = Ok tt /\
    TradingService.placeOrder post order w
    = post "/orders/" (TradingService.toJson order) w.
Proof.
  intros W post order c rest w Hsym Hq Hascii Hd Hs Hm Hp Hdot HI Hlim Hstop.
  assert (Hv : TradingService.validateOrder order = Ok tt).
  { unfold TradingService.validateOrder.
    destruct (String.eqb_spec (TradingService.symbol order) ""); [contradiction|].
    rewrite Hq. rewrite parseFloat_unreadable by assumption.
    cbn [String.eqb leZero orb].
    destruct (TradingService.type order) eqn:Et.
    - reflexivity.
    - now rewrite Hlim.
    - now rewrite Hstop.
    - reflexivity. }
  split; [exact Hv|]. unfold TradingService.placeOrder. now rewrite Hv.
Qed.

Lemma quantity_in_words_witness :
  TradingService.placeOrder recording_post quantity_in_words []
  = recording_post "/orders/" (TradingService.toJson quantity_in_words) [].
Proof.
  apply (proj2 (quantity_that_is_not_a_number_is_accepted _ recording_post
                  quantity_in_words "t"%char "en" []
                  ltac:(discriminate) eq_refl ltac:(vm_compute; lia)
                  eq_refl eq_refl
                  ltac:(discriminate) ltac:(discriminate)
                  ltac:(discriminate) ltac:(discriminate)
                  ltac:(discriminate) ltac:(discriminate))).
Defined.

(** ** Invalidation events *)

(** No event invalidates an entry by pattern: whatever the event, every
    key other than the five pattern strings themselves is left in both
    tiers and read as before; a market close changes nothing at all. *)
Theorem invalidation_events_leave_every_other_key :
  forall (c : CacheManager.t) (event : CacheInvalidationManager.CacheEvent)
         (k : string) (now now2 : Z),
    ~ In k invalidation_keys ->
    let c' := CacheInvalidationManager.invalidateOnEvent c event in
    CacheManager.l1Cache c' !! k = CacheManager.l1Cache c !! k /\
    CacheManager.redis c' !! k = CacheManager.redis c !! k /\
    fst (CacheManager.get c' k now now2) = fst (CacheManager.get c k now now2) /\
    (event = CacheInvalidationManager.market_close -> c' = c).
Proof.
  intros c event k now now2 Hk c'.
  assert (Hne : k <> "positions:*" /\ k <> "portfolio:*" /\
                k <> "orders:*" /\ k <> "balance:*" /\ k <> "account:*").
  { unfold invalidation_keys in Hk. simpl in Hk. intuition congruence. }
  destruct Hne as (N1 & N2 & N3 & N4 & N5).
  assert (H : CacheManager.l1Cache c' !! k = CacheManager.l1Cache c !! k /\
              CacheManager.redis c' !! k = CacheManager.redis c !! k /\
              CacheManager.config c' = CacheManager.config c).
  { unfold c', CacheInvalidationManager.invalidateOnEvent,
      CacheInvalidationManager.invalidateAfterOrder,
      CacheInvalidationManager.invalidateAfterTransfer.
    destruct event as [symbol| | |].
    - destruct (delete_other c "positions:*" k N1) as (A1 & B1 & C1).
      destruct (delete_other (CacheManager.delete c "positions:*")
                  "portfolio:*" k N2) as (A2 & B2 & C2).
      destruct (delete_other
                  (CacheManager.delete (CacheManager.delete c "positions:*")
                     "portfolio:*") "orders:*" k N3) as (A3 & B3 & C3).
      destruct (delete_other
                  (CacheManager.delete
                     (CacheManager.delete (CacheManager.delete c "positions:*")
                        "portfolio:*") "orders:*") "balance:*" k N4)
        as (A4 & B4 & C4).
      repeat split; congruence.
    - destruct (delete_other c "balance:*" k N4) as (A1 & B1 & C1).
      destruct (delete_other (CacheManager.delete c "balance:*")
                  "portfolio:*" k N2) as (A2 & B2 & C2).
      destruct (delete_other
                  (CacheManager.delete (CacheManager.delete c "balance:*")
                     "portfolio:*") "account:*" k N5) as (A3 & B3 & C3).
      repeat split; congruence.
    - destruct (delete_other c "balance:*" k N4) as (A1 & B1 & C1).
      destruct (delete_other (CacheManager.delete c "balance:*")
                  "portfolio:*" k N2) as (A2 & B2 & C2).
      destruct (delete_other
                  (CacheManager.delete (CacheManager.delete c "balance:*")
                     "portfolio:*") "account:*" k N5) as (A3 & B3 & C3).
      repeat split; congruence.
    - repeat split. }
  destruct H as (A & B & C).
  split; [exact A|]. split; [exact B|]. split.
  - now apply get_depends_on_key.
  - intros ->. reflexivity.
Qed.

Lemma invalidation_events_witness :
  fst (CacheManager.get
         (CacheInvalidationManager.invalidateOnEvent
            (snd (CacheManager.set (CacheManager.new both_tiers)
                    "balance:acct1" (JNum 250) (Some 60) 0 0))
            CacheInvalidationManager.deposit)
         "balance:acct1" 1000 1000)
  = fst (CacheManager.get
           (snd (CacheManager.set (CacheManager.new both_tiers)
                   "balance:acct1" (JNum 250) (Some 60) 0 0))
           "balance:acct1" 1000 1000).
Proof.
  apply (invalidation_events_leave_every_other_key
           (snd (CacheManager.set (CacheManager.new both_tiers)
                   "balance:acct1" (JNum 250) (Some 60) 0 0))
           CacheInvalidationManager.deposit "balance:acct1" 1000 1000).
  unfold invalidation_keys. simpl. intuition discriminate.
Defined.

(** ** Rate limiter of the client: reset *)

(** After [reset()] every endpoint starts from a full bucket again: for
    an endpoint whose burst size is at least one, the first call of
    [checkLimit] after the reset does not wait, and leaves the burst
    size less one in a bucket stamped with the time of the call. *)
Theorem first_call_after_reset_does_not_wait :
  forall (rl : ClientRateLimiter.t) (endpoint : string) (now wake : Z),
    (1 <= ClientRateLimiter.burstSize
            (ClientRateLimiter.getConfigForEndpoint rl endpoint))%Q ->
    let out := ClientRateLimiter.checkLimit (ClientRateLimiter.reset rl)
                 endpoint now wake in
    snd (fst out) = None /\
    exists bucket,
      ClientRateLimiter.buckets (snd out) !! endpoint = Some bucket /\
      (ClientRateLimiter.tokens bucket
       == ClientRateLimiter.burstSize
            (ClientRateLimiter.getConfigForEndpoint rl endpoint) - 1)%Q /\
      ClientRateLimiter.lastRefill bucket = now /\
      forall other, other <> endpoint ->
        ClientRateLimiter.buckets (snd out) !! other = None.
Proof.
  intros rl endpoint now wake Hb out.
  assert (Hcfg : ClientRateLimiter.getConfigForEndpoint
                   (ClientRateLimiter.reset rl) endpoint
                 = ClientRateLimiter.getConfigForEndpoint rl endpoint)
    by reflexivity.
  unfold out, ClientRateLimiter.checkLimit, ClientRateLimiter.getOrCreateBucket.
  rewrite Hcfg.
  set (config := ClientRateLimiter.getConfigForEndpoint rl endpoint) in *.
  cbn [ClientRateLimiter.reset ClientRateLimiter.buckets].
  rewrite lookup_empty.
  cbn [ClientRateLimiter.buckets ClientRateLimiter.defaultConfig
       ClientRateLimiter.endpointLimits].
  assert (Ht : (ClientRateLimiter.tokens
                  (ClientRateLimiter.refillBucket
                     {| ClientRateLimiter.tokens := ClientRateLimiter.burstSize config;
                        ClientRateLimiter.lastRefill := now |} config now)
                == ClientRateLimiter.burstSize config)%Q).
  { unfold ClientRateLimiter.refillBucket.
    cbn [ClientRateLimiter.tokens ClientRateLimiter.lastRefill].
    rewrite Z.sub_diag.
    destruct (Q.min_spec (ClientRateLimiter.burstSize config)
                (ClientRateLimiter.burstSize config
                 + inject_Z 0 / 1000 * ClientRateLimiter.requestsPerSecond config))
      as [[H1 E]|[H1 E]]; rewrite E; [reflexivity|].
    assert (Hz : (inject_Z 0 / 1000 == 0)%Q) by (vm_compute; reflexivity).
    rewrite Hz. lra. }
  assert (Hno : Qltb (ClientRateLimiter.tokens
                        (ClientRateLimiter.refillBucket
                           {| ClientRateLimiter.tokens :=
                                ClientRateLimiter.burstSize config;
                              ClientRateLimiter.lastRefill := now |} config now)) 1
                = false).
  { apply Qltb_false. rewrite Ht. exact Hb. }
  rewrite Hno. cbn [fst snd ClientRateLimiter.buckets].
  split; [reflexivity|].
  eexists. split; [apply lookup_insert_eq|].
  cbn [ClientRateLimiter.tokens ClientRateLimiter.lastRefill].
  split; [now rewrite Ht|]. split; [reflexivity|].
  intros other Hne.
  rewrite lookup_insert_ne by congruence.
  rewrite lookup_insert_ne by congruence. apply lookup_empty.
Qed.

Lemma first_call_after_reset_witness :
  snd (fst (ClientRateLimiter.checkLimit
              (ClientRateLimiter.reset
                 (ClientRateLimiter.checkAll ClientRateLimiter.new
                    [("/orders/", 0, 0); ("/orders/", 1, 1)]))
              "/orders/" 2 2)) = None.
Proof.
  apply (proj1 (first_call_after_reset_does_not_wait
                  (ClientRateLimiter.checkAll ClientRateLimiter.new
                     [("/orders/", 0, 0); ("/orders/", 1, 1)])
                  "/orders/" 2 2 ltac:(vm_compute; discriminate))).
Defined.
